(** * SqlitePoolStore: the farmer registry, the partial ledger and the
      points and payout aggregation of pool/store/sqlite_store.py

    The store keeps three SQL tables behind one connection.  Every method of
    the class sends one or two statements to that connection and commits.
    The model below keeps

    - the values the Python code binds to a statement ([bytes], hexadecimal
      text, integers, blobs),
    - the tables as they are declared (their column names) together with
      their rows,
    - the connection as a state that every [execute] goes through, with the
      exceptions a statement raises.

    Conventions of the model.

    - A row is kept as the tuple of values the store binds when it inserts
      it, in binding order.  The declared column list of a table decides
      whether a statement is accepted: an INSERT needs as many columns as it
      has values, a statement that names a column needs that column.  The
      INSERT statements of the class name no column, so the engine files the
      values by position; a column read by name is the value bound for it
      only in a table whose columns are declared in binding order, and every
      theorem that follows an INSERT by a read assumes that column list.
    - A Python int bound to a statement is checked as sqlite3 checks it:
      outside the signed 64-bit range the call raises OverflowError and
      nothing is written.  SUM raises OperationalError once a sum leaves that
      range.  The REAL that [points+?] turns into beyond that range is not
      modelled: the theorems about points assume sums below 2^63.
    - The engine clock ('now') is an argument [now] of the queries that use it,
      in seconds since the epoch.  The timestamp columns have integer
      affinity, so [strftime('%s','now','-1 day') < timestamp] compares
      numbers: [now - 86400 < timestamp].
    - SQL leaves the row order of a SELECT without ORDER BY open, and the
      engine follows its indexes and its sorter; the model lists rows in
      table order and groups in order of first occurrence.  The theorems
      about the rows of such a SELECT state them up to a permutation, as a
      set, or through a list of representatives that is left open. *)

From Stdlib Require Import ZArith List String Ascii Bool Lia.
From Stdlib.Strings Require Import Byte.
From Stdlib Require Import Sorted Permutation.
Import ListNotations.

Local Open Scope string_scope.
Local Open Scope list_scope.
Local Open Scope Z_scope.

(** ** Python values *)

Definition bytes := list byte.

(** Exceptions the store can raise: sqlite3.OperationalError (unknown table
    or column, wrong number of values, integer overflow in an aggregate),
    sqlite3.IntegrityError (primary key), OverflowError (a Python int that
    does not fit an SQLite INTEGER), ValueError and TypeError from the
    conversions. *)
Inductive exn :=
| OperationalError | IntegrityError | OverflowError | ValueError | TypeError.

Inductive result (A : Type) :=
| Ok (a : A)
| Raise (e : exn).
Arguments Ok {A} a.
Arguments Raise {A} e.

Definition result_bind {A B} (r : result A) (k : A -> result B) : result B :=
  match r with
  | Ok a => k a
  | Raise e => Raise e
  end.

Definition of_option {A} (e : exn) (o : option A) : result A :=
  match o with
  | Some a => Ok a
  | None => Raise e
  end.

(** [result_map f l] is the list comprehension [[f(x) for x in l]]: the first
    element on which [f] raises ends it. *)
Fixpoint result_map {A B} (f : A -> result B) (l : list A) : result (list B) :=
  match l with
  | [] => Ok []
  | x :: l' =>
      result_bind (f x) (fun y =>
      result_bind (result_map f l') (fun ys => Ok (y :: ys)))
  end.

(** *** bytes.hex() and bytes.fromhex() *)

Definition hex_digit (n : N) : ascii :=
  match n with
  | 0 => "0" | 1 => "1" | 2 => "2" | 3 => "3" | 4 => "4" | 5 => "5"
  | 6 => "6" | 7 => "7" | 8 => "8" | 9 => "9" | 10 => "a" | 11 => "b"
  | 12 => "c" | 13 => "d" | 14 => "e" | _ => "f"
  end%N%char.

Definition hex_value (c : ascii) : option N :=
  let n := N_of_ascii c in
  if ((48 <=? n) && (n <=? 57))%N then Some (n - 48)%N
  else if ((97 <=? n) && (n <=? 102))%N then Some (n - 87)%N
  else if ((65 <=? n) && (n <=? 70))%N then Some (n - 55)%N
  else None.

(** ASCII whitespace, which [bytes.fromhex] skips between bytes. *)
Definition is_space (c : ascii) : bool :=
  let n := N_of_ascii c in
  ((n =? 32) || ((9 <=? n) && (n <=? 13)))%N.

Definition hex_byte (b : byte) : string :=
  let n := Byte.to_N b in
  String (hex_digit (n / 16)) (String (hex_digit (n mod 16)) EmptyString).

Fixpoint hex (b : bytes) : string :=
  match b with
  | [] => EmptyString
  | x :: b' => (hex_byte x ++ hex b')%string
  end.

Fixpoint fromhex (s : string) : option bytes :=
  match s with
  | EmptyString => Some []
  | String c s' =>
      if is_space c then fromhex s'
      else
        match hex_value c, s' with
        | Some h, String d s'' =>
            match hex_value d with
            | Some l =>
                match Byte.of_N (16 * h + l), fromhex s'' with
                | Some x, Some b => Some (x :: b)
                | _, _ => None
                end
            | None => None
            end
        | _, _ => None
        end
  end.

(** [bytes32(b)]: the sized-bytes constructor refuses any other length. *)
Definition bytes32 (b : bytes) : result bytes :=
  if Nat.eqb (List.length b) 32 then Ok b else Raise ValueError.

(** [uint64(v)] on a value read from a row: [None] is SQL NULL (Python
    None), on which the conversion raises TypeError; an integer outside
    [0, 2^64) raises ValueError. *)
Definition uint64 (v : option Z) : result Z :=
  match v with
  | None => Raise TypeError
  | Some z => if (0 <=? z) && (z <? 2 ^ 64) then Ok z else Raise ValueError
  end.

(** A Python int bound to a parameter of a statement: SQLite keeps signed
    64-bit integers and sqlite3 raises OverflowError for any other int.  The
    statement is prepared first, so an unknown table or column or a wrong
    number of values is reported before any parameter is bound. *)
Definition int64 (z : Z) : bool := (- 2 ^ 63 <=? z) && (z <? 2 ^ 63).

Definition sqlite_int (z : Z) : result Z :=
  if int64 z then Ok z else Raise OverflowError.

(** The chia types kept as blobs (G1Element, CoinSpend, PoolState) come with
    [bytes(x)] and [T.from_bytes(b)]; the store relies on nothing else. *)
Class Streamable (T : Type) := {
  to_bytes : T -> bytes;
  from_bytes : bytes -> option T;
  from_to_bytes : forall x, from_bytes (to_bytes x) = Some x
}.

#[export] Instance bytes_Streamable : Streamable bytes :=
  {| to_bytes := fun b => b; from_bytes := fun b => Some b;
     from_to_bytes := fun _ => eq_refl |}.

(** ** The tables

    One module per table, named as in the SQL text; a row record lists the
    values in binding order. *)

Module farmer.
Record row := Row {
  launcher_id : string;
  p2_singleton_puzzle_hash : string;
  delay_time : Z;
  delay_puzzle_hash : string;
  authentication_public_key : string;
  singleton_tip : bytes;
  singleton_tip_state : bytes;
  points : Z;
  difficulty : Z;
  payout_instructions : string;
  is_pool_member : Z
}.

(** The columns [connect] declares for the table. *)
Definition columns : list string :=
  ["launcher_id"; "p2_singleton_puzzle_hash"; "delay_time";
   "delay_puzzle_hash"; "authentication_public_key"; "singleton_tip";
   "singleton_tip_state"; "points"; "difficulty"; "payout_instructions";
   "is_pool_member"].
End farmer.

Module partial.
(** The four values [add_partial] binds, in its order. *)
Record row := Row {
  launcher_id : string;
  timestamp : Z;
  difficulty : Z;
  harvester : string
}.

(** The columns [connect] declares for the table. *)
Definition columns : list string := ["launcher_id"; "timestamp"; "difficulty"].
End partial.

Module invalid_partial.
(** The five values [store_invalid_partial] binds, in its order. *)
Record row := Row {
  launcher_id : string;
  timestamp : Z;
  difficulty : Z;
  harvester : string;
  reason : string
}.
End invalid_partial.

Record table (R : Type) := Table {
  columns : list string;
  rows : list R
}.
Arguments Table {R} columns rows.
Arguments columns {R} t.
Arguments rows {R} t.

(** The database file: a table that was never created is [None]. *)
Record database := Database {
  farmer_table : option (table farmer.row);
  partial_table : option (table partial.row);
  invalid_partial_table : option (table invalid_partial.row)
}.

Definition empty_database : database := Database None None None.

(** ** The connection

    [executed] counts the statements sent through [connection.execute]. *)
Record connection := Connection {
  db : database;
  executed : nat
}.

Definition Store (A : Type) : Type := connection -> result A * connection.

Definition ret {A} (a : A) : Store A := fun c => (Ok a, c).

Definition bind {A B} (m : Store A) (k : A -> Store B) : Store B :=
  fun c =>
    match m c with
    | (Ok a, c') => k a c'
    | (Raise e, c') => (Raise e, c')
    end.

Notation "x <- m ;; k" := (bind m (fun x => k))
  (at level 61, m at next level, right associativity).
Notation "m ;; k" := (bind m (fun _ => k))
  (at level 61, right associativity).

(** A value or an exception computed without the connection. *)
Definition lift {A} (r : result A) : Store A := fun c => (r, c).

(** A statement reads the database and gives a result and the database it
    leaves, or raises and leaves it as it was. *)
Definition statement (A : Type) : Type := database -> result (A * database).

Definition execute {A} (q : statement A) : Store A :=
  fun c =>
    match q (db c) with
    | Ok (a, d) => (Ok a, Connection d (S (executed c)))
    | Raise e => (Raise e, Connection (db c) (S (executed c)))
    end.

(** [connection.commit()]: the connection already sees its own writes. *)
Definition commit : Store unit := ret tt.

Definition fetchone {R} (cursor : list R) : option R := hd_error cursor.

(** *** What the engine checks before it runs a statement *)

Definition has_columns (needed declared : list string) : bool :=
  forallb (fun c => existsb (String.eqb c) declared) needed.

(** A statement that reads or updates table [t] and names the columns
    [needed]: "no such table" or "no such column" otherwise. *)
Definition from_table {R} (t : option (table R)) (needed : list string)
  : result (table R) :=
  match t with
  | None => Raise OperationalError
  | Some t =>
      if has_columns needed (columns t) then Ok t else Raise OperationalError
  end.

(** [INSERT INTO t VALUES(?, ..., ?)] with [arity] values: "no such table",
    or "table t has n columns but [arity] values were supplied".  The values
    go to the columns by position, whatever their names: the row [r] is
    kept as bound, and it is the row that a later read by name sees when the
    columns of [t] are declared in binding order. *)
Definition insert_values {R} (t : option (table R)) (arity : nat) (r : R)
  : result (table R) :=
  match t with
  | None => Raise OperationalError
  | Some t =>
      if Nat.eqb (List.length (columns t)) arity
      then Ok (Table (columns t) (rows t ++ [r]))
      else Raise OperationalError
  end.

Definition create_table_if_not_exists {R} (declared : list string)
  (t : option (table R)) : option (table R) :=
  match t with
  | Some t => Some t
  | None => Some (Table declared [])
  end.

Definition update_where {R} (cond : R -> bool) (set : R -> R) (l : list R)
  : list R :=
  map (fun r => if cond r then set r else r) l.

(** ** connect *)

Definition pragma : statement unit := fun d => Ok (tt, d).

Definition create_table_farmer : statement unit := fun d =>
  Ok (tt, Database (create_table_if_not_exists farmer.columns (farmer_table d))
                   (partial_table d) (invalid_partial_table d)).

Definition create_table_partial : statement unit := fun d =>
  Ok (tt, Database (farmer_table d)
                   (create_table_if_not_exists partial.columns (partial_table d))
                   (invalid_partial_table d)).

Definition create_index_farmer (column : string) : statement unit := fun d =>
  result_bind (from_table (farmer_table d) [column]) (fun _ => Ok (tt, d)).

Definition create_index_partial (column : string) : statement unit := fun d =>
  result_bind (from_table (partial_table d) [column]) (fun _ => Ok (tt, d)).

(** [aiosqlite.connect(db_path)] on the file [d]. *)
Definition open (d : database) : connection := Connection d 0.

Definition connect : Store unit :=
  execute pragma ;;
  execute pragma ;;
  execute create_table_farmer ;;
  execute create_table_partial ;;
  execute (create_index_farmer "p2_singleton_puzzle_hash") ;;
  execute (create_index_partial "timestamp") ;;
  execute (create_index_partial "launcher_id") ;;
  commit.

Notation "'let*' x ':=' r 'in' k" := (result_bind r (fun x => k))
  (at level 10, x name, r at level 100, k at level 200).

Definition table_rows {R} (t : option (table R)) : list R :=
  match t with
  | Some t => rows t
  | None => []
  end.

Definition set_farmer_table (d : database) (t : table farmer.row) : database :=
  Database (Some t) (partial_table d) (invalid_partial_table d).

Definition set_partial_table (d : database) (t : table partial.row) : database :=
  Database (farmer_table d) (Some t) (invalid_partial_table d).

Definition set_invalid_partial_table (d : database)
  (t : table invalid_partial.row) : database :=
  Database (farmer_table d) (partial_table d) (Some t).

(** ** Statements on the farmer table *)

(** [SELECT * from farmer where launcher_id=?] *)
Definition select_farmer_where_launcher_id (launcher_id : string)
  : statement (list farmer.row) := fun d =>
  let* t := from_table (farmer_table d) ["launcher_id"] in
  Ok (filter (fun r => String.eqb (farmer.launcher_id r) launcher_id) (rows t), d).

(** [INSERT INTO farmer VALUES(?, ?, ?, ?, ?, ?, ?, ?, ?, ?, ?)];
    [launcher_id] is the primary key.  The integers bound are delay_time,
    points and difficulty; the eleventh value is [int(is_pool_member)], 0
    or 1. *)
Definition insert_into_farmer (r : farmer.row) : statement unit := fun d =>
  let* t := insert_values (farmer_table d) 11 r in
  let* _ := sqlite_int (farmer.delay_time r) in
  let* _ := sqlite_int (farmer.points r) in
  let* _ := sqlite_int (farmer.difficulty r) in
  if existsb (fun r' => String.eqb (farmer.launcher_id r') (farmer.launcher_id r))
       (table_rows (farmer_table d))
  then Raise IntegrityError
  else Ok (tt, set_farmer_table d t).

(** The SET list of the UPDATE of [add_farmer_record] applied to row [r]:
    eight columns take the bound values, here read from [v]. *)
Definition set_record_columns (v r : farmer.row) : farmer.row :=
  farmer.Row
    (farmer.launcher_id r)
    (farmer.p2_singleton_puzzle_hash v)
    (farmer.delay_time v)
    (farmer.delay_puzzle_hash v)
    (farmer.authentication_public_key v)
    (farmer.singleton_tip v)
    (farmer.singleton_tip_state v)
    (farmer.points r)
    (farmer.difficulty r)
    (farmer.payout_instructions v)
    (farmer.is_pool_member v).

(** [UPDATE farmer SET p2_singleton_puzzle_hash=?, delay_time=?,
    delay_puzzle_hash=?, authentication_public_key=?, singleton_tip=?,
    singleton_tip_state=?, payout_instructions=?, is_pool_member=?
    WHERE launcher_id=?], with the nine bound values in [v]. *)
Definition update_farmer_record (v : farmer.row) : statement unit := fun d =>
  let* t := from_table (farmer_table d)
              ["p2_singleton_puzzle_hash"; "delay_time"; "delay_puzzle_hash";
               "authentication_public_key"; "singleton_tip";
               "singleton_tip_state"; "payout_instructions"; "is_pool_member";
               "launcher_id"] in
  let* _ := sqlite_int (farmer.delay_time v) in
  Ok (tt, set_farmer_table d (Table (columns t)
    (update_where
       (fun r => String.eqb (farmer.launcher_id r) (farmer.launcher_id v))
       (set_record_columns v)
       (rows t)))).

(** [SELECT * from farmer WHERE p2_singleton_puzzle_hash in (?, ..., ?)].
    The engine answers through the index on p2_singleton_puzzle_hash, in
    the order of that index, and refuses a statement with more parameters
    than its build allows (999 in the smallest default); the rows are listed
    here in table order, and the theorems on this statement take at most 999
    hashes and state the result up to a permutation. *)
Definition select_farmer_where_p2_singleton_puzzle_hash_in
  (puzzle_hashes_db : list string) : statement (list farmer.row) := fun d =>
  let* t := from_table (farmer_table d) ["p2_singleton_puzzle_hash"] in
  Ok (filter
        (fun r => existsb (String.eqb (farmer.p2_singleton_puzzle_hash r))
                    puzzle_hashes_db)
        (rows t), d).

Definition set_points (points : Z) (r : farmer.row) : farmer.row :=
  farmer.Row
    (farmer.launcher_id r) (farmer.p2_singleton_puzzle_hash r)
    (farmer.delay_time r) (farmer.delay_puzzle_hash r)
    (farmer.authentication_public_key r) (farmer.singleton_tip r)
    (farmer.singleton_tip_state r) points (farmer.difficulty r)
    (farmer.payout_instructions r) (farmer.is_pool_member r).

(** [UPDATE farmer set points=0] *)
Definition update_farmer_set_points_0 : statement unit := fun d =>
  let* t := from_table (farmer_table d) ["points"] in
  Ok (tt, set_farmer_table d (Table (columns t) (map (set_points 0) (rows t)))).

(** [UPDATE farmer SET points=points+? WHERE launcher_id=?].  The model
    keeps the sum as an integer; the engine does so as long as the sum fits
    a signed 64-bit integer and stores a rounded REAL beyond, which the
    statements below about points exclude by hypothesis. *)
Definition update_farmer_add_points (difficulty : Z) (launcher_id : string)
  : statement unit := fun d =>
  let* t := from_table (farmer_table d) ["points"; "launcher_id"] in
  let* _ := sqlite_int difficulty in
  Ok (tt, set_farmer_table d (Table (columns t)
    (update_where
       (fun r => String.eqb (farmer.launcher_id r) launcher_id)
       (fun r => set_points (farmer.points r + difficulty) r)
       (rows t)))).

(** ** Statements on the ledgers *)

(** [INSERT into partial VALUES(?, ?, ?, ?)] *)
Definition insert_into_partial (r : partial.row) : statement unit := fun d =>
  let* t := insert_values (partial_table d) 4 r in
  let* _ := sqlite_int (partial.timestamp r) in
  let* _ := sqlite_int (partial.difficulty r) in
  Ok (tt, set_partial_table d t).

(** [INSERT into invalid_partial VALUES(?, ?, ?, ?, ?)] *)
Definition insert_into_invalid_partial (r : invalid_partial.row)
  : statement unit := fun d =>
  let* t := insert_values (invalid_partial_table d) 5 r in
  let* _ := sqlite_int (invalid_partial.timestamp r) in
  let* _ := sqlite_int (invalid_partial.difficulty r) in
  Ok (tt, set_invalid_partial_table d t).

(** ** The methods of the registry *)

Section Registry.

Context {G1Element CoinSpend PoolState : Type}.
Context {G1Element_bytes : Streamable G1Element}.
Context {CoinSpend_bytes : Streamable CoinSpend}.
Context {PoolState_bytes : Streamable PoolState}.

(** Modelled from the spec: the declaration of FarmerRecord (pool/record.py)
    is not among the sources.  The fields are those of section 3 of the
    specification, in the order in which [_row_to_farmer_record] passes them
    to the constructor and under the names [add_farmer_record] reads them. *)
Record FarmerRecord := {
  launcher_id : bytes;
  p2_singleton_puzzle_hash : bytes;
  delay_time : Z;
  delay_puzzle_hash : bytes;
  authentication_public_key : G1Element;
  singleton_tip : CoinSpend;
  singleton_tip_state : PoolState;
  points : Z;
  difficulty : Z;
  payout_instructions : string;
  is_pool_member : bool
}.

(** The eleven values [add_farmer_record] binds for a record. *)
Definition farmer_values (farmer_record : FarmerRecord) : farmer.row :=
  farmer.Row
    (hex (launcher_id farmer_record))
    (hex (p2_singleton_puzzle_hash farmer_record))
    (delay_time farmer_record)
    (hex (delay_puzzle_hash farmer_record))
    (hex (to_bytes (authentication_public_key farmer_record)))
    (to_bytes (singleton_tip farmer_record))
    (to_bytes (singleton_tip_state farmer_record))
    (points farmer_record)
    (difficulty farmer_record)
    (payout_instructions farmer_record)
    (Z.b2z (is_pool_member farmer_record)).

Definition _row_to_farmer_record (row : farmer.row) : result FarmerRecord :=
  let* r0 := of_option ValueError (fromhex (farmer.launcher_id row)) in
  let* r1 := of_option ValueError (fromhex (farmer.p2_singleton_puzzle_hash row)) in
  let* r3 := of_option ValueError (fromhex (farmer.delay_puzzle_hash row)) in
  let* k := of_option ValueError (fromhex (farmer.authentication_public_key row)) in
  let* r4 := of_option ValueError (from_bytes k) in
  let* r5 := of_option ValueError (from_bytes (farmer.singleton_tip row)) in
  let* r6 := of_option ValueError (from_bytes (farmer.singleton_tip_state row)) in
  Ok {| launcher_id := r0;
        p2_singleton_puzzle_hash := r1;
        delay_time := farmer.delay_time row;
        delay_puzzle_hash := r3;
        authentication_public_key := r4;
        singleton_tip := r5;
        singleton_tip_state := r6;
        points := farmer.points row;
        difficulty := farmer.difficulty row;
        payout_instructions := farmer.payout_instructions row;
        is_pool_member := Z.eqb (farmer.is_pool_member row) 1 |}.

(** The [metadata] argument of the method is not used by its body. *)
Definition add_farmer_record (farmer_record : FarmerRecord) : Store unit :=
  cursor <- execute (select_farmer_where_launcher_id
                       (hex (launcher_id farmer_record))) ;;
  match fetchone cursor with
  | None => execute (insert_into_farmer (farmer_values farmer_record))
  | Some _ => execute (update_farmer_record (farmer_values farmer_record))
  end ;;
  commit.

Definition get_farmer_record (launcher_id : bytes)
  : Store (option FarmerRecord) :=
  cursor <- execute (select_farmer_where_launcher_id (hex launcher_id)) ;;
  match fetchone cursor with
  | None => ret None
  | Some row =>
      lift (let* r := _row_to_farmer_record row in Ok (Some r))
  end.

(** [puzzle_hashes] is the set in the order [list(puzzle_hashes)] lists it. *)
Definition get_farmer_records_for_p2_singleton_phs (puzzle_hashes : list bytes)
  : Store (list FarmerRecord) :=
  if Nat.eqb (List.length puzzle_hashes) 0 then ret []
  else
    let puzzle_hashes_db := map hex puzzle_hashes in
    rows <- execute (select_farmer_where_p2_singleton_puzzle_hash_in
                       puzzle_hashes_db) ;;
    lift (result_map _row_to_farmer_record rows).

End Registry.

Arguments FarmerRecord : clear implicits.

(** ** The methods of the ledger *)

Definition clear_farmer_points : Store unit :=
  execute update_farmer_set_points_0 ;;
  commit.

Definition add_partial (launcher_id : bytes) (timestamp difficulty : Z)
  (harvester : bytes) : Store unit :=
  execute (insert_into_partial
             (partial.Row (hex launcher_id) timestamp difficulty (hex harvester))) ;;
  execute (update_farmer_add_points difficulty (hex launcher_id)) ;;
  commit.

Definition store_invalid_partial (launcher_id : bytes) (timestamp difficulty : Z)
  (harvester : bytes) (reason : string) : Store unit :=
  execute (insert_into_invalid_partial
             (invalid_partial.Row (hex launcher_id) timestamp difficulty
                (hex harvester) reason)) ;;
  commit.

(** ** SQL: joins, grouping, aggregates, LIMIT *)

Definition left_outer_join {A B} (on : A -> B -> bool) (l : list A) (r : list B)
  : list (A * option B) :=
  flat_map
    (fun a =>
       match filter (on a) r with
       | [] => [(a, None)]
       | matching => map (fun b => (a, Some b)) matching
       end) l.

Definition inner_join {A B} (on : A -> B -> bool) (l : list A) (r : list B)
  : list (A * B) :=
  flat_map (fun a => map (fun b => (a, b)) (filter (on a) r)) l.

(** The rows that open a group: those whose key was not met before. *)
Fixpoint first_occurrences {A K} (eqb : K -> K -> bool) (key : A -> K)
  (seen : list K) (l : list A) : list A :=
  match l with
  | [] => []
  | a :: l' =>
      if existsb (eqb (key a)) seen
      then first_occurrences eqb key seen l'
      else a :: first_occurrences eqb key (key a :: seen) l'
  end.

(** [GROUP BY key]: each group comes with a row of it, from which the bare
    columns of the SELECT list are read, and holds every row with that key.
    The engine hands the groups over in the order of its sorter; they are
    listed here in order of first occurrence, and no theorem states the
    order of the groups. *)
Definition group_by {A K} (eqb : K -> K -> bool) (key : A -> K) (l : list A)
  : list (A * list A) :=
  map (fun a => (a, filter (fun b => eqb (key b) (key a)) l))
      (first_occurrences eqb key [] l).

(** [MIN(x)]: NULL values are skipped; NULL when nothing is left. *)
Fixpoint sql_min (l : list (option Z)) : option Z :=
  match l with
  | [] => None
  | None :: l' => sql_min l'
  | Some x :: l' =>
      match sql_min l' with
      | None => Some x
      | Some m => Some (Z.min x m)
      end
  end.

(** [SUM(x)] over integers, as the engine computes it: the values that are
    not NULL are added one after the other to a signed 64-bit sum; the
    result is NULL when nothing was added, and once a sum leaves the signed
    64-bit range the aggregate ends with the error "integer overflow"
    (sqlite3.OperationalError). *)
Fixpoint sum_step (acc : option Z) (l : list (option Z)) : result (option Z) :=
  match l with
  | [] => Ok acc
  | None :: l' => sum_step acc l'
  | Some x :: l' =>
      let s := match acc with
               | Some a => a + x
               | None => x
               end in
      if int64 s then sum_step (Some s) l' else Raise OperationalError
  end.

Definition sql_sum (l : list (option Z)) : result (option Z) :=
  sum_step None l.

Definition coalesce (v : option Z) (default : Z) : Z :=
  match v with
  | Some x => x
  | None => default
  end.

(** [case when strftime('%s','now','-1 day') < timestamp and cond then v
    else 0 end]; a NULL timestamp makes the comparison NULL, hence the else
    branch. *)
Definition case_when_recent (now : Z) (timestamp : option Z) (cond : bool)
  (v : Z) : option Z :=
  match timestamp with
  | Some t => if (now - 86400 <? t) && cond then Some v else Some 0
  | None => Some 0
  end.

(** [LIMIT n]: a negative [n] is no limit. *)
Definition sql_limit {A} (n : Z) (l : list A) : list A :=
  if n <? 0 then l else firstn (Z.to_nat n) l.

(** ** get_farmer_points_and_payout_instructions *)

Module payout.
(** A row of the SELECT: row[0] .. row[3]. *)
Record row := Row {
  points : Z;
  payout_instructions : string;
  joinDate : option Z;
  points24 : Z
}.
End payout.

(** The SELECT list of the payout query on one group [g]: the bare columns
    are read from the row [fst g], the aggregates run over [snd g].
    [SELECT points, payout_instructions, MIN(timestamp) as joinDate,
      COALESCE(SUM(case when strftime('%s','now','-1 day') < timestamp
                        then partial.difficulty else 0 end), 0) AS points24] *)
Definition payout_select (now : Z)
  (g : (farmer.row * option partial.row)
       * list (farmer.row * option partial.row))
  : result payout.row :=
  let timestamps := map (fun ab => option_map partial.timestamp (snd ab))
                        (snd g) in
  let* points24 :=
    sql_sum
      (map (fun ab =>
              case_when_recent now
                (option_map partial.timestamp (snd ab)) true
                (match snd ab with
                 | Some b => partial.difficulty b
                 | None => 0
                 end))
           (snd g)) in
  Ok (payout.Row
        (farmer.points (fst (fst g)))
        (farmer.payout_instructions (fst (fst g)))
        (sql_min timestamps)
        (coalesce points24 0)).

(** [SELECT ... FROM farmer LEFT OUTER JOIN partial USING(launcher_id)
    WHERE farmer.is_pool_member=1 GROUP BY launcher_id having points>0],
    with the SELECT list [payout_select].  The engine ends the aggregates of
    a group before it tests HAVING on it, so an overflow of SUM is reported
    for a group that HAVING would drop as well. *)
Definition select_points_and_payout_instructions (now : Z)
  : statement (list payout.row) := fun d =>
  let* f := from_table (farmer_table d)
              ["points"; "payout_instructions"; "launcher_id"; "is_pool_member"] in
  let* p := from_table (partial_table d)
              ["timestamp"; "difficulty"; "launcher_id"] in
  let joined :=
    left_outer_join
      (fun a b => String.eqb (farmer.launcher_id a) (partial.launcher_id b))
      (rows f) (rows p) in
  let members :=
    filter (fun ab => Z.eqb (farmer.is_pool_member (fst ab)) 1) joined in
  let groups :=
    group_by String.eqb (fun ab => farmer.launcher_id (fst ab)) members in
  let* selected := result_map (payout_select now) groups in
  Ok (filter (fun row => 0 <? payout.points row) selected, d).

Fixpoint bytes_eqb (a b : bytes) : bool :=
  match a, b with
  | [], [] => true
  | x :: a', y :: b' => Byte.eqb x y && bytes_eqb a' b'
  | _, _ => false
  end.

(** The dict [accumulated]: keys in insertion order, each with the two-element
    list [[points, joined]] that the loop updates in place. *)
Definition dict := list (bytes * (Z * Z)).

Definition dict_mem (k : bytes) (acc : dict) : bool :=
  existsb (fun e => bytes_eqb (fst e) k) acc.

Definition dict_modify (k : bytes) (f : Z * Z -> Z * Z) (acc : dict) : dict :=
  map (fun e => if bytes_eqb (fst e) k then (fst e, f (snd e)) else e) acc.

(** The [if ph in accumulated: ... else: ...] of the loop. *)
Definition merge (accumulated : dict) (ph : bytes) (points joined : Z) : dict :=
  if dict_mem ph accumulated
  then dict_modify ph
         (fun v => (fst v + points, Z.min joined (snd v))) accumulated
  else accumulated ++ [(ph, (points, joined))].

(** One turn of the loop [for row in rows]. *)
Definition accumulate (accumulated : dict) (row : payout.row) : result dict :=
  let* points := uint64 (Some (payout.points24 row)) in
  let* joined := uint64 (payout.joinDate row) in
  let* b := of_option ValueError (fromhex (payout.payout_instructions row)) in
  let* ph := bytes32 b in
  Ok (merge accumulated ph points joined).

Fixpoint accumulate_rows (accumulated : dict) (rows : list payout.row)
  : result dict :=
  match rows with
  | [] => Ok accumulated
  | row :: rows' =>
      let* accumulated' := accumulate accumulated row in
      accumulate_rows accumulated' rows'
  end.

Definition get_farmer_points_and_payout_instructions (now : Z)
  : Store (list (Z * bytes * Z)) :=
  rows <- execute (select_points_and_payout_instructions now) ;;
  accumulated <- lift (accumulate_rows [] rows) ;;
  ret (map (fun e => (fst (snd e), fst e, snd (snd e))) accumulated).

(** ** get_farmer_record_for_all_farmers *)

Module ledger.
(** A row of the subquery [p]: the four columns read from either ledger and
    the tag ['p'] or ['i'] of the ledger it is read from. *)
Record row := Row {
  launcher_id : string;
  harvester : string;
  difficulty : Z;
  timestamp : Z;
  source : string
}.

Definition eq_dec (a b : row) : {a = b} + {a <> b}.
Proof. decide equality; auto using string_dec, Z.eq_dec. Defined.
End ledger.

(** [UNION]: the rows of both SELECTs without duplicates. *)
Definition sql_union (l1 l2 : list ledger.row) : list ledger.row :=
  nodup ledger.eq_dec (l1 ++ l2).

(** The subquery [p]:
    [SELECT launcher_id,harvester,difficulty,timestamp,'p' as source
       FROM partial
     UNION
     SELECT launcher_id,harvester,difficulty,timestamp,'i' as source
       FROM invalid_partial]. *)
Definition ledger_rows (v : list partial.row) (i : list invalid_partial.row)
  : list ledger.row :=
  sql_union
    (map (fun r => ledger.Row (partial.launcher_id r) (partial.harvester r)
                     (partial.difficulty r) (partial.timestamp r) "p")
         v)
    (map (fun r => ledger.Row (invalid_partial.launcher_id r)
                     (invalid_partial.harvester r)
                     (invalid_partial.difficulty r)
                     (invalid_partial.timestamp r) "i")
         i).

Module summary.
(** A row of the SELECT: row[0] .. row[9]. *)
Record row := Row {
  difficulty : Z;
  points : Z;
  launcher_id : string;
  partials : option Z;
  points24 : Z;
  payout_instructions : string;
  joinDate : option Z;
  p2_singleton_puzzle_hash : string;
  harvesters : Z;
  invalid_partials : option Z
}.

(** The dict built for a row, under the keys of the source. *)
Record entry := Entry {
  e_difficulty : Z;
  e_points : Z;
  e_launcher_id : string;
  e_partials24 : option Z;
  e_points24 : Z;
  e_payout_address : string;
  e_joinDate : option Z;
  e_puzzle_hash : string;
  e_harvesters : Z;
  e_invalid_partials : option Z
}.
End summary.

(** The SELECT list of the summary query on one group [g]: the bare columns
    are read from the row [fst g], the aggregates run over [snd g].
    [SELECT farmer.difficulty, points, launcher_id,
      SUM(case when W and source='p' then 1 else 0 end) AS partials,
      COALESCE(SUM(case when W and source='p' then p.difficulty else 0 end), 0)
        AS points24,
      payout_instructions, MIN(timestamp) as joinDate,
      p2_singleton_puzzle_hash, COUNT(DISTINCT harvester),
      SUM(case when W and source='i' then 1 else 0 end) AS invalid_partials],
    where W is [strftime('%s','now','-1 day') < timestamp]. *)
Definition summary_select (now : Z)
  (g : (farmer.row * ledger.row) * list (farmer.row * ledger.row))
  : result summary.row :=
  let a := fst (fst g) in
  let recent (src : string) (v : ledger.row -> Z) :=
    sql_sum
      (map (fun ab =>
              case_when_recent now (Some (ledger.timestamp (snd ab)))
                (String.eqb (ledger.source (snd ab)) src) (v (snd ab)))
           (snd g)) in
  let* partials := recent "p" (fun _ => 1) in
  let* points24 := recent "p" ledger.difficulty in
  let* invalid_partials := recent "i" (fun _ => 1) in
  Ok (summary.Row
        (farmer.difficulty a)
        (farmer.points a)
        (farmer.launcher_id a)
        partials
        (coalesce points24 0)
        (farmer.payout_instructions a)
        (sql_min (map (fun ab => Some (ledger.timestamp (snd ab))) (snd g)))
        (farmer.p2_singleton_puzzle_hash a)
        (Z.of_nat
           (List.length
              (nodup string_dec
                 (map (fun ab => ledger.harvester (snd ab)) (snd g)))))
        invalid_partials).

(** [SELECT ... FROM farmer JOIN (...) p USING(launcher_id)
    WHERE is_pool_member=1 GROUP BY launcher_id], with the SELECT list
    [summary_select] and the subquery [ledger_rows]. *)
Definition select_all_farmers (now : Z) : statement (list summary.row) :=
  fun d =>
  let* f := from_table (farmer_table d)
              ["difficulty"; "points"; "launcher_id"; "payout_instructions";
               "p2_singleton_puzzle_hash"; "is_pool_member"] in
  let* v := from_table (partial_table d)
              ["launcher_id"; "harvester"; "difficulty"; "timestamp"] in
  let* i := from_table (invalid_partial_table d)
              ["launcher_id"; "harvester"; "difficulty"; "timestamp"] in
  let p := ledger_rows (rows v) (rows i) in
  let joined :=
    inner_join
      (fun a b => String.eqb (farmer.launcher_id a) (ledger.launcher_id b))
      (rows f) p in
  let members :=
    filter (fun ab => Z.eqb (farmer.is_pool_member (fst ab)) 1) joined in
  let groups :=
    group_by String.eqb (fun ab => farmer.launcher_id (fst ab)) members in
  let* selected := result_map (summary_select now) groups in
  Ok (selected, d).

Section Summaries.

(** [chia.util.bech32m.encode_puzzle_hash], the address encoder. *)
Variable encode_puzzle_hash : bytes -> string -> string.

Definition summary_entry (row : summary.row) : result summary.entry :=
  let* b := of_option ValueError (fromhex (summary.payout_instructions row)) in
  Ok (summary.Entry
        (summary.difficulty row)
        (summary.points row)
        (summary.launcher_id row)
        (summary.partials row)
        (summary.points24 row)
        (encode_puzzle_hash b "xch")
        (summary.joinDate row)
        (summary.p2_singleton_puzzle_hash row)
        (summary.harvesters row)
        (summary.invalid_partials row)).

(** [fetchall] never gives None, so the list is always returned. *)
Definition get_farmer_record_for_all_farmers (now : Z)
  : Store (option (list summary.entry)) :=
  rows <- execute (select_all_farmers now) ;;
  entries <- lift (result_map summary_entry rows) ;;
  ret (Some entries).

End Summaries.

(** ** get_points_by_date *)

Definition digit (n : Z) : ascii := ascii_of_N (48 + Z.to_N n).

Definition two_digits (n : Z) : string :=
  String (digit (n / 10)) (String (digit (n mod 10)) EmptyString).

(** ['%H:%M'] of a number of seconds since the epoch. *)
Definition strftime_HM (seconds : Z) : string :=
  let s := seconds mod 86400 in
  (two_digits (s / 3600) ++ ":" ++ two_digits ((s mod 3600) / 60))%string.

(** The seconds since the epoch that the date functions of the engine take:
    from julian day 0 to the end of the year 9999.  Outside,
    [datetime(timestamp, 'unixepoch')] is NULL, and so is every [strftime]
    of it. *)
Definition unixepoch_valid (seconds : Z) : bool :=
  (-210866760000 <=? seconds) && (seconds <? 253402300800).

(** The group key [strftime('%Y.%m.%d.%H.%M', datetime(timestamp,
    'unixepoch'))] names the minute of the timestamp in UTC; the model uses
    the number of that minute, [timestamp / 60], which the text of the key
    determines and is determined by, and [None] where the key is NULL. *)
Definition minute_key (timestamp : Z) : option Z :=
  if unixepoch_valid timestamp then Some (timestamp / 60) else None.

Definition minute_eqb (a b : option Z) : bool :=
  match a, b with
  | Some x, Some y => Z.eqb x y
  | None, None => true
  | _, _ => false
  end.

(** [str(date)] of a text or of None. *)
Definition py_str (date : option string) : string :=
  match date with
  | Some text => text
  | None => "None"
  end.

Section Dates.

(** The offset, in seconds, that ['localtime'] adds to a time. *)
Variable utc_offset : Z -> Z.

(** [strftime('%H:%M', datetime(timestamp,'unixepoch'), 'localtime')]: NULL
    when the timestamp or its local time is not a date of the engine. *)
Definition local_HM (timestamp : Z) : option string :=
  if unixepoch_valid timestamp
     && unixepoch_valid (timestamp + utc_offset timestamp)
  then Some (strftime_HM (timestamp + utc_offset timestamp))
  else None.

(** [SELECT strftime('%H:%M',datetime(timestamp,'unixepoch'),'localtime')
      as date, SUM(difficulty) as points
    FROM partial
    WHERE launcher_id=? AND strftime('%s','now','-1 day') < timestamp
    GROUP BY strftime('%Y.%m.%d.%H.%M',datetime(timestamp,'unixepoch'))
    LIMIT ?].
    The engine returns the groups one by one and stops at the limit, so
    the aggregates of the groups beyond it are never ended. *)
Definition select_points_by_date (now : Z) (launcher_id : string) (limit : Z)
  : statement (list (option string * option Z)) := fun d =>
  let* p := from_table (partial_table d)
              ["timestamp"; "difficulty"; "launcher_id"] in
  let* limit := sqlite_int limit in
  let recent :=
    filter (fun r => String.eqb (partial.launcher_id r) launcher_id
                     && (now - 86400 <? partial.timestamp r))
           (rows p) in
  let groups :=
    group_by minute_eqb (fun r => minute_key (partial.timestamp r)) recent in
  let* selected :=
    result_map
      (fun g =>
         let* points :=
           sql_sum (map (fun r => Some (partial.difficulty r)) (snd g)) in
         Ok (local_HM (partial.timestamp (fst g)), points))
      (sql_limit limit groups) in
  Ok (selected, d).

Definition get_points_by_date (now : Z) (launcher_id : bytes) (count : Z)
  : Store (list (string * Z)) :=
  rows <- execute (select_points_by_date now (hex launcher_id) (count * 60)) ;;
  lift (result_map
          (fun r => let* points := uint64 (snd r) in Ok (py_str (fst r), points))
          rows).

End Dates.

(** ** update_difficulty and update_singleton *)

Definition set_difficulty (difficulty : Z) (r : farmer.row) : farmer.row :=
  farmer.Row
    (farmer.launcher_id r) (farmer.p2_singleton_puzzle_hash r)
    (farmer.delay_time r) (farmer.delay_puzzle_hash r)
    (farmer.authentication_public_key r) (farmer.singleton_tip r)
    (farmer.singleton_tip_state r) (farmer.points r) difficulty
    (farmer.payout_instructions r) (farmer.is_pool_member r).

(** [UPDATE farmer SET difficulty=? WHERE launcher_id=?] *)
Definition update_farmer_set_difficulty (difficulty : Z) (launcher_id : string)
  : statement unit := fun d =>
  let* t := from_table (farmer_table d) ["difficulty"; "launcher_id"] in
  let* _ := sqlite_int difficulty in
  Ok (tt, set_farmer_table d (Table (columns t)
    (update_where
       (fun r => String.eqb (farmer.launcher_id r) launcher_id)
       (set_difficulty difficulty)
       (rows t)))).

Definition update_difficulty (launcher_id : bytes) (difficulty : Z)
  : Store unit :=
  execute (update_farmer_set_difficulty difficulty (hex launcher_id)) ;;
  commit.

Definition set_singleton (singleton_tip singleton_tip_state : bytes)
  (is_pool_member : Z) (r : farmer.row) : farmer.row :=
  farmer.Row
    (farmer.launcher_id r) (farmer.p2_singleton_puzzle_hash r)
    (farmer.delay_time r) (farmer.delay_puzzle_hash r)
    (farmer.authentication_public_key r) singleton_tip
    singleton_tip_state (farmer.points r) (farmer.difficulty r)
    (farmer.payout_instructions r) is_pool_member.

(** [UPDATE farmer SET singleton_tip=?, singleton_tip_state=?,
    is_pool_member=? WHERE launcher_id=?], bound to the four values of
    [entry]. *)
Definition update_farmer_set_singleton (entry : bytes * bytes * Z * string)
  : statement unit := fun d =>
  let* t := from_table (farmer_table d)
              ["singleton_tip"; "singleton_tip_state"; "is_pool_member";
               "launcher_id"] in
  Ok (tt, set_farmer_table d (Table (columns t)
    (update_where
       (fun r => String.eqb (farmer.launcher_id r) (snd entry))
       (set_singleton (fst (fst (fst entry))) (snd (fst (fst entry)))
          (snd (fst entry)))
       (rows t)))).

Section SingletonUpdate.

Context {CoinSpend PoolState : Type}.
Context {CoinSpend_bytes : Streamable CoinSpend}.
Context {PoolState_bytes : Streamable PoolState}.

Definition update_singleton (launcher_id : bytes) (singleton_tip : CoinSpend)
  (singleton_tip_state : PoolState) (is_pool_member : bool) : Store unit :=
  let entry := (to_bytes singleton_tip, to_bytes singleton_tip_state,
                Z.b2z is_pool_member, hex launcher_id) in
  execute (update_farmer_set_singleton entry) ;;
  commit.

End SingletonUpdate.

(** ** get_pay_to_singleton_phs *)

(** [SELECT p2_singleton_puzzle_hash from farmer] *)
Definition select_p2_singleton_puzzle_hash : statement (list string) :=
  fun d =>
  let* t := from_table (farmer_table d) ["p2_singleton_puzzle_hash"] in
  Ok (map farmer.p2_singleton_puzzle_hash (rows t), d).

(** [all_phs.add(x)] on a set kept as the list of its elements. *)
Definition set_add (x : bytes) (s : list bytes) : list bytes :=
  if existsb (bytes_eqb x) s then s else s ++ [x].

(** The loop [for row in rows: all_phs.add(bytes32(bytes.fromhex(row[0])))]. *)
Fixpoint add_all_phs (all_phs : list bytes) (rows : list string)
  : result (list bytes) :=
  match rows with
  | [] => Ok all_phs
  | row :: rows' =>
      let* b := of_option ValueError (fromhex row) in
      let* ph := bytes32 b in
      add_all_phs (set_add ph all_phs) rows'
  end.

Definition get_pay_to_singleton_phs : Store (list bytes) :=
  rows <- execute select_p2_singleton_puzzle_hash ;;
  lift (add_all_phs [] rows).

(** ** get_recent_partials and get_recent_partials_all_farmers *)

(** [ORDER BY key DESC]: rows with equal keys keep their order, which SQL
    leaves open. *)
Fixpoint insert_desc {A} (key : A -> Z) (a : A) (l : list A) : list A :=
  match l with
  | [] => [a]
  | b :: l' =>
      if key b <=? key a then a :: b :: l' else b :: insert_desc key a l'
  end.

Definition order_by_desc {A} (key : A -> Z) (l : list A) : list A :=
  fold_right (insert_desc key) [] l.

(** [SELECT timestamp, difficulty from partial WHERE launcher_id=?
    ORDER BY timestamp DESC LIMIT ?] *)
Definition select_recent_partials (launcher_id : string) (limit : Z)
  : statement (list (Z * Z)) := fun d =>
  let* p := from_table (partial_table d)
              ["timestamp"; "difficulty"; "launcher_id"] in
  let* limit := sqlite_int limit in
  Ok (sql_limit limit
        (map (fun r => (partial.timestamp r, partial.difficulty r))
           (order_by_desc partial.timestamp
              (filter (fun r => String.eqb (partial.launcher_id r) launcher_id)
                 (rows p)))), d).

Definition get_recent_partials (launcher_id : bytes) (count : Z)
  : Store (list (Z * Z)) :=
  rows <- execute (select_recent_partials (hex launcher_id) count) ;;
  lift (result_map
          (fun r =>
             let* timestamp := uint64 (Some (fst r)) in
             let* difficulty := uint64 (Some (snd r)) in
             Ok (timestamp, difficulty))
          rows).

(** [SELECT timestamp, difficulty, launcher_id from partial
    ORDER BY timestamp DESC LIMIT ?] *)
Definition select_recent_partials_all_farmers (limit : Z)
  : statement (list (Z * Z * string)) := fun d =>
  let* p := from_table (partial_table d)
              ["timestamp"; "difficulty"; "launcher_id"] in
  let* limit := sqlite_int limit in
  Ok (sql_limit limit
        (map (fun r => (partial.timestamp r, partial.difficulty r,
                        partial.launcher_id r))
           (order_by_desc partial.timestamp (rows p))), d).

Definition get_recent_partials_all_farmers (count : Z)
  : Store (list (Z * Z * string)) :=
  rows <- execute (select_recent_partials_all_farmers count) ;;
  lift (result_map
          (fun r =>
             let* timestamp := uint64 (Some (fst (fst r))) in
             let* difficulty := uint64 (Some (snd (fst r))) in
             Ok (timestamp, difficulty, snd r))
          rows).

(** ** Sums of integers *)

Fixpoint Zsum (l : list Z) : Z :=
  match l with
  | [] => 0
  | x :: l' => x + Zsum l'
  end.

(** ** A run of several add_partial calls for one farmer *)


(** Two farmer rows that differ at most in [points]. *)
Definition same_but_points (r r' : farmer.row) : Prop :=
  farmer.launcher_id r' = farmer.launcher_id r /\
  farmer.p2_singleton_puzzle_hash r' = farmer.p2_singleton_puzzle_hash r /\
  farmer.delay_time r' = farmer.delay_time r /\
  farmer.delay_puzzle_hash r' = farmer.delay_puzzle_hash r /\
  farmer.authentication_public_key r' = farmer.authentication_public_key r /\
  farmer.singleton_tip r' = farmer.singleton_tip r /\
  farmer.singleton_tip_state r' = farmer.singleton_tip_state r /\
  farmer.difficulty r' = farmer.difficulty r /\
  farmer.payout_instructions r' = farmer.payout_instructions r /\
  farmer.is_pool_member r' = farmer.is_pool_member r.


(** ** Vocabulary of the statements about add_farmer_record *)

(** Row [r'] carries in its eight updatable columns the values of [v]. *)
Definition record_columns_from (v r' : farmer.row) : Prop :=
  farmer.p2_singleton_puzzle_hash r' = farmer.p2_singleton_puzzle_hash v /\
  farmer.delay_time r' = farmer.delay_time v /\
  farmer.delay_puzzle_hash r' = farmer.delay_puzzle_hash v /\
  farmer.authentication_public_key r' = farmer.authentication_public_key v /\
  farmer.singleton_tip r' = farmer.singleton_tip v /\
  farmer.singleton_tip_state r' = farmer.singleton_tip_state v /\
  farmer.payout_instructions r' = farmer.payout_instructions v /\
  farmer.is_pool_member r' = farmer.is_pool_member v.

(** The farmer rows after [add_farmer_record] has bound the values [v]. *)
Definition upsert_rows (v : farmer.row) (l : list farmer.row)
  : list farmer.row :=
  match filter (fun r => String.eqb (farmer.launcher_id r) (farmer.launcher_id v)) l with
  | [] => l ++ [v]
  | _ :: _ =>
      update_where
        (fun r => String.eqb (farmer.launcher_id r) (farmer.launcher_id v))
        (set_record_columns v) l
  end.

Section RegistryVocabulary.

Context {G1Element CoinSpend PoolState : Type}.

(** Records [F] and [G] agree on the eight fields that [add_farmer_record]
    updates. *)
Definition mutable_fields_equal (F G : FarmerRecord G1Element CoinSpend PoolState)
  : Prop :=
  p2_singleton_puzzle_hash G = p2_singleton_puzzle_hash F /\
  delay_time G = delay_time F /\
  delay_puzzle_hash G = delay_puzzle_hash F /\
  authentication_public_key G = authentication_public_key F /\
  singleton_tip G = singleton_tip F /\
  singleton_tip_state G = singleton_tip_state F /\
  payout_instructions G = payout_instructions F /\
  is_pool_member G = is_pool_member F.

End RegistryVocabulary.

(** ** Vocabulary of the statements about get_points_by_date *)

(** Timestamp [t] is a date of the engine, in UTC and in local time. *)
Definition engine_date (utc_offset : Z -> Z) (t : Z) : Prop :=
  unixepoch_valid t = true /\ unixepoch_valid (t + utc_offset t) = true.

(** Partial [q] belongs to the farmer and lies in the window of the query. *)
Definition recent_partial_of (now : Z) (launcher_id : bytes) (q : partial.row)
  : bool :=
  String.eqb (partial.launcher_id q) (hex launcher_id)
  && (now - 86400 <? partial.timestamp q).

(** The sum of the difficulty of the farmer's partials in the window that
    fall in the same minute as partial [p]. *)
Definition minute_points (now : Z) (launcher_id : bytes) (l : list partial.row)
  (p : partial.row) : Z :=
  Zsum (map partial.difficulty
          (filter (fun q => recent_partial_of now launcher_id q
                            && (partial.timestamp q / 60 =? partial.timestamp p / 60))
                  l)).

(** ** Vocabulary of the statements about the aggregates *)

(** The partial rows of farmer row [f]. *)
Definition partials_of (l : list partial.row) (f : farmer.row)
  : list partial.row :=
  filter (fun p => String.eqb (farmer.launcher_id f) (partial.launcher_id p)) l.

(** The difficulty of the partials of [f] with [now - 86400 < timestamp],
    summed. *)
Definition points24_of (now : Z) (l : list partial.row) (f : farmer.row) : Z :=
  Zsum (map (fun p => if now - 86400 <? partial.timestamp p
                      then partial.difficulty p else 0)
            (partials_of l f)).

(** The earliest timestamp among the partials of [f]; NULL without partial. *)
Definition join_date_of (l : list partial.row) (f : farmer.row) : option Z :=
  sql_min (map (fun p => Some (partial.timestamp p)) (partials_of l f)).

(** The rows the payout query keeps: pool members with points above zero. *)
Definition qualifies (f : farmer.row) : bool :=
  (farmer.is_pool_member f =? 1) && (0 <? farmer.points f).

(** The 32 bytes that the payout instructions of [f] spell in hexadecimal. *)
Definition destination (f : farmer.row) : option bytes :=
  match fromhex (farmer.payout_instructions f) with
  | Some b => if Nat.eqb (List.length b) 32 then Some b else None
  | None => None
  end.

Definition pays_to (ph : bytes) (f : farmer.row) : bool :=
  match destination f with
  | Some b => bytes_eqb b ph
  | None => false
  end.

(** The row the payout query returns for farmer row [f]. *)
Definition payout_row_of (now : Z) (l : list partial.row) (f : farmer.row)
  : payout.row :=
  payout.Row (farmer.points f) (farmer.payout_instructions f)
    (join_date_of l f) (points24_of now l f).

(** The three values the loop reads from the row of [f], when the
    conversions succeed. *)
Definition payout_values (now : Z) (l : list partial.row) (f : farmer.row)
  : bytes * Z * Z :=
  (match destination f with Some b => b | None => [] end,
   points24_of now l f,
   coalesce (join_date_of l f) 0).

(** The dict after the loop has read the values [es], in closed form. *)
Definition merge_all (accumulated : dict) (es : list (bytes * Z * Z)) : dict :=
  fold_left (fun acc e => merge acc (fst (fst e)) (snd (fst e)) (snd e))
    es accumulated.

Definition with_key (k : bytes) (es : list (bytes * Z * Z))
  : list (bytes * Z * Z) :=
  filter (fun e => bytes_eqb (fst (fst e)) k) es.

(** What the dict holds once the loop has read the values [es]: one entry
    per key met, with the points summed and the earliest join date. *)
Record dict_inv (acc : dict) (es : list (bytes * Z * Z)) : Prop := {
  inv_nodup : NoDup (map fst acc);
  inv_keys : forall k, dict_mem k acc = true <-> with_key k es <> [];
  inv_vals : forall k v, In (k, v) acc ->
      fst v = Zsum (map (fun e => snd (fst e)) (with_key k es)) /\
      Some (snd v) = sql_min (map (fun e => Some (snd e)) (with_key k es))
}.

(** The conversions of the loop succeed on the row of [f]. *)
Definition convertible (now : Z) (l : list partial.row) (f : farmer.row) : Prop :=
  (exists b, destination f = Some b) /\
  (exists j, join_date_of l f = Some j /\ 0 <= j < 2 ^ 64) /\
  0 <= points24_of now l f < 2 ^ 64.

(** ** Vocabulary of the statements about the summaries *)

(** The rows of the subquery [p] that belong to farmer row [f]. *)
Definition entries_of (p : list ledger.row) (f : farmer.row) : list ledger.row :=
  filter (fun b => String.eqb (farmer.launcher_id f) (ledger.launcher_id b)) p.

(** Row [b] comes from the ledger tagged [src] and has
    [now - 86400 < timestamp]. *)
Definition recent_from (now : Z) (src : string) (b : ledger.row) : bool :=
  (now - 86400 <? ledger.timestamp b) && String.eqb (ledger.source b) src.

Definition is_empty {A} (l : list A) : bool :=
  match l with
  | [] => true
  | _ :: _ => false
  end.

(** The farmers the summary lists: pool members with a row in [p]. *)
Definition listed (p : list ledger.row) (f : farmer.row) : bool :=
  (farmer.is_pool_member f =? 1) && negb (is_empty (entries_of p f)).

(** The row the summary query returns for farmer row [f]. *)
Definition summary_row_of (now : Z) (p : list ledger.row) (f : farmer.row)
  : summary.row :=
  let es := entries_of p f in
  summary.Row
    (farmer.difficulty f)
    (farmer.points f)
    (farmer.launcher_id f)
    (Some (Z.of_nat (List.length (filter (recent_from now "p") es))))
    (Zsum (map ledger.difficulty (filter (recent_from now "p") es)))
    (farmer.payout_instructions f)
    (sql_min (map (fun b => Some (ledger.timestamp b)) es))
    (farmer.p2_singleton_puzzle_hash f)
    (Z.of_nat (List.length (nodup string_dec (map ledger.harvester es))))
    (Some (Z.of_nat (List.length (filter (recent_from now "i") es)))).

(** ** Vocabulary of the statements about the field updates *)

(** Two farmer rows that differ at most in [difficulty]. *)
Definition same_but_difficulty (r r' : farmer.row) : Prop :=
  farmer.launcher_id r' = farmer.launcher_id r /\
  farmer.p2_singleton_puzzle_hash r' = farmer.p2_singleton_puzzle_hash r /\
  farmer.delay_time r' = farmer.delay_time r /\
  farmer.delay_puzzle_hash r' = farmer.delay_puzzle_hash r /\
  farmer.authentication_public_key r' = farmer.authentication_public_key r /\
  farmer.singleton_tip r' = farmer.singleton_tip r /\
  farmer.singleton_tip_state r' = farmer.singleton_tip_state r /\
  farmer.points r' = farmer.points r /\
  farmer.payout_instructions r' = farmer.payout_instructions r /\
  farmer.is_pool_member r' = farmer.is_pool_member r.

(** Two farmer rows that differ at most in [singleton_tip],
    [singleton_tip_state] and [is_pool_member]. *)
Definition same_but_singleton (r r' : farmer.row) : Prop :=
  farmer.launcher_id r' = farmer.launcher_id r /\
  farmer.p2_singleton_puzzle_hash r' = farmer.p2_singleton_puzzle_hash r /\
  farmer.delay_time r' = farmer.delay_time r /\
  farmer.delay_puzzle_hash r' = farmer.delay_puzzle_hash r /\
  farmer.authentication_public_key r' = farmer.authentication_public_key r /\
  farmer.points r' = farmer.points r /\
  farmer.difficulty r' = farmer.difficulty r /\
  farmer.payout_instructions r' = farmer.payout_instructions r.

Section UpdateVocabulary.

Context {G1Element CoinSpend PoolState : Type}.

(** Record [F] with another difficulty. *)
Definition with_difficulty (d : Z)
  (F : FarmerRecord G1Element CoinSpend PoolState)
  : FarmerRecord G1Element CoinSpend PoolState :=
  {| launcher_id := launcher_id F;
     p2_singleton_puzzle_hash := p2_singleton_puzzle_hash F;
     delay_time := delay_time F;
     delay_puzzle_hash := delay_puzzle_hash F;
     authentication_public_key := authentication_public_key F;
     singleton_tip := singleton_tip F;
     singleton_tip_state := singleton_tip_state F;
     points := points F;
     difficulty := d;
     payout_instructions := payout_instructions F;
     is_pool_member := is_pool_member F |}.

(** Record [F] with another singleton tip, tip state and membership. *)
Definition with_singleton (tip : CoinSpend) (state : PoolState) (m : bool)
  (F : FarmerRecord G1Element CoinSpend PoolState)
  : FarmerRecord G1Element CoinSpend PoolState :=
  {| launcher_id := launcher_id F;
     p2_singleton_puzzle_hash := p2_singleton_puzzle_hash F;
     delay_time := delay_time F;
     delay_puzzle_hash := delay_puzzle_hash F;
     authentication_public_key := authentication_public_key F;
     singleton_tip := tip;
     singleton_tip_state := state;
     points := points F;
     difficulty := difficulty F;
     payout_instructions := payout_instructions F;
     is_pool_member := m |}.

End UpdateVocabulary.

(** ** Sequences of method calls *)

Definition prefix {A} (l l' : list A) : Prop := exists e, l' = l ++ e.

Definition launcher_ids (d : database) : list string :=
  map farmer.launcher_id (table_rows (farmer_table d)).

Definition keeps_table {R} (t t' : option (table R)) : Prop :=
  forall x, t = Some x -> exists x', t' = Some x' /\ columns x' = columns x.

(** Database [d'] extends [d]: the ledgers and the list of launcher ids
    have only grown at the end, unique launcher ids are still unique, a
    table that existed still exists with the same columns, invalid_partial
    was not created, and a partial table that does not have four columns
    has the rows it had. *)
Record extends (d d' : database) : Prop := {
  ext_partial :
    prefix (table_rows (partial_table d)) (table_rows (partial_table d'));
  ext_invalid_partial :
    prefix (table_rows (invalid_partial_table d))
      (table_rows (invalid_partial_table d'));
  ext_launcher_ids : prefix (launcher_ids d) (launcher_ids d');
  ext_unique : NoDup (launcher_ids d) -> NoDup (launcher_ids d');
  ext_farmer_table : keeps_table (farmer_table d) (farmer_table d');
  ext_partial_table : keeps_table (partial_table d) (partial_table d');
  ext_invalid_partial_table :
    keeps_table (invalid_partial_table d) (invalid_partial_table d');
  ext_no_invalid_partial :
    invalid_partial_table d = None -> invalid_partial_table d' = None;
  ext_partial_arity :
    forall t, partial_table d = Some t ->
              List.length (columns t) <> 4%nat ->
              table_rows (partial_table d') = rows t
}.

(** Every run of [m] takes a database to one related to it by [R],
    whether it returns or raises. *)
Definition steps {A} (R : database -> database -> Prop) (m : Store A) : Prop :=
  forall c, R (db c) (db (snd (m c))).

Section Calls.

Context {G1Element CoinSpend PoolState : Type}.
Context {G1Element_bytes : Streamable G1Element}.
Context {CoinSpend_bytes : Streamable CoinSpend}.
Context {PoolState_bytes : Streamable PoolState}.

Variable encode_puzzle_hash : bytes -> string -> string.
Variable utc_offset : Z -> Z.

(** A call of a method of the class with its arguments; [now] is the time
    at which a query that reads the clock runs. *)
Inductive call :=
| call_connect
| call_add_farmer_record
    (farmer_record : FarmerRecord G1Element CoinSpend PoolState)
| call_get_farmer_record (launcher_id : bytes)
| call_get_farmer_record_for_all_farmers (now : Z)
| call_update_difficulty (launcher_id : bytes) (difficulty : Z)
| call_update_singleton (launcher_id : bytes) (singleton_tip : CoinSpend)
    (singleton_tip_state : PoolState) (is_pool_member : bool)
| call_get_pay_to_singleton_phs
| call_get_farmer_records_for_p2_singleton_phs (puzzle_hashes : list bytes)
| call_get_farmer_points_and_payout_instructions (now : Z)
| call_clear_farmer_points
| call_add_partial (launcher_id : bytes) (timestamp difficulty : Z)
    (harvester : bytes)
| call_store_invalid_partial (launcher_id : bytes) (timestamp difficulty : Z)
    (harvester : bytes) (reason : string)
| call_get_recent_partials (launcher_id : bytes) (count : Z)
| call_get_points_by_date (now : Z) (launcher_id : bytes) (count : Z)
| call_get_recent_partials_all_farmers (count : Z).

(** The connection after the call, whether it returned or raised. *)
Definition run_call (x : call) (c : connection) : connection :=
  match x with
  | call_connect => snd (connect c)
  | call_add_farmer_record F => snd (add_farmer_record F c)
  | call_get_farmer_record l =>
      snd (@get_farmer_record G1Element CoinSpend PoolState _ _ _ l c)
  | call_get_farmer_record_for_all_farmers now =>
      snd (get_farmer_record_for_all_farmers encode_puzzle_hash now c)
  | call_update_difficulty l d => snd (update_difficulty l d c)
  | call_update_singleton l t s m => snd (update_singleton l t s m c)
  | call_get_pay_to_singleton_phs => snd (get_pay_to_singleton_phs c)
  | call_get_farmer_records_for_p2_singleton_phs phs =>
      snd (@get_farmer_records_for_p2_singleton_phs G1Element CoinSpend
             PoolState _ _ _ phs c)
  | call_get_farmer_points_and_payout_instructions now =>
      snd (get_farmer_points_and_payout_instructions now c)
  | call_clear_farmer_points => snd (clear_farmer_points c)
  | call_add_partial l t d h => snd (add_partial l t d h c)
  | call_store_invalid_partial l t d h r =>
      snd (store_invalid_partial l t d h r c)
  | call_get_recent_partials l n => snd (get_recent_partials l n c)
  | call_get_points_by_date now l n =>
      snd (get_points_by_date utc_offset now l n c)
  | call_get_recent_partials_all_farmers n =>
      snd (get_recent_partials_all_farmers n c)
  end.

(** The calls of [xs] one after the other; a call that raises leaves the
    connection to the next one. *)
Fixpoint run_calls (xs : list call) (c : connection) : connection :=
  match xs with
  | [] => c
  | x :: xs' => run_calls xs' (run_call x c)
  end.

End Calls.

(** ** Sample records and stores *)

Definition bytes32_of (x : byte) : bytes := repeat x 32.

(** Two farmers with points 40 and 25 and the same payout instructions. *)
Definition farmer_A : FarmerRecord bytes bytes bytes :=
  {| launcher_id := bytes32_of x01;
     p2_singleton_puzzle_hash := bytes32_of x02;
     delay_time := 604800;
     delay_puzzle_hash := bytes32_of x03;
     authentication_public_key := [x04];
     singleton_tip := [x05];
     singleton_tip_state := [x06];
     points := 40;
     difficulty := 100;
     payout_instructions := hex (bytes32_of xaa);
     is_pool_member := true |}.

Definition farmer_B : FarmerRecord bytes bytes bytes :=
  {| launcher_id := bytes32_of x11;
     p2_singleton_puzzle_hash := bytes32_of x12;
     delay_time := 604800;
     delay_puzzle_hash := bytes32_of x13;
     authentication_public_key := [x14];
     singleton_tip := [x15];
     singleton_tip_state := [x16];
     points := 25;
     difficulty := 100;
     payout_instructions := hex (bytes32_of xaa);
     is_pool_member := true |}.

(** An empty store with the tables the statements of the class are written
    for: the ledgers carry the harvester column and invalid_partial exists. *)
Definition empty_store : database :=
  Database
    (Some (Table farmer.columns []))
    (Some (Table ["launcher_id"; "timestamp"; "difficulty"; "harvester"] []))
    (Some (Table ["launcher_id"; "timestamp"; "difficulty"; "harvester";
                  "reason"] [])).

(** Record [F] as it is registered before it has earned its points. *)
Definition with_points (p : Z) (F : FarmerRecord bytes bytes bytes)
  : FarmerRecord bytes bytes bytes :=
  {| launcher_id := launcher_id F;
     p2_singleton_puzzle_hash := p2_singleton_puzzle_hash F;
     delay_time := delay_time F;
     delay_puzzle_hash := delay_puzzle_hash F;
     authentication_public_key := authentication_public_key F;
     singleton_tip := singleton_tip F;
     singleton_tip_state := singleton_tip_state F;
     points := p;
     difficulty := difficulty F;
     payout_instructions := payout_instructions F;
     is_pool_member := is_pool_member F |}.

(** A store with both farmers registered; each has one partial. *)
Definition farmers_AB : table farmer.row :=
  Table farmer.columns [farmer_values farmer_A; farmer_values farmer_B].

Definition partials_AB : table partial.row :=
  Table ["launcher_id"; "timestamp"; "difficulty"; "harvester"]
    [partial.Row (hex (launcher_id farmer_A)) 5000 7 (hex [x21]);
     partial.Row (hex (launcher_id farmer_B)) 6000 3 (hex [x22])].

Definition store_AB : database :=
  Database (Some farmers_AB) (Some partials_AB)
    (Some (Table ["launcher_id"; "timestamp"; "difficulty"; "harvester";
                  "reason"] [])).

(** A store in which farmer A has partials in two different minutes. *)
Definition store_two_minutes : database :=
  Database (Some farmers_AB)
    (Some (Table ["launcher_id"; "timestamp"; "difficulty"; "harvester"]
       [partial.Row (hex (launcher_id farmer_A)) 5000 7 (hex [x21]);
        partial.Row (hex (launcher_id farmer_A)) 5100 3 (hex [x21])]))
    (Some (Table ["launcher_id"; "timestamp"; "difficulty"; "harvester";
                  "reason"] [])).

(** A store with farmer A registered and nothing in either ledger. *)
Definition store_A_idle : database :=
  Database (Some (Table farmer.columns [farmer_values farmer_A]))
    (Some (Table ["launcher_id"; "timestamp"; "difficulty"; "harvester"] []))
    (Some (Table ["launcher_id"; "timestamp"; "difficulty"; "harvester";
                  "reason"] [])).

(** A store in which farmer A has two partials and one invalid partial and
    farmer B has nothing. *)
Definition store_A_active : database :=
  Database (Some farmers_AB)
    (Some (Table ["launcher_id"; "timestamp"; "difficulty"; "harvester"]
       [partial.Row (hex (launcher_id farmer_A)) 5000 7 (hex [x21]);
        partial.Row (hex (launcher_id farmer_A)) 5100 3 (hex [x22])]))
    (Some (Table ["launcher_id"; "timestamp"; "difficulty"; "harvester";
                  "reason"]
       [invalid_partial.Row (hex (launcher_id farmer_A)) 4000 7 (hex [x21])
          "too late"])).

(** * Theorems *)

(** ** The hexadecimal encoding *)

Lemma fromhex_hex_byte (x : byte) (s : string) :
  fromhex (hex_byte x ++ s)%string =
  match fromhex s with Some b => Some (x :: b) | None => None end.
Proof. destruct x; reflexivity. Qed.

Lemma fromhex_hex (b : bytes) : fromhex (hex b) = Some b.
Proof.
  induction b as [|x b IH]; [reflexivity|].
  cbn [hex]. rewrite fromhex_hex_byte, IH. reflexivity.
Qed.

Lemma hex_inj (a b : bytes) : hex a = hex b -> a = b.
Proof.
  intros E. apply (f_equal fromhex) in E.
  rewrite !fromhex_hex in E. congruence.
Qed.

(** ** Running the store *)

Lemma bind_ok {A B} (m : Store A) (k : A -> Store B) c a c' :
  m c = (Ok a, c') -> bind m k c = k a c'.
Proof. unfold bind. intros ->. reflexivity. Qed.

Lemma execute_ok {A} (q : statement A) c a d :
  q (db c) = Ok (a, d) ->
  execute q c = (Ok a, Connection d (S (executed c))).
Proof. unfold execute. intros ->. reflexivity. Qed.

Lemma from_table_ok {R} (t : table R) needed :
  has_columns needed (columns t) = true ->
  from_table (Some t) needed = Ok t.
Proof. unfold from_table. intros ->. reflexivity. Qed.

(** ** Integers bound to a statement *)

Lemma sqlite_int_ok (z : Z) : - 2 ^ 63 <= z < 2 ^ 63 -> sqlite_int z = Ok z.
Proof.
  intros R. unfold sqlite_int, int64.
  destruct (- 2 ^ 63 <=? z) eqn:E1; [|lia].
  destruct (z <? 2 ^ 63) eqn:E2; [reflexivity | lia].
Qed.

Lemma sqlite_int_overflow (z : Z) :
  ~ - 2 ^ 63 <= z < 2 ^ 63 -> sqlite_int z = Raise OverflowError.
Proof.
  intros R. unfold sqlite_int, int64.
  destruct (- 2 ^ 63 <=? z) eqn:E1; [|reflexivity].
  destruct (z <? 2 ^ 63) eqn:E2; [lia | reflexivity].
Qed.

Lemma sqlite_int_cases (z : Z) :
  sqlite_int z = Ok z \/ sqlite_int z = Raise OverflowError.
Proof. unfold sqlite_int. destruct (int64 z); auto. Qed.

(** ** connect on a new database file *)

(** C2.  On a new, empty database file [connect] succeeds and leaves a
    [partial] table with the three columns launcher_id, timestamp and
    difficulty, and no [invalid_partial] table.  On that store every
    [add_partial] and every [store_invalid_partial] raises
    sqlite3.OperationalError and appends nothing. *)
Theorem connect_fresh_rejects_partials :
  let c := snd (connect (open empty_database)) in
  fst (connect (open empty_database)) = Ok tt /\
  option_map columns (partial_table (db c)) =
    Some ["launcher_id"; "timestamp"; "difficulty"] /\
  invalid_partial_table (db c) = None /\
  (forall launcher_id timestamp difficulty harvester,
      fst (add_partial launcher_id timestamp difficulty harvester c)
        = Raise OperationalError /\
      db (snd (add_partial launcher_id timestamp difficulty harvester c))
        = db c) /\
  (forall launcher_id timestamp difficulty harvester reason,
      fst (store_invalid_partial launcher_id timestamp difficulty harvester
             reason c) = Raise OperationalError /\
      db (snd (store_invalid_partial launcher_id timestamp difficulty
                 harvester reason c)) = db c).
Proof.
  cbv zeta. repeat split.
Qed.

(** On a store that has the tables the INSERT statements are written for,
    [add_partial] and [store_invalid_partial] append their row. *)
Example ledgers_take_rows_on_declared_tables :
  let c := snd ((add_partial (launcher_id farmer_A) 5000 7 [x21] ;;
                 store_invalid_partial (launcher_id farmer_A) 4000 7 [x21]
                   "too late") (open empty_store)) in
  table_rows (partial_table (db c))
    = [partial.Row (hex (launcher_id farmer_A)) 5000 7 (hex [x21])] /\
  table_rows (invalid_partial_table (db c))
    = [invalid_partial.Row (hex (launcher_id farmer_A)) 4000 7 (hex [x21])
         "too late"].
Proof. split; reflexivity. Qed.

(** The sample store with both farmers is reached from the empty store by
    the methods of the class: the farmers register with points 33 and 22
    and earn 7 and 3 with one partial each. *)
Example store_AB_reached :
  (add_farmer_record (with_points 33 farmer_A) ;;
   add_farmer_record (with_points 22 farmer_B) ;;
   add_partial (launcher_id farmer_A) 5000 7 [x21] ;;
   add_partial (launcher_id farmer_B) 6000 3 [x22]) (open empty_store)
  = (Ok tt, Connection store_AB 8).
Proof. reflexivity. Qed.

Section RegistryFacts.

Context {G1Element CoinSpend PoolState : Type}.
Context {G1Element_bytes : Streamable G1Element}.
Context {CoinSpend_bytes : Streamable CoinSpend}.
Context {PoolState_bytes : Streamable PoolState}.

Local Abbreviation FarmerRecord := (FarmerRecord G1Element CoinSpend PoolState).

(** ** A pool member with points and no partial *)

(** C10.  Open a new database file, register with [add_farmer_record] a
    farmer that is a pool member and has points above zero, and call
    [get_farmer_points_and_payout_instructions]: no list is returned.  When
    the integers of the record are within the signed 64-bit range that the
    INSERT accepts, the farmer is stored and has no row in the partial
    table, its join date is NULL and [uint64] raises TypeError; otherwise
    the INSERT itself raises OverflowError. *)
Theorem payout_shares_raise_without_partial (F : FarmerRecord) (now : Z) :
  is_pool_member F = true ->
  0 < points F ->
  let in_range :=
    - 2 ^ 63 <= delay_time F < 2 ^ 63 /\
    - 2 ^ 63 <= points F < 2 ^ 63 /\
    - 2 ^ 63 <= difficulty F < 2 ^ 63 in
  (in_range ->
   fst ((connect ;;
         add_farmer_record F ;;
         get_farmer_points_and_payout_instructions now) (open empty_database))
   = Raise TypeError) /\
  (~ in_range ->
   fst ((connect ;;
         add_farmer_record F ;;
         get_farmer_points_and_payout_instructions now) (open empty_database))
   = Raise OverflowError).
Proof.
  intros M P in_range. subst in_range.
  unfold bind, connect, add_farmer_record, commit, ret,
    get_farmer_points_and_payout_instructions, lift, execute;
    cbn -[sqlite_int insert_into_farmer].
  unfold bind, insert_into_farmer, insert_values.
  cbn [db farmer_table columns farmer.columns List.length Nat.eqb result_bind
       farmer_values farmer.delay_time farmer.points farmer.difficulty].
  split.
  - intros (T & Pr & D). rewrite !sqlite_int_ok by lia. cbn.
    rewrite M. cbn. rewrite String.eqb_refl. cbn.
    destruct (0 <? points F) eqn:E; [reflexivity | lia].
  - intros N.
    destruct (sqlite_int (delay_time F)) eqn:Et; cbn [result_bind];
      [|unfold sqlite_int in Et; destruct (int64 (delay_time F));
        [discriminate | injection Et as <-; reflexivity]].
    destruct (sqlite_int (points F)) eqn:Ep; cbn [result_bind];
      [|unfold sqlite_int in Ep; destruct (int64 (points F));
        [discriminate | injection Ep as <-; reflexivity]].
    destruct (sqlite_int (difficulty F)) eqn:Ed; cbn [result_bind];
      [|unfold sqlite_int in Ed; destruct (int64 (difficulty F));
        [discriminate | injection Ed as <-; reflexivity]].
    exfalso. apply N. unfold sqlite_int, int64 in Et, Ep, Ed.
    destruct (- 2 ^ 63 <=? delay_time F) eqn:E1; [|discriminate].
    destruct (delay_time F <? 2 ^ 63) eqn:E2; [|discriminate].
    destruct (- 2 ^ 63 <=? points F) eqn:E3; [|discriminate].
    destruct (points F <? 2 ^ 63) eqn:E4; [|discriminate].
    destruct (- 2 ^ 63 <=? difficulty F) eqn:E5; [|discriminate].
    destruct (difficulty F <? 2 ^ 63) eqn:E6; [|discriminate].
    lia.
Qed.

End RegistryFacts.

Lemma payout_shares_raise_without_partial_witness :
  fst ((connect ;;
        add_farmer_record farmer_A ;;
        get_farmer_points_and_payout_instructions 1000) (open empty_database))
  = Raise TypeError.
Proof.
  apply (payout_shares_raise_without_partial farmer_A 1000);
    [reflexivity | cbn; lia | cbn; lia].
Defined.

(** ** Lists *)

Lemma Forall2_map_right {A B} (P : A -> B -> Prop) (f : A -> B) (l : list A) :
  (forall a, In a l -> P a (f a)) -> Forall2 P l (map f l).
Proof.
  induction l as [|a l IH]; intros Hl; cbn; constructor.
  - apply Hl. now left.
  - apply IH. intros b Hb. apply Hl. now right.
Qed.

Lemma same_but_points_set_points p r : same_but_points r (set_points p r).
Proof. unfold same_but_points. cbn. intuition reflexivity. Qed.


(** ** clear_farmer_points *)

(** C7.  After [clear_farmer_points] every farmer row has points 0 and is
    otherwise the row it was (same rows, same order, every other field
    unchanged); the partial and invalid_partial tables are unchanged. *)
Theorem clear_farmer_points_frame (c : connection) (t : table farmer.row) :
  farmer_table (db c) = Some t ->
  has_columns ["points"] (columns t) = true ->
  exists t',
    fst (clear_farmer_points c) = Ok tt /\
    farmer_table (db (snd (clear_farmer_points c))) = Some t' /\
    columns t' = columns t /\
    Forall2 (fun r r' => farmer.points r' = 0 /\ same_but_points r r')
      (rows t) (rows t') /\
    partial_table (db (snd (clear_farmer_points c))) = partial_table (db c) /\
    invalid_partial_table (db (snd (clear_farmer_points c)))
      = invalid_partial_table (db c).
Proof.
  intros Ht Hc.
  exists (Table (columns t) (map (set_points 0) (rows t))).
  unfold clear_farmer_points, bind, commit, ret, execute,
    update_farmer_set_points_0.
  rewrite Ht, (from_table_ok _ _ Hc). cbn.
  repeat split.
  apply Forall2_map_right. intros r _. split; [reflexivity|].
  apply same_but_points_set_points.
Qed.

(** ** add_partial *)

Lemma add_partial_step (c : connection) tf tp launcher_id t d h :
  farmer_table (db c) = Some tf ->
  has_columns ["points"; "launcher_id"] (columns tf) = true ->
  partial_table (db c) = Some tp ->
  List.length (columns tp) = 4%nat ->
  - 2 ^ 63 <= t < 2 ^ 63 ->
  - 2 ^ 63 <= d < 2 ^ 63 ->
  add_partial launcher_id t d h c =
  (Ok tt,
   Connection
     (Database
        (Some (Table (columns tf)
           (update_where
              (fun r => String.eqb (farmer.launcher_id r) (hex launcher_id))
              (fun r => set_points (farmer.points r + d) r)
              (rows tf))))
        (Some (Table (columns tp)
           (rows tp ++ [partial.Row (hex launcher_id) t d (hex h)])))
        (invalid_partial_table (db c)))
     (S (S (executed c)))).
Proof.
  intros Hf Hc Hp Hn Rt Rd.
  unfold add_partial, bind, commit, ret, execute, insert_into_partial,
    insert_values, update_farmer_add_points.
  rewrite Hp, Hn.
  cbn [Nat.eqb result_bind partial.timestamp partial.difficulty].
  rewrite (sqlite_int_ok _ Rt), (sqlite_int_ok _ Rd).
  cbn [result_bind db set_partial_table farmer_table executed].
  rewrite Hf, (from_table_ok _ _ Hc). reflexivity.
Qed.



(** ** UPDATE ... WHERE on lists of rows *)

Lemma filter_nil_forall {A} (p : A -> bool) (l : list A) :
  filter p l = [] -> forall a, In a l -> p a = false.
Proof.
  intros E a Ha. destruct (p a) eqn:Pa; [|reflexivity].
  assert (In a (filter p l)) as I by (apply filter_In; auto).
  rewrite E in I. destruct I.
Qed.

Lemma update_where_none {R} (cond : R -> bool) set (l : list R) :
  filter cond l = [] -> update_where cond set l = l.
Proof.
  intros E. unfold update_where. rewrite <- (map_id l) at 2.
  apply map_ext_in. intros r Hr.
  rewrite (filter_nil_forall _ _ E r Hr). reflexivity.
Qed.

Lemma filter_update_where {R} (cond : R -> bool) set (l : list R) :
  (forall r, cond (set r) = cond r) ->
  filter cond (update_where cond set l) = map set (filter cond l).
Proof.
  intros K. induction l as [|r l IH]; [reflexivity|].
  cbn. destruct (cond r) eqn:E.
  - rewrite K, E. cbn. now rewrite <- IH.
  - rewrite E. exact IH.
Qed.

Lemma update_where_idem {R} (cond : R -> bool) set (l : list R) :
  (forall r, cond (set r) = cond r) ->
  (forall r, set (set r) = set r) ->
  update_where cond set (update_where cond set l) = update_where cond set l.
Proof.
  intros K I. unfold update_where. rewrite map_map. apply map_ext.
  intros r. destruct (cond r) eqn:E.
  - now rewrite K, E, I.
  - now rewrite E.
Qed.

Lemma existsb_filter_nil {A} (p : A -> bool) (l : list A) :
  filter p l = [] -> existsb p l = false.
Proof.
  intros E. induction l as [|a l IH]; [reflexivity|].
  cbn in *. destruct (p a); [discriminate|]. now apply IH.
Qed.

Lemma set_record_columns_self v : set_record_columns v v = v.
Proof. destruct v. reflexivity. Qed.

Lemma upsert_rows_idem v l : upsert_rows v (upsert_rows v l) = upsert_rows v l.
Proof.
  unfold upsert_rows at 2.
  destruct (filter _ l) as [|r0 sel] eqn:E.
  - unfold upsert_rows. rewrite filter_app, E. cbn.
    rewrite String.eqb_refl. cbn.
    unfold update_where. rewrite map_app. cbn.
    rewrite String.eqb_refl, set_record_columns_self.
    f_equal. apply (update_where_none _ _ _ E).
  - unfold upsert_rows. rewrite filter_update_where by reflexivity.
    rewrite E. cbn. apply update_where_idem; reflexivity.
Qed.

(** The first row that [SELECT * from farmer where launcher_id=?] finds
    after the values [v] were written. *)
Lemma upsert_rows_select v l :
  exists r,
    hd_error
      (filter (fun r => String.eqb (farmer.launcher_id r) (farmer.launcher_id v))
         (upsert_rows v l)) = Some (set_record_columns v r) /\
    farmer.launcher_id r = farmer.launcher_id v /\
    (filter (fun r => String.eqb (farmer.launcher_id r) (farmer.launcher_id v)) l
       = [] -> r = v).
Proof.
  unfold upsert_rows.
  destruct (filter _ l) as [|r0 sel] eqn:E.
  - exists v. rewrite filter_app, E. cbn. rewrite String.eqb_refl. cbn.
    rewrite set_record_columns_self. auto.
  - exists r0. rewrite filter_update_where by reflexivity. rewrite E. cbn.
    split; [reflexivity|]. split; [|discriminate].
    assert (In r0 (filter
      (fun r => String.eqb (farmer.launcher_id r) (farmer.launcher_id v)) l))
      as I by (rewrite E; now left).
    apply filter_In in I. now apply String.eqb_eq.
Qed.

Lemma select_farmer_where_launcher_id_ok d tf launcher_id :
  farmer_table d = Some tf ->
  columns tf = farmer.columns ->
  select_farmer_where_launcher_id launcher_id d =
  Ok (filter (fun r => String.eqb (farmer.launcher_id r) launcher_id) (rows tf),
      d).
Proof.
  intros Hf Hc. unfold select_farmer_where_launcher_id, from_table.
  rewrite Hf, Hc. reflexivity.
Qed.

Section UpsertFacts.

Context {G1Element CoinSpend PoolState : Type}.
Context {G1Element_bytes : Streamable G1Element}.
Context {CoinSpend_bytes : Streamable CoinSpend}.
Context {PoolState_bytes : Streamable PoolState}.

Lemma row_to_farmer_record_values
  (F : FarmerRecord G1Element CoinSpend PoolState) :
  _row_to_farmer_record (farmer_values F) = Ok F.
Proof.
  unfold _row_to_farmer_record, farmer_values. cbn.
  rewrite !fromhex_hex. cbn.
  rewrite !from_to_bytes. cbn.
  destruct F as [? ? ? ? ? ? ? ? ? ? m]. cbn. destruct m; reflexivity.
Qed.

(** The store after [add_farmer_record], in closed form: the UPDATE binds
    delay_time, the INSERT binds points and difficulty as well. *)
Lemma add_farmer_record_run (c : connection) tf
  (F : FarmerRecord G1Element CoinSpend PoolState) :
  farmer_table (db c) = Some tf ->
  columns tf = farmer.columns ->
  - 2 ^ 63 <= delay_time F < 2 ^ 63 ->
  ((forall r, In r (rows tf) -> farmer.launcher_id r <> hex (launcher_id F)) ->
   - 2 ^ 63 <= points F < 2 ^ 63 /\ - 2 ^ 63 <= difficulty F < 2 ^ 63) ->
  add_farmer_record F c =
  (Ok tt,
   Connection
     (set_farmer_table (db c)
        (Table (columns tf) (upsert_rows (farmer_values F) (rows tf))))
     (S (S (executed c)))).
Proof.
  intros Hf Hc Rt Rpd.
  unfold add_farmer_record, bind, commit, ret, execute,
    select_farmer_where_launcher_id.
  rewrite Hf. unfold from_table at 1. rewrite Hc. cbn [has_columns forallb
    existsb farmer.columns String.eqb Ascii.eqb Bool.eqb orb andb result_bind].
  unfold fetchone, upsert_rows. cbn [db executed farmer_values farmer.launcher_id].
  destruct (filter _ (rows tf)) as [|r0 sel] eqn:E; cbn [hd_error].
  - destruct Rpd as [Rp Rd].
    { intros r I L. apply (filter_nil_forall _ _ E) in I. cbn in I.
      rewrite L, String.eqb_refl in I. discriminate. }
    unfold insert_into_farmer, insert_values. cbn [db executed].
    rewrite Hf, Hc.
    cbn [farmer.columns List.length Nat.eqb result_bind farmer.delay_time
         farmer.points farmer.difficulty farmer_values].
    rewrite (sqlite_int_ok _ Rt), (sqlite_int_ok _ Rp), (sqlite_int_ok _ Rd).
    cbn [result_bind farmer.launcher_id table_rows farmer_values].
    rewrite (existsb_filter_nil _ _ E). reflexivity.
  - unfold update_farmer_record. cbn [db executed].
    rewrite Hf. unfold from_table. rewrite Hc.
    cbn [has_columns forallb existsb farmer.columns String.eqb Ascii.eqb
         Bool.eqb orb andb result_bind farmer.delay_time farmer_values].
    rewrite (sqlite_int_ok _ Rt). cbn. rewrite Hc. reflexivity.
Qed.

(** Whatever the record carries, [add_farmer_record] on the farmer table
    either writes the record or raises OverflowError and writes nothing. *)
Lemma add_farmer_record_cases (c : connection) tf
  (F : FarmerRecord G1Element CoinSpend PoolState) :
  farmer_table (db c) = Some tf ->
  columns tf = farmer.columns ->
  add_farmer_record F c =
    (Ok tt,
     Connection
       (set_farmer_table (db c)
          (Table (columns tf) (upsert_rows (farmer_values F) (rows tf))))
       (S (S (executed c)))) \/
  add_farmer_record F c =
    (Raise OverflowError, Connection (db c) (S (S (executed c)))).
Proof.
  intros Hf Hc.
  destruct (add_farmer_record F c) as [res c'] eqn:Run. revert Run.
  unfold add_farmer_record, bind, commit, ret, execute,
    select_farmer_where_launcher_id.
  rewrite Hf. unfold from_table at 1. rewrite Hc. cbn [has_columns forallb
    existsb farmer.columns String.eqb Ascii.eqb Bool.eqb orb andb result_bind].
  unfold fetchone, upsert_rows. cbn [db executed farmer_values farmer.launcher_id].
  destruct (filter _ (rows tf)) as [|r0 sel] eqn:E; cbn [hd_error].
  - unfold insert_into_farmer, insert_values. cbn [db executed].
    rewrite Hf, Hc.
    cbn [farmer.columns List.length Nat.eqb result_bind farmer.delay_time
         farmer.points farmer.difficulty farmer_values].
    destruct (sqlite_int_cases (delay_time F)) as [-> | ->];
      cbn [result_bind]; [|intros [= <- <-]; now right].
    destruct (sqlite_int_cases (points F)) as [-> | ->];
      cbn [result_bind]; [|intros [= <- <-]; now right].
    destruct (sqlite_int_cases (difficulty F)) as [-> | ->];
      cbn [result_bind]; [|intros [= <- <-]; now right].
    cbn [farmer.launcher_id table_rows farmer_values].
    rewrite (existsb_filter_nil _ _ E). intros [= <- <-]. now left.
  - unfold update_farmer_record. cbn [db executed].
    rewrite Hf. unfold from_table. rewrite Hc.
    cbn [has_columns forallb existsb farmer.columns String.eqb Ascii.eqb
         Bool.eqb orb andb result_bind farmer.delay_time farmer_values].
    destruct (sqlite_int_cases (delay_time F)) as [-> | ->];
      cbn [result_bind]; [|intros [= <- <-]; now right].
    cbn. rewrite Hc. intros [= <- <-]. now left.
Qed.

(** The UPDATE of [add_farmer_record] refuses a delay_time outside the
    signed 64-bit range. *)
Lemma add_farmer_record_update_overflow (c : connection) tf
  (F : FarmerRecord G1Element CoinSpend PoolState) :
  farmer_table (db c) = Some tf ->
  columns tf = farmer.columns ->
  (exists r, In r (rows tf) /\ farmer.launcher_id r = hex (launcher_id F)) ->
  ~ - 2 ^ 63 <= delay_time F < 2 ^ 63 ->
  add_farmer_record F c =
    (Raise OverflowError, Connection (db c) (S (S (executed c)))).
Proof.
  intros Hf Hc (r1 & In1 & L1) Rt.
  unfold add_farmer_record, bind, commit, ret, execute,
    select_farmer_where_launcher_id.
  rewrite Hf. unfold from_table at 1. rewrite Hc. cbn [has_columns forallb
    existsb farmer.columns String.eqb Ascii.eqb Bool.eqb orb andb result_bind].
  unfold fetchone. cbn [db executed farmer_values farmer.launcher_id].
  destruct (filter _ (rows tf)) as [|r0 sel] eqn:E; cbn [hd_error].
  - apply (filter_nil_forall _ _ E) in In1. cbn in In1.
    rewrite L1, String.eqb_refl in In1. discriminate.
  - unfold update_farmer_record. cbn [db executed].
    rewrite Hf. unfold from_table. rewrite Hc.
    cbn [has_columns forallb existsb farmer.columns String.eqb Ascii.eqb
         Bool.eqb orb andb result_bind farmer.delay_time farmer_values].
    rewrite (sqlite_int_overflow _ Rt). reflexivity.
Qed.

End UpsertFacts.

Section UpsertTheorems.

Context {G1Element CoinSpend PoolState : Type}.
Context {G1Element_bytes : Streamable G1Element}.
Context {CoinSpend_bytes : Streamable CoinSpend}.
Context {PoolState_bytes : Streamable PoolState}.

Lemma row_to_farmer_record_updated
  (F : FarmerRecord G1Element CoinSpend PoolState) (r : farmer.row) :
  farmer.launcher_id r = hex (launcher_id F) ->
  _row_to_farmer_record (set_record_columns (farmer_values F) r) =
  Ok {| launcher_id := launcher_id F;
        p2_singleton_puzzle_hash := p2_singleton_puzzle_hash F;
        delay_time := delay_time F;
        delay_puzzle_hash := delay_puzzle_hash F;
        authentication_public_key := authentication_public_key F;
        singleton_tip := singleton_tip F;
        singleton_tip_state := singleton_tip_state F;
        points := farmer.points r;
        difficulty := farmer.difficulty r;
        payout_instructions := payout_instructions F;
        is_pool_member := is_pool_member F |}.
Proof.
  intros L.
  unfold _row_to_farmer_record, set_record_columns, farmer_values. cbn.
  rewrite L, !fromhex_hex. cbn.
  rewrite !from_to_bytes. cbn.
  destruct (is_pool_member F); reflexivity.
Qed.

(** C6.  When a farmer row with the launcher id of the record exists,
    [add_farmer_record] leaves every farmer row with its launcher id, its
    points and its difficulty, whatever the record carries for them; every
    row with another launcher id is unchanged, and so are the ledgers.  The
    call returns when the delay_time of the record fits the signed 64-bit
    range that the UPDATE can bind, and then the rows with that launcher id
    carry the eight other columns of the record; otherwise it raises
    OverflowError and the database is as it was. *)
Theorem add_farmer_record_update_frame (c : connection) tf
  (F : FarmerRecord G1Element CoinSpend PoolState) :
  farmer_table (db c) = Some tf ->
  columns tf = farmer.columns ->
  (exists r, In r (rows tf) /\ farmer.launcher_id r = hex (launcher_id F)) ->
  exists tf',
    (- 2 ^ 63 <= delay_time F < 2 ^ 63 ->
     fst (add_farmer_record F c) = Ok tt) /\
    (~ - 2 ^ 63 <= delay_time F < 2 ^ 63 ->
     fst (add_farmer_record F c) = Raise OverflowError /\
     db (snd (add_farmer_record F c)) = db c) /\
    farmer_table (db (snd (add_farmer_record F c))) = Some tf' /\
    Forall2
      (fun r r' =>
         farmer.launcher_id r' = farmer.launcher_id r /\
         farmer.points r' = farmer.points r /\
         farmer.difficulty r' = farmer.difficulty r /\
         if String.eqb (farmer.launcher_id r) (hex (launcher_id F))
         then fst (add_farmer_record F c) = Ok tt ->
              record_columns_from (farmer_values F) r'
         else r' = r)
      (rows tf) (rows tf') /\
    partial_table (db (snd (add_farmer_record F c))) = partial_table (db c) /\
    invalid_partial_table (db (snd (add_farmer_record F c)))
      = invalid_partial_table (db c).
Proof.
  intros Hf Hc Ex.
  assert (Decidable.decidable (- 2 ^ 63 <= delay_time F < 2 ^ 63)) as [Rt | Rt].
  { unfold Decidable.decidable. lia. }
  - assert (add_farmer_record F c =
            (Ok tt,
             Connection
               (set_farmer_table (db c)
                  (Table (columns tf)
                     (upsert_rows (farmer_values F) (rows tf))))
               (S (S (executed c))))) as Run.
    { apply (add_farmer_record_run c tf F Hf Hc Rt).
      intros No. destruct Ex as (r0 & In0 & L0). destruct (No r0 In0 L0). }
    rewrite Run. cbn [fst snd db].
    eexists. split; [reflexivity|]. split; [intros N; contradiction|].
    split; [reflexivity|]. split; [|split; reflexivity]. cbn [rows].
    destruct Ex as (r0 & In0 & L0).
    unfold upsert_rows.
    destruct (filter _ (rows tf)) as [|r1 sel] eqn:E.
    + apply (filter_nil_forall _ _ E) in In0. cbn in In0.
      rewrite L0, String.eqb_refl in In0. discriminate.
    + apply Forall2_map_right. intros r _.
      cbn [farmer_values farmer.launcher_id].
      destruct (String.eqb (farmer.launcher_id r) (hex (launcher_id F))).
      * cbn. unfold record_columns_from. cbn. intuition reflexivity.
      * auto.
  - rewrite (add_farmer_record_update_overflow c tf F Hf Hc Ex Rt).
    cbn [fst snd db].
    exists tf. split; [intros R; contradiction|]. split; [auto|].
    split; [exact Hf|]. split; [|split; reflexivity].
    rewrite <- (map_id (rows tf)) at 2.
    apply Forall2_map_right. intros r _.
    destruct (String.eqb (farmer.launcher_id r) (hex (launcher_id F)));
      [|auto].
    split; [reflexivity|]. split; [reflexivity|]. split; [reflexivity|].
    discriminate.
Qed.

(** C5, as the code has it.  For a record [F] whose delay_time fits the
    signed 64-bit range of an SQLite INTEGER and, when no row has the
    launcher id of [F], whose points and difficulty fit it too: after
    [add_farmer_record(F)], [get_farmer_record(F.launcher_id)] returns a
    record with the launcher id of [F] and with the eight updatable fields
    of [F]; it is [F] itself when no row had that launcher id before.  A
    second [add_farmer_record(F)] succeeds and leaves the database as the
    first one left it.  Both hold whether the first call inserts or
    updates. *)
Theorem add_farmer_record_then_get (c : connection) tf
  (F : FarmerRecord G1Element CoinSpend PoolState) :
  farmer_table (db c) = Some tf ->
  columns tf = farmer.columns ->
  - 2 ^ 63 <= delay_time F < 2 ^ 63 ->
  ((forall r, In r (rows tf) -> farmer.launcher_id r <> hex (launcher_id F)) ->
   - 2 ^ 63 <= points F < 2 ^ 63 /\ - 2 ^ 63 <= difficulty F < 2 ^ 63) ->
  (exists G,
      fst ((add_farmer_record F ;; get_farmer_record (launcher_id F)) c)
        = Ok (Some G) /\
      launcher_id G = launcher_id F /\
      mutable_fields_equal F G /\
      ((forall r, In r (rows tf) ->
                  farmer.launcher_id r <> hex (launcher_id F)) -> G = F)) /\
  fst ((add_farmer_record F ;; add_farmer_record F) c) = Ok tt /\
  db (snd ((add_farmer_record F ;; add_farmer_record F) c))
    = db (snd (add_farmer_record F c)).
Proof.
  intros Hf Hc Rt Rpd.
  pose proof (add_farmer_record_run c tf F Hf Hc Rt Rpd) as Run.
  split.
  - rewrite (bind_ok _ _ _ _ _ Run).
    destruct (upsert_rows_select (farmer_values F) (rows tf))
      as (r & Hd & L & Fresh).
    cbn [farmer_values farmer.launcher_id] in Hd, L, Fresh.
    eexists. split; [|split; [|split]].
    + unfold get_farmer_record.
      erewrite bind_ok;
        [| apply execute_ok, select_farmer_where_launcher_id_ok;
           [reflexivity | exact Hc] ].
      cbn [rows]. unfold fetchone. rewrite Hd. unfold lift.
      rewrite (row_to_farmer_record_updated F r L). reflexivity.
    + reflexivity.
    + unfold mutable_fields_equal. cbn. intuition reflexivity.
    + intros No. rewrite Fresh.
      * destruct F; reflexivity.
      * destruct (filter _ (rows tf)) as [|r1 sel] eqn:E; [reflexivity|].
        assert (In r1 (filter
          (fun r => String.eqb (farmer.launcher_id r) (hex (launcher_id F)))
          (rows tf))) as I by (rewrite E; now left).
        apply filter_In in I. destruct I as [I1 I2].
        apply String.eqb_eq in I2. destruct (No r1 I1 I2).
  - rewrite (bind_ok _ _ _ _ _ Run), Run. cbn [fst snd db].
    assert ((forall r,
               In r (upsert_rows (farmer_values F) (rows tf)) ->
               farmer.launcher_id r <> hex (launcher_id F)) ->
            - 2 ^ 63 <= points F < 2 ^ 63 /\
            - 2 ^ 63 <= difficulty F < 2 ^ 63) as Again.
    { intros No. exfalso.
      destruct (upsert_rows_select (farmer_values F) (rows tf))
        as (r & Hd & L & _).
      destruct (filter _ (upsert_rows (farmer_values F) (rows tf)))
        as [|r1 sel] eqn:E; [discriminate|].
      assert (In r1 (filter
        (fun r => String.eqb (farmer.launcher_id r)
                    (farmer.launcher_id (farmer_values F)))
        (upsert_rows (farmer_values F) (rows tf)))) as I
        by (rewrite E; now left).
      apply filter_In in I. destruct I as [I1 I2].
      apply String.eqb_eq in I2. exact (No r1 I1 I2). }
    rewrite (add_farmer_record_run
               (Connection
                  (set_farmer_table (db c)
                     (Table (columns tf)
                        (upsert_rows (farmer_values F) (rows tf))))
                  (S (S (executed c))))
               (Table (columns tf) (upsert_rows (farmer_values F) (rows tf)))
               F eq_refl Hc Rt Again).
    cbn. rewrite upsert_rows_idem. split; reflexivity.
Qed.

End UpsertTheorems.

(** ** add_partial on the store that connect creates *)

Section LedgerAfterConnect.

Context {G1Element CoinSpend PoolState : Type}.
Context {G1Element_bytes : Streamable G1Element}.
Context {CoinSpend_bytes : Streamable CoinSpend}.
Context {PoolState_bytes : Streamable PoolState}.

(** C3.  Open a new database file with [connect] and register a farmer
    with [add_farmer_record], its integers within the signed 64-bit range
    that the INSERT accepts: [get_farmer_record] returns the record, with
    its points p.  Every [add_partial] for that farmer then raises
    sqlite3.OperationalError, appends no partial row and leaves the
    database as it was, so [get_farmer_record] still returns the record
    with points p and not p + d. *)
Theorem add_partial_after_connect_credits_nothing
  (F : FarmerRecord G1Element CoinSpend PoolState) (t d : Z) (h : bytes) :
  - 2 ^ 63 <= delay_time F < 2 ^ 63 ->
  - 2 ^ 63 <= points F < 2 ^ 63 ->
  - 2 ^ 63 <= difficulty F < 2 ^ 63 ->
  let c := snd ((connect ;; add_farmer_record F) (open empty_database)) in
  fst ((connect ;; add_farmer_record F) (open empty_database)) = Ok tt /\
  fst (get_farmer_record (launcher_id F) c) = Ok (Some F) /\
  fst (add_partial (launcher_id F) t d h c) = Raise OperationalError /\
  db (snd (add_partial (launcher_id F) t d h c)) = db c /\
  table_rows (partial_table (db (snd (add_partial (launcher_id F) t d h c))))
    = [] /\
  fst (get_farmer_record (launcher_id F)
         (snd (add_partial (launcher_id F) t d h c))) = Ok (Some F).
Proof.
  intros Rt Rp Rd.
  assert (connect (open empty_database) =
          (Ok tt,
           Connection
             (Database (Some (Table farmer.columns []))
                (Some (Table partial.columns [])) None) 7)) as Con
    by reflexivity.
  pose proof (add_farmer_record_run
                (Connection
                   (Database (Some (Table farmer.columns []))
                      (Some (Table partial.columns [])) None) 7)
                (Table farmer.columns []) F eq_refl eq_refl Rt
                (fun _ => conj Rp Rd)) as Run.
  unfold set_farmer_table in Run.
  cbn [rows columns db executed partial_table invalid_partial_table] in Run.
  assert (upsert_rows (farmer_values F) [] = [farmer_values F]) as Up
    by reflexivity.
  rewrite Up in Run.
  rewrite (bind_ok _ _ _ _ _ Con), Run. cbn [fst snd].
  assert (forall n,
            fst (get_farmer_record (launcher_id F)
                   (Connection
                      (Database
                         (Some (Table farmer.columns [farmer_values F]))
                         (Some (Table partial.columns [])) None) n))
            = Ok (Some F)) as Get.
  { intros n. unfold get_farmer_record.
    erewrite bind_ok;
      [| apply execute_ok, select_farmer_where_launcher_id_ok; reflexivity ].
    cbn [rows filter farmer_values farmer.launcher_id].
    rewrite String.eqb_refl. cbn [fetchone hd_error]. unfold lift.
    rewrite row_to_farmer_record_values. reflexivity. }
  split; [reflexivity|]. split; [apply Get|].
  assert (add_partial (launcher_id F) t d h
            (Connection
               (Database (Some (Table farmer.columns [farmer_values F]))
                  (Some (Table partial.columns [])) None) 9)
          = (Raise OperationalError,
             Connection
               (Database (Some (Table farmer.columns [farmer_values F]))
                  (Some (Table partial.columns [])) None) 10)) as Add
    by reflexivity.
  rewrite Add. cbn [fst snd db].
  split; [reflexivity|]. split; [reflexivity|]. split; [reflexivity|].
  apply Get.
Qed.

End LedgerAfterConnect.

Lemma add_partial_after_connect_credits_nothing_witness :
  fst (add_partial (launcher_id farmer_A) 5000 7 [x21]
         (snd ((connect ;; add_farmer_record farmer_A) (open empty_database))))
  = Raise OperationalError.
Proof.
  destruct (add_partial_after_connect_credits_nothing farmer_A 5000 7 [x21])
    as (_ & _ & H & _); [cbn; lia | cbn; lia | cbn; lia |].
  exact H.
Defined.

(** C5, as stated, fails: a record whose points do not fit a signed 64-bit
    integer, here 2^63, is refused by the INSERT with OverflowError, nothing
    is stored and the lookup that follows finds no record. *)
Lemma add_farmer_record_refuses_large_points :
  let F := with_points (2 ^ 63) farmer_A in
  add_farmer_record F (open empty_store)
    = (Raise OverflowError, Connection empty_store 2) /\
  fst (get_farmer_record (launcher_id F)
         (snd (add_farmer_record F (open empty_store)))) = Ok None.
Proof. split; reflexivity. Qed.

(** ** Equality of byte strings *)

Lemma bytes_eqb_eq (a b : bytes) : bytes_eqb a b = true <-> a = b.
Proof.
  revert b. induction a as [|x a IH]; intros [|y b]; cbn;
    try (split; [discriminate | congruence]); [tauto|].
  rewrite andb_true_iff, IH. split.
  - intros [E ->]. apply Byte.byte_dec_bl in E. now subst.
  - intros E. injection E as -> ->. split; [|reflexivity].
    now apply Byte.byte_dec_lb.
Qed.

Lemma bytes_eqb_refl (a : bytes) : bytes_eqb a a = true.
Proof. now apply bytes_eqb_eq. Qed.

Lemma hex_eqb (a b : bytes) : String.eqb (hex a) (hex b) = bytes_eqb a b.
Proof.
  destruct (bytes_eqb a b) eqn:E.
  - apply bytes_eqb_eq in E. subst. apply String.eqb_refl.
  - apply String.eqb_neq. intros H. apply hex_inj in H.
    apply bytes_eqb_eq in H. congruence.
Qed.

Lemma existsb_hex (x : bytes) (l : list bytes) :
  existsb (String.eqb (hex x)) (map hex l) = existsb (bytes_eqb x) l.
Proof.
  induction l as [|y l IH]; [reflexivity|].
  cbn. now rewrite hex_eqb, IH.
Qed.

Lemma filter_map_swap {A B} (f : A -> B) (p : B -> bool) (l : list A) :
  filter p (map f l) = map f (filter (fun a => p (f a)) l).
Proof.
  induction l as [|a l IH]; [reflexivity|].
  cbn. destruct (p (f a)); cbn; now rewrite IH.
Qed.

Lemma result_map_ok {A B} (f : A -> result B) (g : B -> A) (l : list B) :
  (forall b, f (g b) = Ok b) -> result_map f (map g l) = Ok l.
Proof.
  intros K. induction l as [|b l IH]; [reflexivity|].
  cbn. now rewrite K, IH.
Qed.

Section LookupTheorems.

Context {G1Element CoinSpend PoolState : Type}.
Context {G1Element_bytes : Streamable G1Element}.
Context {CoinSpend_bytes : Streamable CoinSpend}.
Context {PoolState_bytes : Streamable PoolState}.

(** C8.  [get_farmer_records_for_p2_singleton_phs] on the empty set returns
    the empty list and leaves the connection as it was, so no statement was
    executed, whatever the database holds.  On a non-empty set of at most
    999 hashes (the engine's smallest default limit on the parameters of a
    statement), with the farmer table holding the rows of the records
    [Fs], it executes one statement, leaves the database as it was and
    returns, in some order, exactly the records of [Fs] whose
    p2_singleton_puzzle_hash is in the set. *)
Theorem get_farmer_records_for_p2_singleton_phs_spec :
  (forall c : connection,
      @get_farmer_records_for_p2_singleton_phs G1Element CoinSpend PoolState
        _ _ _ [] c = (Ok [], c)) /\
  (forall (c : connection) tf
          (Fs : list (FarmerRecord G1Element CoinSpend PoolState))
          (puzzle_hashes : list bytes),
      puzzle_hashes <> [] ->
      (List.length puzzle_hashes <= 999)%nat ->
      farmer_table (db c) = Some tf ->
      has_columns ["p2_singleton_puzzle_hash"] (columns tf) = true ->
      rows tf = map farmer_values Fs ->
      exists l,
        fst (get_farmer_records_for_p2_singleton_phs puzzle_hashes c) = Ok l /\
        snd (@get_farmer_records_for_p2_singleton_phs G1Element CoinSpend
               PoolState _ _ _ puzzle_hashes c)
          = Connection (db c) (S (executed c)) /\
        Permutation l
          (filter
             (fun F => existsb (bytes_eqb (p2_singleton_puzzle_hash F))
                         puzzle_hashes) Fs) /\
        (forall F, In F l <->
                   In F Fs /\ In (p2_singleton_puzzle_hash F) puzzle_hashes)).
Proof.
  split; [reflexivity|].
  intros c tf Fs phs Hne _ Hf Hc Hr.
  assert (get_farmer_records_for_p2_singleton_phs phs c =
          (Ok (filter
                 (fun F => existsb (bytes_eqb (p2_singleton_puzzle_hash F))
                             phs) Fs),
           Connection (db c) (S (executed c)))) as Run.
  { unfold get_farmer_records_for_p2_singleton_phs.
    destruct phs as [|ph phs]; [congruence|]. cbn [List.length Nat.eqb].
    erewrite bind_ok.
    2:{ apply execute_ok.
        unfold select_farmer_where_p2_singleton_puzzle_hash_in.
        rewrite Hf, (from_table_ok _ _ Hc). cbn [result_bind]. reflexivity. }
    unfold lift. rewrite Hr, filter_map_swap.
    rewrite (result_map_ok _ _ _ row_to_farmer_record_values).
    cbn [farmer_values farmer.p2_singleton_puzzle_hash].
    do 2 f_equal. apply filter_ext. intros F. apply existsb_hex. }
  rewrite Run. cbn [fst snd].
  eexists. split; [reflexivity|]. split; [reflexivity|].
  split; [reflexivity|].
  intros F. rewrite filter_In, existsb_exists. split.
  - intros [I (y & Iy & E)]. apply bytes_eqb_eq in E. subst. auto.
  - intros [I J]. split; [exact I|]. eexists. split; [exact J|].
    apply bytes_eqb_refl.
Qed.

End LookupTheorems.

(** ** The theorems at the sample store *)

Lemma clear_farmer_points_frame_witness :
  fst (clear_farmer_points (open store_AB)) = Ok tt.
Proof.
  destruct (clear_farmer_points_frame (open store_AB) farmers_AB
              eq_refl eq_refl) as (t' & H & _).
  exact H.
Defined.


Lemma add_farmer_record_update_frame_witness :
  fst (add_farmer_record farmer_A (open store_AB)) = Ok tt.
Proof.
  destruct (add_farmer_record_update_frame (open store_AB) farmers_AB farmer_A
              eq_refl eq_refl
              (ex_intro _ (farmer_values farmer_A)
                 (conj (or_introl eq_refl) eq_refl))) as (tf' & H & _).
  apply H. cbn. lia.
Defined.

Lemma add_farmer_record_then_get_witness :
  fst ((add_farmer_record farmer_A ;; add_farmer_record farmer_A)
         (open store_AB)) = Ok tt.
Proof.
  destruct (add_farmer_record_then_get (open store_AB) farmers_AB farmer_A
              eq_refl eq_refl) as (_ & H & _).
  - cbn. lia.
  - intros _. cbn. lia.
  - exact H.
Defined.

Lemma get_farmer_records_for_p2_singleton_phs_spec_witness :
  exists l,
    fst (get_farmer_records_for_p2_singleton_phs
           [p2_singleton_puzzle_hash farmer_A] (open store_AB)) = Ok l /\
    Permutation l [farmer_A].
Proof.
  destruct (proj2 get_farmer_records_for_p2_singleton_phs_spec
              (open store_AB) farmers_AB [farmer_A; farmer_B]
              [p2_singleton_puzzle_hash farmer_A]
              ltac:(discriminate) ltac:(cbn; lia) eq_refl eq_refl eq_refl)
    as (l & Hrun & _ & Hl & _).
  exists l. split; [exact Hrun | exact Hl].
Defined.

(** ** GROUP BY *)

Section GroupBy.

Context {A K : Type} (eqb : K -> K -> bool) (key : A -> K).
Hypothesis eqb_spec : forall x y, eqb x y = true <-> x = y.

Lemma first_occurrences_In seen l a :
  In a (first_occurrences eqb key seen l) ->
  In a l /\ existsb (eqb (key a)) seen = false.
Proof.
  revert seen. induction l as [|b l IH]; intros seen; cbn; [tauto|].
  destruct (existsb (eqb (key b)) seen) eqn:E.
  - intros I. destruct (IH _ I). auto.
  - intros [<- | I]; [auto|].
    destruct (IH _ I) as [I1 I2]. cbn in I2.
    apply orb_false_iff in I2. tauto.
Qed.

Lemma first_occurrences_NoDup seen l :
  NoDup (map key (first_occurrences eqb key seen l)).
Proof.
  revert seen. induction l as [|b l IH]; intros seen; cbn; [constructor|].
  destruct (existsb (eqb (key b)) seen); [apply IH|].
  cbn. constructor; [|apply IH].
  rewrite in_map_iff. intros (a & Ka & Ia).
  apply first_occurrences_In in Ia. destruct Ia as [_ Ia]. cbn in Ia.
  apply orb_false_iff in Ia. destruct Ia as [Ia _].
  rewrite Ka in Ia. rewrite (proj2 (eqb_spec _ _) eq_refl) in Ia.
  discriminate.
Qed.

End GroupBy.

(** ** Sums *)

Lemma int64_true (z : Z) : - 2 ^ 63 <= z < 2 ^ 63 -> int64 z = true.
Proof.
  intros R. unfold int64.
  destruct (- 2 ^ 63 <=? z) eqn:E1; [|lia].
  destruct (z <? 2 ^ 63) eqn:E2; [reflexivity | lia].
Qed.

Lemma Zsum_nonneg (l : list Z) : Forall (fun x => 0 <= x) l -> 0 <= Zsum l.
Proof. induction 1 as [|x l Hx _ IH]; cbn; lia. Qed.

(** A sum of non-negative integers that stays below 2^63 does not
    overflow. *)
Lemma sum_step_ok (l : list Z) :
  forall a,
  - 2 ^ 63 <= a ->
  Forall (fun x => 0 <= x) l ->
  a + Zsum l < 2 ^ 63 ->
  sum_step (Some a) (map Some l) = Ok (Some (a + Zsum l)).
Proof.
  induction l as [|x l IH]; intros a Ra Nn S.
  - cbn. do 2 f_equal. lia.
  - inversion Nn as [|? ? Hx Nl]; subst. cbn [map sum_step Zsum] in *.
    pose proof (Zsum_nonneg l Nl).
    rewrite int64_true by lia.
    rewrite IH by (try assumption; lia). do 2 f_equal. lia.
Qed.

Lemma sql_sum_Some (l : list Z) :
  l <> [] ->
  Forall (fun x => 0 <= x) l ->
  Zsum l < 2 ^ 63 ->
  sql_sum (map Some l) = Ok (Some (Zsum l)).
Proof.
  destruct l as [|x l]; [congruence|]. intros _ Nn S.
  inversion Nn as [|? ? Hx Nl]; subst.
  unfold sql_sum. cbn [map sum_step Zsum] in *.
  pose proof (Zsum_nonneg l Nl).
  rewrite int64_true by lia.
  apply sum_step_ok; [lia | assumption | lia].
Qed.

Lemma Zsum_filter_le {A} (f : A -> Z) (p : A -> bool) (l : list A) :
  Forall (fun a => 0 <= f a) l ->
  0 <= Zsum (map f (filter p l)) <= Zsum (map f l).
Proof.
  induction 1 as [|a l Ha _ IH]; cbn; [lia|].
  destruct (p a); cbn; lia.
Qed.

Lemma uint64_ok (z : Z) : 0 <= z < 2 ^ 64 -> uint64 (Some z) = Ok z.
Proof.
  intros R. unfold uint64.
  destruct (0 <=? z) eqn:E1; [|lia].
  destruct (z <? 2 ^ 64) eqn:E2; [reflexivity | lia].
Qed.

Lemma result_map_total {A B} (f : A -> result B) (g : A -> B) (l : list A) :
  (forall a, In a l -> f a = Ok (g a)) -> result_map f l = Ok (map g l).
Proof.
  induction l as [|a l IH]; intros Hl; [reflexivity|].
  cbn. rewrite (Hl a) by now left. cbn.
  rewrite IH; [reflexivity|]. intros b Hb. apply Hl. now right.
Qed.

Lemma sql_limit_length {A} (n : Z) (l : list A) :
  0 <= n -> Z.of_nat (List.length (sql_limit n l)) <= n.
Proof.
  intros N. unfold sql_limit. destruct (n <? 0) eqn:E; [lia|].
  rewrite length_firstn. lia.
Qed.

Lemma sql_limit_incl {A} (n : Z) (l : list A) a :
  In a (sql_limit n l) -> In a l.
Proof.
  unfold sql_limit. destruct (n <? 0); [tauto|]. intros I.
  rewrite <- (firstn_skipn (Z.to_nat n) l). apply in_or_app. now left.
Qed.

Lemma sql_limit_map {A B} (f : A -> B) (n : Z) (l : list A) :
  sql_limit n (map f l) = map f (sql_limit n l).
Proof.
  unfold sql_limit. destruct (n <? 0); [reflexivity|]. apply firstn_map.
Qed.

Lemma sql_limit_NoDup {A} (n : Z) (l : list A) :
  NoDup l -> NoDup (sql_limit n l).
Proof.
  unfold sql_limit. destruct (n <? 0); [tauto|].
  intros N. rewrite <- (firstn_skipn (Z.to_nat n) l) in N.
  now apply NoDup_app_remove_r in N.
Qed.

Lemma filter_filter_andb {A} (p q : A -> bool) (l : list A) :
  filter p (filter q l) = filter (fun a => q a && p a) l.
Proof.
  induction l as [|a l IH]; [reflexivity|].
  cbn. destruct (q a); cbn; [destruct (p a)|]; now rewrite IH.
Qed.

(** ** get_points_by_date *)

Lemma minute_eqb_eq (a b : option Z) : minute_eqb a b = true <-> a = b.
Proof.
  destruct a as [x|], b as [y|]; cbn; try (split; [discriminate|congruence]);
    [|tauto].
  rewrite Z.eqb_eq. split; congruence.
Qed.

Lemma result_map_map_total {A B C} (f : B -> result C) (g : A -> B)
  (h : A -> C) (l : list A) :
  (forall a, In a l -> f (g a) = Ok (h a)) ->
  result_map f (map g l) = Ok (map h l).
Proof.
  induction l as [|a l IH]; intros Hl; [reflexivity|].
  cbn. rewrite (Hl a) by now left. cbn.
  rewrite IH; [reflexivity|]. intros b Hb. apply Hl. now right.
Qed.

Section DateTheorems.

Variable utc_offset : Z -> Z.

Lemma select_points_by_date_ok now launcher_id limit d tp :
  partial_table d = Some tp ->
  has_columns ["timestamp"; "difficulty"; "launcher_id"] (columns tp) = true ->
  Forall (fun p => 0 <= partial.difficulty p) (rows tp) ->
  Zsum (map partial.difficulty (rows tp)) < 2 ^ 63 ->
  Forall (fun p => engine_date utc_offset (partial.timestamp p)) (rows tp) ->
  - 2 ^ 63 <= limit < 2 ^ 63 ->
  select_points_by_date utc_offset now (hex launcher_id) limit d =
  Ok (map (fun p =>
             (Some (strftime_HM
                      (partial.timestamp p + utc_offset (partial.timestamp p))),
              Some (minute_points now launcher_id (rows tp) p)))
          (sql_limit limit
             (first_occurrences minute_eqb
                (fun r => minute_key (partial.timestamp r)) []
                (filter (recent_partial_of now launcher_id) (rows tp)))), d).
Proof.
  intros Hp Hc Nn S V Rl. unfold select_points_by_date.
  rewrite Hp, (from_table_ok _ _ Hc). cbn [result_bind].
  rewrite (sqlite_int_ok _ Rl). cbn [result_bind].
  unfold group_by. rewrite sql_limit_map.
  fold (recent_partial_of now launcher_id).
  change (fun r : partial.row =>
            String.eqb (partial.launcher_id r) (hex launcher_id)
            && (now - 86400 <? partial.timestamp r))
    with (recent_partial_of now launcher_id).
  set (recent := filter (recent_partial_of now launcher_id) (rows tp)).
  rewrite (result_map_map_total _ _
             (fun p =>
                (Some (strftime_HM
                         (partial.timestamp p
                          + utc_offset (partial.timestamp p))),
                 Some (minute_points now launcher_id (rows tp) p)))).
  - reflexivity.
  - intros a I. apply sql_limit_incl in I.
    apply first_occurrences_In in I. destruct I as [I _].
    cbn [fst snd].
    assert (In a (rows tp) /\ recent_partial_of now launcher_id a = true)
      as [Ia Ra] by (now apply filter_In in I).
    rewrite Forall_forall in V. destruct (V a Ia) as [Va Vl].
    assert (filter
              (fun b => minute_eqb (minute_key (partial.timestamp b))
                          (minute_key (partial.timestamp a))) recent
            = filter
                (fun q => recent_partial_of now launcher_id q
                          && (partial.timestamp q / 60
                              =? partial.timestamp a / 60)) (rows tp)) as Fl.
    { unfold recent. rewrite filter_filter_andb. apply filter_ext_in.
      intros q Iq. f_equal. unfold minute_key.
      destruct (V q Iq) as [Vq _]. now rewrite Vq, Va. }
    rewrite Fl, <- (map_map partial.difficulty Some).
    rewrite sql_sum_Some.
    + cbn [result_bind]. unfold local_HM. rewrite Va, Vl. reflexivity.
    + intros E. apply map_eq_nil in E.
      apply (filter_nil_forall _ _ E) in Ia.
      rewrite Ra, Z.eqb_refl in Ia. discriminate.
    + apply Forall_forall. intros x Ix. apply in_map_iff in Ix.
      destruct Ix as (q & <- & Iq). apply filter_In in Iq.
      rewrite Forall_forall in Nn. now apply Nn.
    + pose proof (Zsum_filter_le partial.difficulty
        (fun q => recent_partial_of now launcher_id q
                  && (partial.timestamp q / 60 =? partial.timestamp a / 60))
        (rows tp) Nn). lia.
Qed.

(** C9, as the code has it.  On a store whose partial table carries
    non-negative difficulties with a total below 2^63 and timestamps that
    are dates of the engine (years up to 9999, in UTC and in local time),
    and for a [count] whose sixtyfold fits the signed 64-bit range,
    [get_points_by_date] returns one bucket for each partial of a list
    [reps] of partials of that farmer with [now - 86400 < timestamp], no two
    of them in the same minute; the bucket of a partial is labelled with
    the local hour and minute of its timestamp and holds the sum of the
    difficulty of all partials of that farmer in the window and in that
    minute.  For [count >= 0] there are at most [60 * count] buckets. *)
Theorem get_points_by_date_buckets now launcher_id count (c : connection) tp :
  partial_table (db c) = Some tp ->
  has_columns ["timestamp"; "difficulty"; "launcher_id"] (columns tp) = true ->
  Forall (fun p => 0 <= partial.difficulty p) (rows tp) ->
  Zsum (map partial.difficulty (rows tp)) < 2 ^ 63 ->
  Forall (fun p => engine_date utc_offset (partial.timestamp p)) (rows tp) ->
  - 2 ^ 63 <= count * 60 < 2 ^ 63 ->
  exists reps,
    fst (get_points_by_date utc_offset now launcher_id count c) =
      Ok (map (fun p =>
                 (strftime_HM
                    (partial.timestamp p + utc_offset (partial.timestamp p)),
                  minute_points now launcher_id (rows tp) p))
              reps) /\
    Forall (fun p => In p (rows tp) /\
                     partial.launcher_id p = hex launcher_id /\
                     now - 86400 < partial.timestamp p) reps /\
    NoDup (map (fun p => partial.timestamp p / 60) reps) /\
    (0 <= count -> Z.of_nat (List.length reps) <= 60 * count).
Proof.
  intros Hp Hc Hnn Hsum V Rc.
  set (firsts := first_occurrences minute_eqb
                   (fun r => minute_key (partial.timestamp r)) []
                   (filter (recent_partial_of now launcher_id) (rows tp))).
  exists (sql_limit (count * 60) firsts).
  assert (forall p, In p (sql_limit (count * 60) firsts) ->
            In p (rows tp) /\ recent_partial_of now launcher_id p = true)
    as Hreps.
  { intros p I. apply sql_limit_incl in I.
    apply first_occurrences_In in I. destruct I as [I _].
    now apply filter_In in I. }
  split; [|split; [|split]].
  - unfold get_points_by_date.
    erewrite bind_ok;
      [| apply execute_ok,
           (select_points_by_date_ok _ _ _ _ _ Hp Hc Hnn Hsum V Rc)].
    unfold lift. cbn [fst]. fold firsts.
    rewrite (result_map_map_total _ _
               (fun p =>
                  (strftime_HM
                     (partial.timestamp p
                      + utc_offset (partial.timestamp p)),
                   minute_points now launcher_id (rows tp) p))).
    + reflexivity.
    + intros p I. destruct (Hreps p I) as [I1 I2]. cbn [fst snd py_str].
      rewrite uint64_ok; [reflexivity|].
      pose proof (Zsum_filter_le partial.difficulty
        (fun q => recent_partial_of now launcher_id q
                  && (partial.timestamp q / 60 =? partial.timestamp p / 60))
        (rows tp) Hnn). unfold minute_points. lia.
  - apply Forall_forall. intros p I. destruct (Hreps p I) as [I1 I2].
    unfold recent_partial_of in I2. apply andb_true_iff in I2.
    destruct I2 as [L T]. apply String.eqb_eq in L. apply Z.ltb_lt in T.
    auto.
  - apply (NoDup_map_inv Some).
    rewrite map_map.
    rewrite (map_ext_in _ (fun p => minute_key (partial.timestamp p))).
    + rewrite <- sql_limit_map. apply sql_limit_NoDup.
      apply first_occurrences_NoDup. apply minute_eqb_eq.
    + intros p I. destruct (Hreps p I) as [I1 _].
      rewrite Forall_forall in V. destruct (V p I1) as [Vp _].
      unfold minute_key. now rewrite Vp.
  - intros N. pose proof (sql_limit_length (count * 60) firsts). lia.
Qed.

End DateTheorems.

(** C9, as stated, fails: with [count = 1] and partials of the farmer in two
    different minutes of the last day the call returns two buckets. *)
Lemma get_points_by_date_more_than_count :
  fst (get_points_by_date (fun _ => 0) 90000 (launcher_id farmer_A) 1
         (open store_two_minutes))
    = Ok [("01:23", 7); ("01:25", 3)] /\
  ~ (Z.of_nat (List.length [("01:23", 7); ("01:25", 3)]) <= 1).
Proof. split; [reflexivity | cbn; lia]. Qed.

Lemma get_points_by_date_buckets_witness :
  exists reps,
    fst (get_points_by_date (fun _ => 0) 90000 (launcher_id farmer_A) 1
           (open store_two_minutes)) =
      Ok (map (fun p =>
                 (strftime_HM (partial.timestamp p + 0),
                  minute_points 90000 (launcher_id farmer_A)
                    (table_rows (partial_table store_two_minutes)) p))
              reps) /\
    Z.of_nat (List.length reps) <= 60.
Proof.
  destruct (get_points_by_date_buckets (fun _ => 0) 90000
              (launcher_id farmer_A) 1 (open store_two_minutes)
              (Table ["launcher_id"; "timestamp"; "difficulty"; "harvester"]
                 (table_rows (partial_table store_two_minutes)))
              eq_refl eq_refl) as (reps & Hrun & _ & _ & Hlen).
  - cbn. repeat constructor; discriminate.
  - reflexivity.
  - repeat constructor.
  - lia.
  - exists reps. split; [exact Hrun|]. apply Hlen. discriminate.
Defined.

Lemma map_flat_map {A B C} (g : B -> C) (f : A -> list B) (l : list A) :
  map g (flat_map f l) = flat_map (fun a => map g (f a)) l.
Proof.
  induction l as [|a l IH]; [reflexivity|].
  cbn. now rewrite map_app, IH.
Qed.

Lemma flat_map_ext_in {A B} (f g : A -> list B) (l : list A) :
  (forall a, In a l -> f a = g a) -> flat_map f l = flat_map g l.
Proof.
  induction l as [|a l IH]; intros E; [reflexivity|].
  cbn. rewrite (E a) by now left. f_equal. apply IH.
  intros b Hb. apply E. now right.
Qed.

Lemma flat_map_filter {A B} (p : A -> bool) (f : A -> list B) (l : list A) :
  flat_map f (filter p l) = flat_map (fun a => if p a then f a else []) l.
Proof.
  induction l as [|a l IH]; [reflexivity|].
  cbn. destruct (p a); cbn; now rewrite IH.
Qed.

Lemma filter_flat_map {A B} (p : B -> bool) (f : A -> list B) (l : list A) :
  filter p (flat_map f l) = flat_map (fun a => filter p (f a)) l.
Proof.
  induction l as [|a l IH]; [reflexivity|].
  cbn. now rewrite filter_app, IH.
Qed.

Lemma flat_map_singleton {A B} (f : A -> B) (l : list A) :
  flat_map (fun a => [f a]) l = map f l.
Proof. induction l as [|a l IH]; [reflexivity|]. cbn. now rewrite IH. Qed.

(** ** GROUP BY over the blocks of a join

    A join lists, for each row [f] of its left table, a block of rows that
    all carry the key of [f].  When the keys of the left table are pairwise
    different, the groups are the non-empty blocks. *)

Section GroupByBlocks.

Context {F A K : Type} (eqb : K -> K -> bool) (key : A -> K).
Context (block : F -> list A) (kf : F -> K).
Hypothesis eqb_spec : forall x y, eqb x y = true <-> x = y.
Hypothesis block_key : forall f a, In a (block f) -> key a = kf f.

Lemma eqb_refl_spec x : eqb x x = true.
Proof. now apply eqb_spec. Qed.

Lemma eqb_false_spec x y : x <> y -> eqb x y = false.
Proof.
  intros N. destruct (eqb x y) eqn:E; [|reflexivity].
  apply eqb_spec in E. contradiction.
Qed.

Lemma first_occurrences_skip seen bl rest :
  (forall a, In a bl -> existsb (eqb (key a)) seen = true) ->
  first_occurrences eqb key seen (bl ++ rest) =
  first_occurrences eqb key seen rest.
Proof.
  induction bl as [|a bl IH]; intros S; [reflexivity|].
  cbn. rewrite (S a) by now left. apply IH.
  intros b Hb. apply S. now right.
Qed.

Lemma first_occurrences_blocks fs :
  forall seen,
  NoDup (map kf fs) ->
  (forall f, In f fs -> existsb (eqb (kf f)) seen = false) ->
  first_occurrences eqb key seen (flat_map block fs) =
  flat_map (fun f => firstn 1 (block f)) fs.
Proof.
  induction fs as [|f fs IH]; intros seen N S; [reflexivity|].
  cbn [flat_map]. inversion N as [|? ? Nf Nfs]; subst.
  destruct (block f) as [|a bl] eqn:B.
  - cbn. apply IH; [exact Nfs|]. intros g Hg. apply S. now right.
  - assert (key a = kf f) as Ka by (apply block_key; rewrite B; now left).
    cbn. rewrite Ka, (S f) by now left. f_equal.
    rewrite first_occurrences_skip.
    + apply IH; [exact Nfs|]. intros g Hg. cbn.
      rewrite (S g) by now right.
      rewrite eqb_false_spec; [reflexivity|].
      intros E. apply Nf. rewrite <- E. now apply in_map.
    + intros b Hb. cbn.
      rewrite (block_key f b) by (rewrite B; now right).
      now rewrite eqb_refl_spec.
Qed.

Lemma filter_key_blocks k fs :
  filter (fun b => eqb (key b) k) (flat_map block fs) =
  flat_map (fun f => if eqb (kf f) k then block f else []) fs.
Proof.
  induction fs as [|f fs IH]; [reflexivity|].
  cbn [flat_map]. rewrite filter_app, IH. f_equal.
  destruct (eqb (kf f) k) eqn:E.
  - apply forallb_filter_id. apply forallb_forall. intros b Hb.
    now rewrite (block_key f b Hb).
  - destruct (filter _ (block f)) as [|b l] eqn:Fl; [reflexivity|].
    assert (In b (filter (fun b => eqb (key b) k) (block f))) as I
      by (rewrite Fl; now left).
    apply filter_In in I. destruct I as [I1 I2].
    rewrite (block_key f b I1), E in I2. discriminate.
Qed.

Lemma select_block f fs :
  NoDup (map kf fs) -> In f fs ->
  flat_map (fun g => if eqb (kf g) (kf f) then block g else []) fs = block f.
Proof.
  induction fs as [|g fs IH]; intros N I; [destruct I|].
  inversion N as [|? ? Ng Ngs]; subst. cbn [flat_map].
  destruct I as [-> | I].
  - rewrite eqb_refl_spec.
    rewrite <- (app_nil_r (block f)) at 2. f_equal.
    clear IH N Ngs. induction fs as [|h fs IH]; [reflexivity|].
    cbn [flat_map]. rewrite eqb_false_spec.
    + apply IH. intros J. apply Ng. now right.
    + intros E. apply Ng. left. exact E.
  - rewrite eqb_false_spec.
    + now apply IH.
    + intros E. apply Ng. rewrite E. now apply in_map.
Qed.

Lemma group_by_blocks fs :
  NoDup (map kf fs) ->
  group_by eqb key (flat_map block fs) =
  flat_map (fun f => match block f with
                     | [] => []
                     | a :: _ => [(a, block f)]
                     end) fs.
Proof.
  intros N. unfold group_by.
  rewrite first_occurrences_blocks by (auto; reflexivity).
  rewrite map_flat_map.
  apply flat_map_ext_in. intros f If.
  destruct (block f) as [|a bl] eqn:B; [reflexivity|].
  cbn. rewrite filter_key_blocks.
  rewrite (block_key f a) by (rewrite B; now left).
  rewrite (select_block f fs N If), B. reflexivity.
Qed.

End GroupByBlocks.

(** ** The payout query, farmer by farmer *)

Lemma NoDup_map_filter {A B} (f : A -> B) (p : A -> bool) (l : list A) :
  NoDup (map f l) -> NoDup (map f (filter p l)).
Proof.
  induction l as [|a l IH]; intros N; [constructor|].
  inversion N as [|? ? Na Nl]; subst. cbn.
  destruct (p a); [|now apply IH]. cbn. constructor; [|now apply IH].
  rewrite in_map_iff. intros (b & E & I). apply Na.
  rewrite <- E. apply in_map. now apply filter_In in I.
Qed.

(** ** MIN and SUM *)

Lemma sql_min_spec (l : list Z) :
  l <> [] ->
  exists m, sql_min (map Some l) = Some m /\ In m l /\
            forall x, In x l -> m <= x.
Proof.
  induction l as [|x l IH]; [congruence|]. intros _.
  destruct l as [|y l].
  - exists x. cbn. split; [reflexivity|]. split; [now left|].
    intros ? [<- | []]. lia.
  - destruct IH as (m & E & I & L); [discriminate|].
    exists (Z.min x m).
    change (sql_min (map Some (x :: y :: l)))
      with (match sql_min (map Some (y :: l)) with
            | None => Some x
            | Some m => Some (Z.min x m)
            end).
    rewrite E. split; [reflexivity|]. split.
    + destruct (Z.min_spec x m) as [[_ ->] | [_ ->]]; [now left | now right].
    + intros z [<- | Hz]; [lia|]. specialize (L z Hz). lia.
Qed.

Lemma sql_min_snoc (l : list (option Z)) (x : Z) :
  sql_min (l ++ [Some x]) =
  Some (match sql_min l with Some m => Z.min x m | None => x end).
Proof.
  induction l as [|[y|] l IH]; [reflexivity| |exact IH].
  cbn [app sql_min]. rewrite IH.
  destruct (sql_min l) as [m|]; f_equal; lia.
Qed.

Lemma Zsum_app (l1 l2 : list Z) : Zsum (l1 ++ l2) = Zsum l1 + Zsum l2.
Proof. induction l1 as [|x l1 IH]; cbn; [reflexivity | lia]. Qed.

Lemma Zsum_cond_filter_le {A} (d : A -> Z) (c q : A -> bool) (l : list A) :
  Forall (fun a => 0 <= d a) l ->
  0 <= Zsum (map (fun a => if c a then d a else 0) (filter q l))
    <= Zsum (map d l).
Proof.
  induction 1 as [|a l Ha _ IH]; cbn; [lia|].
  destruct (q a); cbn; [destruct (c a)|]; lia.
Qed.

(** ** The payout query, row by row *)

Lemma result_map_flat_map_single {A B C} (F : B -> result C)
  (G : A -> list B) (h : A -> C) (l : list A) :
  (forall a, In a l -> exists g, G a = [g] /\ F g = Ok (h a)) ->
  result_map F (flat_map G l) = Ok (map h l).
Proof.
  induction l as [|a l IH]; intros Hl; [reflexivity|].
  destruct (Hl a (or_introl eq_refl)) as (g & Eg & Fg).
  cbn [flat_map map]. rewrite Eg. cbn [app result_map].
  rewrite Fg. cbn [result_bind].
  rewrite IH by (intros b Hb; apply Hl; now right). reflexivity.
Qed.

(** The row of the payout query for farmer row [f], from its block of the
    join. *)
Lemma payout_select_block now (l : list partial.row) (f : farmer.row) :
  Forall (fun p => 0 <= partial.difficulty p) l ->
  Zsum (map partial.difficulty l) < 2 ^ 63 ->
  exists g,
    match
      match filter (fun b => String.eqb (farmer.launcher_id f)
                               (partial.launcher_id b)) l with
      | [] => [(f, None)]
      | matching => map (fun b => (f, Some b)) matching
      end
    with
    | [] => []
    | a :: _ =>
        [(a,
          match filter (fun b => String.eqb (farmer.launcher_id f)
                                   (partial.launcher_id b)) l with
          | [] => [(f, None)]
          | matching => map (fun b => (f, Some b)) matching
          end)]
    end = [g] /\
    payout_select now g = Ok (payout_row_of now l f).
Proof.
  intros Nn S.
  unfold payout_row_of, join_date_of, points24_of, partials_of.
  pose proof (Zsum_cond_filter_le partial.difficulty
    (fun p => now - 86400 <? partial.timestamp p)
    (fun p => String.eqb (farmer.launcher_id f) (partial.launcher_id p))
    l Nn) as B.
  assert (Forall (fun p => 0 <= partial.difficulty p)
            (filter (fun p => String.eqb (farmer.launcher_id f)
                                (partial.launcher_id p)) l)) as Nf.
  { apply Forall_forall. intros q Iq. apply filter_In in Iq.
    rewrite Forall_forall in Nn. now apply Nn. }
  destruct (filter _ l) as [|p m] eqn:Fl.
  - eexists. split; [reflexivity|]. reflexivity.
  - eexists. split; [reflexivity|].
    unfold payout_select. cbn [fst snd].
    rewrite !map_map. cbn [snd option_map case_when_recent].
    rewrite (map_ext _ (fun x => Some (if now - 86400 <? partial.timestamp x
                                       then partial.difficulty x else 0))).
    2:{ intros x. rewrite andb_true_r.
        destruct (now - 86400 <? partial.timestamp x); reflexivity. }
    rewrite <- (map_map _ Some).
    rewrite sql_sum_Some.
    + reflexivity.
    + discriminate.
    + apply Forall_forall. intros x Ix. apply in_map_iff in Ix.
      destruct Ix as (q & <- & Iq).
      destruct (now - 86400 <? partial.timestamp q); [|lia].
      rewrite Forall_forall in Nf. now apply Nf.
    + lia.
Qed.

Lemma select_points_and_payout_instructions_rows now d tf tp :
  farmer_table d = Some tf ->
  has_columns ["points"; "payout_instructions"; "launcher_id"; "is_pool_member"]
    (columns tf) = true ->
  partial_table d = Some tp ->
  has_columns ["timestamp"; "difficulty"; "launcher_id"] (columns tp) = true ->
  NoDup (map farmer.launcher_id (rows tf)) ->
  Forall (fun p => 0 <= partial.difficulty p) (rows tp) ->
  Zsum (map partial.difficulty (rows tp)) < 2 ^ 63 ->
  select_points_and_payout_instructions now d =
  Ok (map (payout_row_of now (rows tp)) (filter qualifies (rows tf)), d).
Proof.
  intros Hf Hcf Hp Hcp N Nn S. unfold select_points_and_payout_instructions.
  rewrite Hf, (from_table_ok _ _ Hcf), Hp, (from_table_ok _ _ Hcp).
  cbn [result_bind].
  unfold left_outer_join.
  set (block := fun a : farmer.row =>
         match filter (fun b => String.eqb (farmer.launcher_id a)
                                  (partial.launcher_id b)) (rows tp) with
         | [] => [(a, None)]
         | matching => map (fun b => (a, Some b)) matching
         end).
  assert (forall f ab, In ab (block f) -> fst ab = f) as Bfst.
  { intros f ab. unfold block.
    destruct (filter _ (rows tp)) as [|p m].
    - intros [<- | []]. reflexivity.
    - intros I. apply in_map_iff in I. destruct I as (b & <- & _).
      reflexivity. }
  rewrite filter_flat_map.
  rewrite (flat_map_ext_in _
             (fun a => if farmer.is_pool_member a =? 1 then block a else [])).
  2:{ intros f _. destruct (farmer.is_pool_member f =? 1) eqn:M.
      - apply forallb_filter_id, forallb_forall. intros ab I.
        now rewrite (Bfst f ab I).
      - destruct (filter _ (block f)) as [|ab l] eqn:Fl; [reflexivity|].
        assert (In ab (filter (fun ab => farmer.is_pool_member (fst ab) =? 1)
                         (block f))) as I by (rewrite Fl; now left).
        apply filter_In in I. destruct I as [I1 I2].
        rewrite (Bfst f ab I1), M in I2. discriminate. }
  rewrite <- flat_map_filter.
  rewrite (group_by_blocks String.eqb (fun ab => farmer.launcher_id (fst ab))
             block farmer.launcher_id String.eqb_eq).
  2:{ intros f ab I. now rewrite (Bfst f ab I). }
  2:{ now apply NoDup_map_filter. }
  rewrite (result_map_flat_map_single _ _ (payout_row_of now (rows tp))).
  2:{ intros f _. apply (payout_select_block now (rows tp) f Nn S). }
  cbn [result_bind]. do 2 f_equal.
  rewrite filter_map_swap. cbn [payout_row_of payout.points].
  unfold qualifies. now rewrite filter_filter_andb.
Qed.

(** ** The dict of the payout loop *)

Lemma dict_mem_In k (acc : dict) : dict_mem k acc = true <-> In k (map fst acc).
Proof.
  unfold dict_mem. rewrite existsb_exists, in_map_iff. split.
  - intros (e & I & E). apply bytes_eqb_eq in E. eauto.
  - intros (e & E & I). exists e. split; [exact I|]. now apply bytes_eqb_eq.
Qed.

Lemma dict_modify_keys k f (acc : dict) :
  map fst (dict_modify k f acc) = map fst acc.
Proof.
  unfold dict_modify. rewrite map_map. apply map_ext. intros e.
  destruct (bytes_eqb (fst e) k); reflexivity.
Qed.

Lemma dict_modify_In k f (acc : dict) k' v' :
  In (k', v') (dict_modify k f acc) ->
  exists v, In (k', v) acc /\ v' = if bytes_eqb k' k then f v else v.
Proof.
  unfold dict_modify. rewrite in_map_iff. intros ([k0 v0] & E & I).
  cbn in E. exists v0. destruct (bytes_eqb k0 k) eqn:B;
    injection E as <- <-; rewrite B; auto.
Qed.

Lemma with_key_snoc k es e :
  with_key k (es ++ [e]) =
  with_key k es ++ (if bytes_eqb (fst (fst e)) k then [e] else []).
Proof. unfold with_key. rewrite filter_app. reflexivity. Qed.

Lemma bytes_eqb_sym a b : bytes_eqb a b = bytes_eqb b a.
Proof.
  destruct (bytes_eqb a b) eqn:E.
  - apply bytes_eqb_eq in E. subst. symmetry. apply bytes_eqb_refl.
  - destruct (bytes_eqb b a) eqn:E'; [|reflexivity].
    apply bytes_eqb_eq in E'. subst. now rewrite bytes_eqb_refl in E.
Qed.

Lemma bytes_eqb_neq a b : a <> b -> bytes_eqb a b = false.
Proof.
  intros N. destruct (bytes_eqb a b) eqn:E; [|reflexivity].
  apply bytes_eqb_eq in E. contradiction.
Qed.

Lemma dict_inv_nil : dict_inv [] [].
Proof.
  constructor.
  - constructor.
  - intros k. cbn. split; [discriminate | congruence].
  - intros k v [].
Qed.

Lemma dict_inv_step acc es k p j :
  dict_inv acc es -> dict_inv (merge acc k p j) (es ++ [(k, p, j)]).
Proof.
  intros [N Ks Vs]. unfold merge.
  destruct (dict_mem k acc) eqn:M.
  - constructor.
    + now rewrite dict_modify_keys.
    + intros k'. rewrite dict_mem_In, dict_modify_keys, <- dict_mem_In.
      rewrite with_key_snoc. cbn [fst].
      destruct (bytes_eqb k k') eqn:B.
      * apply bytes_eqb_eq in B. subst k'. rewrite M. split; [|reflexivity].
        intros _ E. apply app_eq_nil in E. destruct E. discriminate.
      * rewrite app_nil_r. apply Ks.
    + intros k' v' I. apply dict_modify_In in I. destruct I as (v & I & ->).
      destruct (Vs k' v I) as [V1 V2].
      rewrite with_key_snoc. cbn [fst]. rewrite (bytes_eqb_sym k k').
      destruct (bytes_eqb k' k) eqn:B.
      * rewrite !map_app, Zsum_app. cbn [map fst snd].
        rewrite sql_min_snoc, <- V2. cbn. split; [lia | reflexivity].
      * rewrite app_nil_r. auto.
  - assert (~ In k (map fst acc)) as Nk
      by (rewrite <- dict_mem_In, M; discriminate).
    assert (with_key k es = []) as Wk.
    { destruct (with_key k es) eqn:W; [reflexivity|].
      assert (dict_mem k acc = true) as T
        by (apply Ks; rewrite W; discriminate).
      congruence. }
    constructor.
    + rewrite map_app. cbn. apply NoDup_app; [exact N | repeat constructor; auto|].
      intros a Ia [<- | []]. contradiction.
    + intros k'. rewrite dict_mem_In, map_app, in_app_iff, <- dict_mem_In.
      rewrite with_key_snoc. cbn [fst map In].
      destruct (bytes_eqb k k') eqn:B.
      * apply bytes_eqb_eq in B. subst k'. split; [|auto].
        intros _ E. apply app_eq_nil in E. destruct E. discriminate.
      * rewrite app_nil_r. rewrite Ks. split; [|auto].
        intros [W | [E | []]]; [exact W|].
        subst. now rewrite bytes_eqb_refl in B.
    + intros k' v' I. apply in_app_or in I. destruct I as [I | [E | []]].
      * rewrite with_key_snoc. cbn [fst].
        rewrite bytes_eqb_neq, app_nil_r; [now apply Vs|].
        intros <-. apply Nk. apply in_map_iff. exists (k, v'). auto.
      * inversion E; subst. rewrite with_key_snoc, Wk. cbn [fst].
        rewrite bytes_eqb_refl. cbn. split; [lia | reflexivity].
Qed.

Lemma dict_inv_merge_all es :
  forall acc es0, dict_inv acc es0 -> dict_inv (merge_all acc es) (es0 ++ es).
Proof.
  induction es as [|[[k p] j] es IH]; intros acc es0 I.
  - now rewrite app_nil_r.
  - cbn. replace (es0 ++ (k, p, j) :: es) with ((es0 ++ [(k, p, j)]) ++ es)
      by (rewrite <- app_assoc; reflexivity).
    apply IH. now apply dict_inv_step.
Qed.

(** With unique keys, looking a key up finds its one entry. *)
Lemma dict_filter_key (acc : dict) k v :
  NoDup (map fst acc) -> In (k, v) acc ->
  filter (fun e => bytes_eqb (fst e) k) acc = [(k, v)].
Proof.
  induction acc as [|[k0 v0] acc IH]; intros N I; [destruct I|].
  inversion N as [|? ? Nk Nacc]; subst. cbn.
  destruct I as [E | I].
  - inversion E; subst. rewrite bytes_eqb_refl. f_equal.
    destruct (filter _ acc) as [|e l] eqn:Fl; [reflexivity|].
    assert (In e (filter (fun e => bytes_eqb (fst e) k) acc)) as Ie
      by (rewrite Fl; now left).
    apply filter_In in Ie. destruct Ie as [I1 I2].
    apply bytes_eqb_eq in I2. exfalso. apply Nk. rewrite <- I2.
    now apply in_map.
  - rewrite bytes_eqb_neq; [now apply IH|].
    intros ->. apply Nk. apply in_map_iff. exists (k, v). auto.
Qed.

(** ** get_farmer_points_and_payout_instructions *)

Lemma destination_Some f b :
  destination f = Some b ->
  fromhex (farmer.payout_instructions f) = Some b /\ bytes32 b = Ok b.
Proof.
  unfold destination, bytes32.
  destruct (fromhex (farmer.payout_instructions f)) as [b'|]; [|discriminate].
  destruct (Nat.eqb (List.length b') 32) eqn:E; [|discriminate].
  intros H. injection H as <-. now rewrite E.
Qed.

Lemma accumulate_convertible now l acc f :
  convertible now l f ->
  accumulate acc (payout_row_of now l f) =
  Ok (merge acc (fst (fst (payout_values now l f)))
        (snd (fst (payout_values now l f))) (snd (payout_values now l f))).
Proof.
  intros ((b & Hb) & (j & Hj & Rj) & Rp).
  unfold accumulate, payout_row_of, payout_values.
  cbn [payout.points24 payout.joinDate payout.payout_instructions fst snd].
  rewrite (uint64_ok _ Rp). cbn [result_bind].
  rewrite Hj, (uint64_ok _ Rj). cbn [result_bind].
  destruct (destination_Some f b Hb) as [H1 H2].
  rewrite H1. cbn [of_option result_bind]. rewrite H2.
  cbn [result_bind coalesce]. rewrite Hb. reflexivity.
Qed.

Lemma accumulate_rows_convertible now l Q :
  forall acc,
  (forall f, In f Q -> convertible now l f) ->
  accumulate_rows acc (map (payout_row_of now l) Q) =
  Ok (merge_all acc (map (payout_values now l) Q)).
Proof.
  induction Q as [|f Q IH]; intros acc G; [reflexivity|].
  cbn [map accumulate_rows merge_all fold_left].
  rewrite accumulate_convertible by (apply G; now left).
  cbn [result_bind]. apply IH. intros g Hg. apply G. now right.
Qed.

Lemma qualifying_convertible now tf tp f :
  (forall f, In f (rows tf) -> qualifies f = true ->
     destination f <> None /\ partials_of (rows tp) f <> []) ->
  Forall (fun p => 0 <= partial.timestamp p < 2 ^ 63 /\
                   0 <= partial.difficulty p) (rows tp) ->
  Zsum (map partial.difficulty (rows tp)) < 2 ^ 63 ->
  In f (filter qualifies (rows tf)) ->
  convertible now (rows tp) f.
Proof.
  intros G R S I. apply filter_In in I. destruct I as [I Qf].
  destruct (G f I Qf) as [D P]. split; [|split].
  - destruct (destination f) as [b|]; [eauto | congruence].
  - unfold join_date_of.
    destruct (sql_min_spec (map partial.timestamp (partials_of (rows tp) f)))
      as (m & E & Im & _).
    { intros N. apply map_eq_nil in N. contradiction. }
    rewrite map_map in E. exists m. split; [exact E|].
    apply in_map_iff in Im. destruct Im as (p & <- & Ip).
    apply filter_In in Ip. destruct Ip as [Ip _].
    rewrite Forall_forall in R. destruct (R p Ip) as [Rt _]. lia.
  - unfold points24_of, partials_of.
    pose proof (Zsum_cond_filter_le partial.difficulty
      (fun p => now - 86400 <? partial.timestamp p)
      (fun p => String.eqb (farmer.launcher_id f) (partial.launcher_id p))
      (rows tp)) as B.
    assert (Forall (fun a => 0 <= partial.difficulty a) (rows tp)) as Nn.
    { eapply Forall_impl; [|exact R]. cbn. tauto. }
    specialize (B Nn). lia.
Qed.

(** C1, as the code has it.  On a store with unique launcher ids in which
    every pool member with points above zero has payout instructions that
    spell 32 bytes and has at least one partial, the timestamps and
    difficulties of the partial table being from 0 to 2^63 - 1 and the
    difficulties having a total below 2^63 (so that no SUM overflows),
    [get_farmer_points_and_payout_instructions] returns a list in which

    - every entry carries the destination of some pool member with points
      above zero, so that farmers with points 0 and farmers that are not
      pool members contribute no entry;
    - for the destination [ph] of such a farmer there is exactly one entry;
      with [merged] the pool members with points above zero that pay to
      [ph], its total is the sum over [merged] of the difficulty of each
      farmer's partials with [now - 86400 < timestamp], and its join date is
      the minimum over [merged] of each farmer's earliest partial
      timestamp. *)
Theorem payout_shares_merged now (c : connection) tf tp :
  farmer_table (db c) = Some tf ->
  has_columns ["points"; "payout_instructions"; "launcher_id"; "is_pool_member"]
    (columns tf) = true ->
  partial_table (db c) = Some tp ->
  has_columns ["timestamp"; "difficulty"; "launcher_id"] (columns tp) = true ->
  NoDup (map farmer.launcher_id (rows tf)) ->
  (forall f, In f (rows tf) -> qualifies f = true ->
     destination f <> None /\ partials_of (rows tp) f <> []) ->
  Forall (fun p => 0 <= partial.timestamp p < 2 ^ 63 /\
                   0 <= partial.difficulty p) (rows tp) ->
  Zsum (map partial.difficulty (rows tp)) < 2 ^ 63 ->
  exists l,
    fst (get_farmer_points_and_payout_instructions now c) = Ok l /\
    (forall e, In e l ->
       exists f, In f (rows tf) /\ qualifies f = true /\
                 destination f = Some (snd (fst e))) /\
    (forall f ph,
       In f (rows tf) -> qualifies f = true -> destination f = Some ph ->
       exists j,
         sql_min (map (join_date_of (rows tp))
                    (filter (fun g => qualifies g && pays_to ph g) (rows tf)))
           = Some j /\
         filter (fun e => bytes_eqb (snd (fst e)) ph) l =
           [(Zsum (map (points24_of now (rows tp))
                     (filter (fun g => qualifies g && pays_to ph g) (rows tf))),
             ph, j)]).
Proof.
  intros Hf Hcf Hp Hcp N G R S.
  set (Q := filter qualifies (rows tf)).
  set (es := map (payout_values now (rows tp)) Q).
  set (D := merge_all [] es).
  assert (forall f, In f Q -> convertible now (rows tp) f) as Conv
    by (intros f I; now apply (qualifying_convertible now tf tp f G R S)).
  assert (dict_inv D es) as [Nd Ks Vs]
    by (apply (dict_inv_merge_all es [] [] dict_inv_nil)).
  assert (forall f, In f Q ->
            destination f = Some (fst (fst (payout_values now (rows tp) f))))
    as Key.
  { intros f I. destruct (Conv f I) as ((b & Hb) & _).
    unfold payout_values. cbn. now rewrite Hb. }
  assert (forall ph,
            with_key ph es =
            map (payout_values now (rows tp))
              (filter (fun g => qualifies g && pays_to ph g) (rows tf)))
    as Wk.
  { intros ph. unfold with_key, es. rewrite filter_map_swap. f_equal.
    rewrite <- filter_filter_andb. fold Q. apply filter_ext_in.
    intros f I. unfold pays_to. now rewrite (Key f I). }
  exists (map (fun e => (fst (snd e), fst e, snd (snd e))) D).
  split; [|split].
  - unfold get_farmer_points_and_payout_instructions.
    assert (Forall (fun p => 0 <= partial.difficulty p) (rows tp)) as Nn.
    { eapply Forall_impl; [|exact R]. cbn. tauto. }
    erewrite bind_ok;
      [| apply execute_ok,
           (select_points_and_payout_instructions_rows now _ tf tp
              Hf Hcf Hp Hcp N Nn S)].
    fold Q. unfold lift, bind, ret.
    rewrite (accumulate_rows_convertible now (rows tp) Q [] Conv).
    reflexivity.
  - intros e I. apply in_map_iff in I. destruct I as ([k v] & <- & I).
    cbn [fst snd].
    assert (with_key k es <> []) as W.
    { apply Ks, dict_mem_In, in_map_iff. exists (k, v). auto. }
    destruct (with_key k es) as [|e' w] eqn:E; [congruence|].
    assert (In e' (with_key k es)) as Ie by (rewrite E; now left).
    unfold with_key in Ie. apply filter_In in Ie. destruct Ie as [Ie Ke].
    apply bytes_eqb_eq in Ke. unfold es in Ie. apply in_map_iff in Ie.
    destruct Ie as (f & <- & If). exists f.
    pose proof (Key f If) as Kf. rewrite Ke in Kf.
    apply filter_In in If. tauto.
  - intros f ph If Qf Df.
    assert (In f (filter (fun g => qualifies g && pays_to ph g) (rows tf)))
      as Im.
    { apply filter_In. split; [exact If|]. rewrite Qf. unfold pays_to.
      rewrite Df. apply bytes_eqb_refl. }
    assert (dict_mem ph D = true) as M.
    { apply Ks. rewrite Wk. intros E. apply map_eq_nil in E.
      rewrite E in Im. destruct Im. }
    apply dict_mem_In, in_map_iff in M. destruct M as ([k v] & Ek & Iv).
    cbn in Ek. subst k. destruct (Vs ph v Iv) as [V1 V2].
    rewrite Wk, map_map in V1, V2. cbn [payout_values fst snd] in V1, V2.
    exists (snd v). split.
    + rewrite V2. f_equal. apply map_ext_in. intros g Ig.
      assert (In g Q) as IQ.
      { apply filter_In in Ig. destruct Ig as [Ig Hg].
        apply andb_true_iff in Hg. apply filter_In. tauto. }
      destruct (Conv g IQ) as (_ & (j & -> & _) & _). reflexivity.
    + rewrite filter_map_swap. cbn [fst snd].
      rewrite (dict_filter_key D ph v Nd Iv). cbn. now rewrite V1.
Qed.

(** C1, as stated, fails: farmers A and B are pool members, share their
    payout instructions and have points 40 and 25; each has one partial in
    the last day, of difficulty 7 and 3.  The one entry for their
    destination carries 10, the sum of those difficulties, not 65. *)
Lemma payout_shares_total_is_not_points :
  table_rows (farmer_table store_AB)
    = [farmer_values farmer_A; farmer_values farmer_B] /\
  payout_instructions farmer_A = payout_instructions farmer_B /\
  (is_pool_member farmer_A = true /\ points farmer_A = 40) /\
  (is_pool_member farmer_B = true /\ points farmer_B = 25) /\
  fst (get_farmer_points_and_payout_instructions 90000 (open store_AB))
    = Ok [(10, bytes32_of xaa, 5000)] /\
  10 <> 40 + 25.
Proof. repeat split; discriminate. Qed.

Lemma payout_shares_merged_witness :
  exists l,
    fst (get_farmer_points_and_payout_instructions 90000 (open store_AB))
      = Ok l /\
    filter (fun e => bytes_eqb (snd (fst e)) (bytes32_of xaa)) l
      = [(7 + (3 + 0), bytes32_of xaa, 5000)].
Proof.
  destruct (payout_shares_merged 90000 (open store_AB) farmers_AB partials_AB
              eq_refl eq_refl eq_refl eq_refl) as (l & Hrun & _ & Hone).
  - repeat constructor; cbn; intuition discriminate.
  - intros f [<- | [<- | []]] _; split; discriminate.
  - repeat constructor; cbn; lia.
  - reflexivity.
  - exists l. split; [exact Hrun|].
    destruct (Hone (farmer_values farmer_A) (bytes32_of xaa)
                (or_introl eq_refl) eq_refl eq_refl) as (j & Hj & Hl).
    rewrite Hl. cbn in Hj. injection Hj as <-. reflexivity.
Defined.

(** ** The summary query, farmer by farmer *)

Lemma Zsum_ones {A} (l : list A) :
  Zsum (map (fun _ => 1) l) = Z.of_nat (List.length l).
Proof. induction l as [|a l IH]; cbn [map Zsum List.length]; lia. Qed.

Lemma Zsum_cond {A} (c : A -> bool) (v : A -> Z) (l : list A) :
  Zsum (map (fun a => if c a then v a else 0) l) = Zsum (map v (filter c l)).
Proof.
  induction l as [|a l IH]; [reflexivity|].
  cbn. destruct (c a); cbn; lia.
Qed.

Lemma sql_sum_case_recent now (src : string) (v : ledger.row -> Z)
  (f : farmer.row) (es : list ledger.row) :
  es <> [] ->
  Forall (fun b => 0 <= v b) es ->
  Zsum (map v es) < 2 ^ 63 ->
  sql_sum
    (map (fun ab : farmer.row * ledger.row =>
            case_when_recent now (Some (ledger.timestamp (snd ab)))
              (String.eqb (ledger.source (snd ab)) src) (v (snd ab)))
         (map (fun b => (f, b)) es)) =
  Ok (Some (Zsum (map v (filter (recent_from now src) es)))).
Proof.
  intros Ne Nn S. rewrite map_map. cbn [snd case_when_recent].
  rewrite (map_ext _ (fun b => Some (if recent_from now src b
                                     then v b else 0))).
  2:{ intros b. unfold recent_from.
      destruct ((now - 86400 <? ledger.timestamp b)
                && String.eqb (ledger.source b) src); reflexivity. }
  pose proof (Zsum_filter_le v (recent_from now src) es Nn) as B.
  rewrite <- (map_map _ Some), sql_sum_Some.
  - now rewrite Zsum_cond.
  - intros E. apply map_eq_nil in E. contradiction.
  - apply Forall_forall. intros x Ix. apply in_map_iff in Ix.
    destruct Ix as (b & <- & Ib).
    destruct (recent_from now src b); [|lia].
    rewrite Forall_forall in Nn. now apply Nn.
  - rewrite Zsum_cond. lia.
Qed.

Lemma summary_select_block now f es a :
  es <> [] -> fst a = f ->
  Forall (fun b => 0 <= ledger.difficulty b) es ->
  Zsum (map ledger.difficulty es) < 2 ^ 63 ->
  Z.of_nat (List.length es) < 2 ^ 63 ->
  summary_select now (a, map (fun b => (f, b)) es) =
  Ok (summary.Row
        (farmer.difficulty f)
        (farmer.points f)
        (farmer.launcher_id f)
        (Some (Z.of_nat (List.length (filter (recent_from now "p") es))))
        (Zsum (map ledger.difficulty (filter (recent_from now "p") es)))
        (farmer.payout_instructions f)
        (sql_min (map (fun b => Some (ledger.timestamp b)) es))
        (farmer.p2_singleton_puzzle_hash f)
        (Z.of_nat (List.length (nodup string_dec (map ledger.harvester es))))
        (Some (Z.of_nat (List.length (filter (recent_from now "i") es))))).
Proof.
  intros Ne Fa Nn S L. unfold summary_select. cbn [fst snd]. rewrite Fa.
  assert (Forall (fun _ : ledger.row => 0 <= 1) es) as N1
    by (apply Forall_forall; intros; lia).
  assert (Zsum (map (fun _ : ledger.row => 1) es) < 2 ^ 63) as S1
    by (rewrite Zsum_ones; exact L).
  rewrite (sql_sum_case_recent now "p" (fun _ => 1) f es Ne N1 S1).
  cbn [result_bind].
  rewrite (sql_sum_case_recent now "p" ledger.difficulty f es Ne Nn S).
  cbn [result_bind].
  rewrite (sql_sum_case_recent now "i" (fun _ => 1) f es Ne N1 S1).
  cbn [result_bind coalesce].
  rewrite !Zsum_ones, !map_map. reflexivity.
Qed.

Lemma result_map_flat_map_option {A B C} (F : B -> result C)
  (G : A -> list B) (keep : A -> bool) (h : A -> C) (l : list A) :
  (forall a, In a l ->
     (G a = [] /\ keep a = false) \/
     (exists g, G a = [g] /\ F g = Ok (h a) /\ keep a = true)) ->
  result_map F (flat_map G l) = Ok (map h (filter keep l)).
Proof.
  induction l as [|a l IH]; intros Hl; [reflexivity|].
  cbn [flat_map filter].
  destruct (Hl a (or_introl eq_refl)) as [[Eg K] | (g & Eg & Fg & K)];
    rewrite Eg, K.
  - cbn [app]. apply IH. intros b Hb. apply Hl. now right.
  - cbn [app result_map map]. rewrite Fg. cbn [result_bind].
    rewrite IH by (intros b Hb; apply Hl; now right). reflexivity.
Qed.

Lemma length_filter_le {A} (p : A -> bool) (l : list A) :
  (List.length (filter p l) <= List.length l)%nat.
Proof.
  induction l as [|a l IH]; cbn; [lia|]. destruct (p a); cbn; lia.
Qed.

Lemma select_all_farmers_rows now d tf tv ti :
  farmer_table d = Some tf ->
  has_columns ["difficulty"; "points"; "launcher_id"; "payout_instructions";
               "p2_singleton_puzzle_hash"; "is_pool_member"] (columns tf)
    = true ->
  partial_table d = Some tv ->
  has_columns ["launcher_id"; "harvester"; "difficulty"; "timestamp"]
    (columns tv) = true ->
  invalid_partial_table d = Some ti ->
  has_columns ["launcher_id"; "harvester"; "difficulty"; "timestamp"]
    (columns ti) = true ->
  NoDup (map farmer.launcher_id (rows tf)) ->
  Forall (fun b => 0 <= ledger.difficulty b)
    (ledger_rows (rows tv) (rows ti)) ->
  Zsum (map ledger.difficulty (ledger_rows (rows tv) (rows ti))) < 2 ^ 63 ->
  Z.of_nat (List.length (ledger_rows (rows tv) (rows ti))) < 2 ^ 63 ->
  select_all_farmers now d =
  Ok (map (summary_row_of now (ledger_rows (rows tv) (rows ti)))
        (filter (listed (ledger_rows (rows tv) (rows ti))) (rows tf)), d).
Proof.
  intros Hf Hcf Hv Hcv Hi Hci N Nn S L. unfold select_all_farmers.
  rewrite Hf, (from_table_ok _ _ Hcf), Hv, (from_table_ok _ _ Hcv),
    Hi, (from_table_ok _ _ Hci).
  cbn [result_bind].
  set (p := ledger_rows (rows tv) (rows ti)) in *.
  unfold inner_join.
  set (block := fun a : farmer.row =>
         map (fun b => (a, b))
           (filter (fun b => String.eqb (farmer.launcher_id a)
                               (ledger.launcher_id b)) p)).
  assert (forall f ab, In ab (block f) -> fst ab = f) as Bfst.
  { intros f ab I. apply in_map_iff in I. destruct I as (b & <- & _).
    reflexivity. }
  rewrite filter_flat_map.
  rewrite (flat_map_ext_in _
             (fun a => if farmer.is_pool_member a =? 1 then block a else [])).
  2:{ intros f _. destruct (farmer.is_pool_member f =? 1) eqn:M.
      - apply forallb_filter_id, forallb_forall. intros ab I.
        now rewrite (Bfst f ab I).
      - destruct (filter _ (block f)) as [|ab l] eqn:Fl; [reflexivity|].
        assert (In ab (filter (fun ab => farmer.is_pool_member (fst ab) =? 1)
                         (block f))) as I by (rewrite Fl; now left).
        apply filter_In in I. destruct I as [I1 I2].
        rewrite (Bfst f ab I1), M in I2. discriminate. }
  rewrite <- flat_map_filter.
  rewrite (group_by_blocks String.eqb (fun ab => farmer.launcher_id (fst ab))
             block farmer.launcher_id String.eqb_eq).
  2:{ intros f ab I. now rewrite (Bfst f ab I). }
  2:{ now apply NoDup_map_filter. }
  rewrite (result_map_flat_map_option _ _
             (fun f => negb (is_empty (entries_of p f)))
             (summary_row_of now p)).
  - cbn [result_bind]. do 2 f_equal.
    unfold listed. now rewrite filter_filter_andb.
  - intros f _. unfold summary_row_of, entries_of, block.
    pose proof (Zsum_filter_le ledger.difficulty
      (fun b => String.eqb (farmer.launcher_id f) (ledger.launcher_id b))
      p Nn) as B.
    pose proof (length_filter_le
      (fun b => String.eqb (farmer.launcher_id f) (ledger.launcher_id b))
      p) as Ll.
    assert (Forall (fun b => 0 <= ledger.difficulty b)
              (filter (fun b => String.eqb (farmer.launcher_id f)
                                  (ledger.launcher_id b)) p)) as Nf.
    { apply Forall_forall. intros q Iq. apply filter_In in Iq.
      rewrite Forall_forall in Nn. now apply Nn. }
    destruct (filter _ p) as [|b m] eqn:Fl; [left; split; reflexivity|].
    right. eexists. split; [reflexivity|]. split; [|reflexivity].
    change ((f, b) :: map (fun b0 => (f, b0)) m)
      with (map (fun b0 : ledger.row => (f, b0)) (b :: m)).
    apply summary_select_block;
      [discriminate | reflexivity | exact Nf | lia | lia].
Qed.

Lemma Zsum_nodup_le {A} (dec : forall a b : A, {a = b} + {a <> b})
  (v : A -> Z) (l : list A) :
  Forall (fun a => 0 <= v a) l ->
  0 <= Zsum (map v (nodup dec l)) <= Zsum (map v l).
Proof.
  induction 1 as [|a l Ha _ IH]; cbn; [lia|].
  destruct (in_dec dec a l); cbn; lia.
Qed.

Lemma length_nodup_le {A} (dec : forall a b : A, {a = b} + {a <> b})
  (l : list A) :
  (List.length (nodup dec l) <= List.length l)%nat.
Proof.
  induction l as [|a l IH]; cbn; [lia|].
  destruct (in_dec dec a l); cbn; lia.
Qed.

Lemma ledger_rows_spec v i :
  NoDup (ledger_rows v i) /\
  forall b,
    In b (ledger_rows v i) <->
    (exists r, In r v /\
               b = ledger.Row (partial.launcher_id r) (partial.harvester r)
                     (partial.difficulty r) (partial.timestamp r) "p") \/
    (exists r, In r i /\
               b = ledger.Row (invalid_partial.launcher_id r)
                     (invalid_partial.harvester r)
                     (invalid_partial.difficulty r)
                     (invalid_partial.timestamp r) "i").
Proof.
  unfold ledger_rows, sql_union. split; [apply NoDup_nodup|].
  intros b. rewrite nodup_In, in_app_iff, !in_map_iff.
  split; intros [(r & E & I) | (r & E & I)]; eauto.
Qed.

Lemma listed_spec p f :
  listed p f = true <->
  farmer.is_pool_member f = 1 /\
  exists b, In b p /\ ledger.launcher_id b = farmer.launcher_id f.
Proof.
  unfold listed, entries_of. rewrite andb_true_iff, Z.eqb_eq.
  apply and_iff_compat_l.
  destruct (filter _ p) as [|b m] eqn:Fl; cbn.
  - split; [discriminate|]. intros (b & I & L).
    apply (filter_nil_forall _ _ Fl) in I. cbn in I.
    rewrite L, String.eqb_refl in I. discriminate.
  - split; [|reflexivity]. intros _.
    assert (In b (filter (fun b => String.eqb (farmer.launcher_id f)
                                     (ledger.launcher_id b)) p)) as I
      by (rewrite Fl; now left).
    apply filter_In in I. destruct I as [I E].
    apply String.eqb_eq in E. eauto.
Qed.

Lemma result_map_map_Forall2 {A B C} (f : B -> result C) (g : A -> B)
  (P : A -> C -> Prop) (l : list A) :
  (forall a, In a l -> exists c, f (g a) = Ok c /\ P a c) ->
  exists cs, result_map f (map g l) = Ok cs /\ Forall2 P l cs.
Proof.
  induction l as [|a l IH]; intros Hl.
  - exists []. split; [reflexivity | constructor].
  - destruct (Hl a (or_introl eq_refl)) as (c & E & Pc).
    destruct IH as (cs & Ecs & Fcs).
    { intros b Hb. apply Hl. now right. }
    exists (c :: cs). cbn. rewrite E. cbn. rewrite Ecs. cbn.
    split; [reflexivity | now constructor].
Qed.

(** ** get_farmer_record_for_all_farmers *)

Section SummaryTheorems.

Variable encode_puzzle_hash : bytes -> string -> string.

(** C4, as the code has it.  Let [p] be the rows of both ledgers, each
    tagged with its ledger and duplicates removed.  On a store that has the
    three tables with the columns the query names ([harvester] among them,
    in both ledgers), in which launcher ids are unique in the farmer table,
    the payout instructions of the listed farmers are hexadecimal, and the
    difficulties of [p] are non-negative with a sum, and a number of rows,
    below 2^63 (beyond which SUM raises),
    [get_farmer_record_for_all_farmers] returns one entry for each farmer
    row that is a pool member and has at least one row in [p], and no other
    entry: a pool member without ledger rows and a farmer that is not a pool
    member get none.  The order of the entries is the one in which the
    engine walks the groups, which the query does not fix: the entries are
    those of some arrangement [fs] of the listed farmer rows.  In the entry
    of a farmer, partials24, points24 and invalid_partials count and sum the
    farmer's rows of [p] with [now - 86400 < timestamp], valid for the first
    two and invalid for the third, and joinDate is the earliest timestamp
    among all the farmer's rows of [p]. *)
Theorem all_farmers_summary now (c : connection) tf tv ti :
  farmer_table (db c) = Some tf ->
  has_columns ["difficulty"; "points"; "launcher_id"; "payout_instructions";
               "p2_singleton_puzzle_hash"; "is_pool_member"] (columns tf)
    = true ->
  partial_table (db c) = Some tv ->
  has_columns ["launcher_id"; "harvester"; "difficulty"; "timestamp"]
    (columns tv) = true ->
  invalid_partial_table (db c) = Some ti ->
  has_columns ["launcher_id"; "harvester"; "difficulty"; "timestamp"]
    (columns ti) = true ->
  NoDup (map farmer.launcher_id (rows tf)) ->
  (forall f, In f (rows tf) ->
     listed (ledger_rows (rows tv) (rows ti)) f = true ->
     fromhex (farmer.payout_instructions f) <> None) ->
  Forall (fun b => 0 <= ledger.difficulty b)
    (ledger_rows (rows tv) (rows ti)) ->
  Zsum (map ledger.difficulty (ledger_rows (rows tv) (rows ti))) < 2 ^ 63 ->
  Z.of_nat (List.length (ledger_rows (rows tv) (rows ti))) < 2 ^ 63 ->
  exists l fs,
    fst (get_farmer_record_for_all_farmers encode_puzzle_hash now c)
      = Ok (Some l) /\
    Permutation fs
      (filter (listed (ledger_rows (rows tv) (rows ti))) (rows tf)) /\
    Forall2
      (fun f e =>
         let es := entries_of (ledger_rows (rows tv) (rows ti)) f in
         summary.e_launcher_id e = farmer.launcher_id f /\
         summary.e_points e = farmer.points f /\
         summary.e_difficulty e = farmer.difficulty f /\
         summary.e_puzzle_hash e = farmer.p2_singleton_puzzle_hash f /\
         summary.e_partials24 e =
           Some (Z.of_nat (List.length (filter (recent_from now "p") es))) /\
         summary.e_points24 e =
           Zsum (map ledger.difficulty (filter (recent_from now "p") es)) /\
         summary.e_invalid_partials e =
           Some (Z.of_nat (List.length (filter (recent_from now "i") es))) /\
         exists m,
           summary.e_joinDate e = Some m /\
           In m (map ledger.timestamp es) /\
           forall b, In b es -> m <= ledger.timestamp b)
      fs l /\
    (forall f,
       listed (ledger_rows (rows tv) (rows ti)) f = true <->
       farmer.is_pool_member f = 1 /\
       exists b, In b (ledger_rows (rows tv) (rows ti)) /\
                 ledger.launcher_id b = farmer.launcher_id f).
Proof.
  intros Hf Hcf Hv Hcv Hi Hci N Hex Nn S Lp.
  set (p := ledger_rows (rows tv) (rows ti)) in *.
  destruct (result_map_map_Forall2 (summary_entry encode_puzzle_hash)
              (summary_row_of now p)
              (fun f e =>
                 let es := entries_of p f in
                 summary.e_launcher_id e = farmer.launcher_id f /\
                 summary.e_points e = farmer.points f /\
                 summary.e_difficulty e = farmer.difficulty f /\
                 summary.e_puzzle_hash e = farmer.p2_singleton_puzzle_hash f /\
                 summary.e_partials24 e =
                   Some (Z.of_nat (List.length
                                     (filter (recent_from now "p") es))) /\
                 summary.e_points24 e =
                   Zsum (map ledger.difficulty
                           (filter (recent_from now "p") es)) /\
                 summary.e_invalid_partials e =
                   Some (Z.of_nat (List.length
                                     (filter (recent_from now "i") es))) /\
                 exists m,
                   summary.e_joinDate e = Some m /\
                   In m (map ledger.timestamp es) /\
                   forall b, In b es -> m <= ledger.timestamp b)
              (filter (listed p) (rows tf))) as (l & Hl & Fl).
  { intros f I. apply filter_In in I. destruct I as [I L].
    destruct (fromhex (farmer.payout_instructions f)) as [b|] eqn:Eb;
      [|destruct (Hex f I L Eb)].
    unfold summary_entry, summary_row_of.
    cbn [summary.payout_instructions]. rewrite Eb.
    cbn [of_option result_bind]. eexists. split; [reflexivity|].
    cbn. repeat (split; [reflexivity|]).
    assert (entries_of p f <> []) as Ne.
    { unfold listed in L. apply andb_true_iff in L. destruct L as [_ L].
      destruct (entries_of p f); [discriminate | discriminate]. }
    destruct (sql_min_spec (map ledger.timestamp (entries_of p f)))
      as (m & E & Im & Lm).
    { intros Z0. apply map_eq_nil in Z0. contradiction. }
    rewrite map_map in E. exists m. split; [exact E|]. split; [exact Im|].
    intros b0 Ib. apply Lm. now apply in_map. }
  exists l, (filter (listed p) (rows tf)).
  split; [|split; [apply Permutation_refl | split; [exact Fl|]]].
  - unfold get_farmer_record_for_all_farmers.
    erewrite bind_ok;
      [| apply execute_ok,
           (select_all_farmers_rows now _ tf tv ti Hf Hcf Hv Hcv Hi Hci N
              Nn S Lp)].
    fold p. unfold lift, bind, ret. rewrite Hl. reflexivity.
  - intros f. apply listed_spec.
Qed.

End SummaryTheorems.

(** C4, as stated, fails: farmer A is registered as a pool member and has
    no row in either ledger; the summary has no entry for it. *)
Lemma all_farmers_summary_skips_idle_member :
  table_rows (farmer_table store_A_idle) = [farmer_values farmer_A] /\
  is_pool_member farmer_A = true /\
  fst (get_farmer_record_for_all_farmers (fun _ _ => "xch1") 90000
         (open store_A_idle)) = Ok (Some []).
Proof. repeat split. Qed.

Lemma all_farmers_summary_witness :
  exists l,
    fst (get_farmer_record_for_all_farmers (fun _ _ => "xch1") 90000
           (open store_A_active)) = Ok (Some l) /\
    List.length l = 1%nat.
Proof.
  destruct (all_farmers_summary (fun _ _ => "xch1") 90000
              (open store_A_active) farmers_AB
              (Table ["launcher_id"; "timestamp"; "difficulty"; "harvester"]
                 (table_rows (partial_table store_A_active)))
              (Table ["launcher_id"; "timestamp"; "difficulty"; "harvester";
                      "reason"]
                 (table_rows (invalid_partial_table store_A_active)))
              eq_refl eq_refl eq_refl eq_refl eq_refl eq_refl)
    as (l & fs & Hrun & Hperm & Hall & _).
  - repeat constructor; cbn; intuition discriminate.
  - intros f [<- | [<- | []]] _; discriminate.
  - repeat constructor; vm_compute; discriminate.
  - reflexivity.
  - reflexivity.
  - exists l. split; [exact Hrun|].
    apply Forall2_length in Hall. rewrite <- Hall.
    apply Permutation_length in Hperm. rewrite Hperm. reflexivity.
Defined.

(** * Further properties of the class *)

(** ** update_difficulty and update_singleton *)

Lemma set_database_same (d : database) (t : table farmer.row) :
  farmer_table d = Some t ->
  set_farmer_table d (Table (columns t) (rows t)) = d.
Proof.
  intros E. destruct d as [f p i]. cbn in *. subst f.
  destruct t. reflexivity.
Qed.

Lemma update_where_untouched {R} (cond : R -> bool) set (l : list R) :
  (forall r, In r l -> cond r = false) -> update_where cond set l = l.
Proof.
  intros N. unfold update_where. rewrite <- (map_id l) at 2.
  apply map_ext_in. intros r Hr. now rewrite (N r Hr).
Qed.

Lemma eqb_false_of_neq (l : list farmer.row) (id : string) :
  (forall r, In r l -> farmer.launcher_id r <> id) ->
  forall r, In r l -> String.eqb (farmer.launcher_id r) id = false.
Proof. intros N r I. apply String.eqb_neq. now apply N. Qed.

(** X1.  On the farmer table, [update_difficulty] with a difficulty in the
    signed 64-bit range that the statement can bind succeeds; the rows with
    the launcher id take the new difficulty, every other column of every row
    and every other row stay as they were, and so do the ledgers; when no
    row has the launcher id the call succeeds and the database is
    unchanged.  With a difficulty outside that range the call raises
    OverflowError and the database is unchanged. *)
Theorem update_difficulty_frame (c : connection) tf launcher_id difficulty :
  farmer_table (db c) = Some tf ->
  has_columns ["difficulty"; "launcher_id"] (columns tf) = true ->
  (- 2 ^ 63 <= difficulty < 2 ^ 63 ->
   exists tf',
     fst (update_difficulty launcher_id difficulty c) = Ok tt /\
     farmer_table (db (snd (update_difficulty launcher_id difficulty c)))
       = Some tf' /\
     columns tf' = columns tf /\
     Forall2
       (fun r r' =>
          same_but_difficulty r r' /\
          farmer.difficulty r' =
            if String.eqb (farmer.launcher_id r) (hex launcher_id)
            then difficulty else farmer.difficulty r)
       (rows tf) (rows tf') /\
     partial_table (db (snd (update_difficulty launcher_id difficulty c)))
       = partial_table (db c) /\
     invalid_partial_table
       (db (snd (update_difficulty launcher_id difficulty c)))
       = invalid_partial_table (db c) /\
     ((forall r, In r (rows tf) -> farmer.launcher_id r <> hex launcher_id) ->
      db (snd (update_difficulty launcher_id difficulty c)) = db c)) /\
  (~ - 2 ^ 63 <= difficulty < 2 ^ 63 ->
   fst (update_difficulty launcher_id difficulty c) = Raise OverflowError /\
   db (snd (update_difficulty launcher_id difficulty c)) = db c).
Proof.
  intros Hf Hc.
  unfold update_difficulty, bind, commit, ret, execute,
    update_farmer_set_difficulty.
  rewrite Hf, (from_table_ok _ _ Hc). cbn [result_bind].
  split; intros R.
  - rewrite (sqlite_int_ok _ R). cbn.
    eexists. split; [reflexivity|]. split; [reflexivity|].
    split; [reflexivity|].
    split; [|split; [reflexivity|split; [reflexivity|]]].
    + cbn. apply Forall2_map_right. intros r _.
      destruct (String.eqb (farmer.launcher_id r) (hex launcher_id)).
      * unfold same_but_difficulty. cbn. intuition reflexivity.
      * unfold same_but_difficulty. intuition reflexivity.
    + intros N.
      rewrite (update_where_untouched _ _ _ (eqb_false_of_neq _ _ N)).
      now apply set_database_same.
  - rewrite (sqlite_int_overflow _ R). cbn. split; reflexivity.
Qed.

(** X2.  [update_singleton] writes the tip, the tip state and the
    membership flag of the rows with the launcher id in one statement: each
    such row carries all three new values, every other column of every row
    and every other row stay as they were, and so do the ledgers.  When no
    row has the launcher id the call succeeds and the database is
    unchanged. *)
Theorem update_singleton_frame {CoinSpend PoolState : Type}
  {CS : Streamable CoinSpend} {PS : Streamable PoolState}
  (c : connection) tf launcher_id (tip : CoinSpend) (state : PoolState)
  (member : bool) :
  farmer_table (db c) = Some tf ->
  has_columns ["singleton_tip"; "singleton_tip_state"; "is_pool_member";
               "launcher_id"] (columns tf) = true ->
  exists tf',
    update_singleton launcher_id tip state member c
      = (Ok tt, Connection (set_farmer_table (db c) tf') (S (executed c))) /\
    columns tf' = columns tf /\
    Forall2
      (fun r r' =>
         same_but_singleton r r' /\
         if String.eqb (farmer.launcher_id r) (hex launcher_id)
         then farmer.singleton_tip r' = to_bytes tip /\
              farmer.singleton_tip_state r' = to_bytes state /\
              farmer.is_pool_member r' = Z.b2z member
         else r' = r)
      (rows tf) (rows tf') /\
    ((forall r, In r (rows tf) -> farmer.launcher_id r <> hex launcher_id) ->
     db (snd (update_singleton launcher_id tip state member c)) = db c).
Proof.
  intros Hf Hc.
  unfold update_singleton, bind, commit, ret, execute,
    update_farmer_set_singleton.
  rewrite Hf, (from_table_ok _ _ Hc). cbn.
  eexists. split; [reflexivity|]. split; [reflexivity|]. split.
  - cbn. apply Forall2_map_right. intros r _.
    destruct (String.eqb (farmer.launcher_id r) (hex launcher_id)).
    + unfold same_but_singleton. cbn. intuition reflexivity.
    + unfold same_but_singleton. intuition reflexivity.
  - intros N.
    rewrite (update_where_untouched _ _ _ (eqb_false_of_neq _ _ N)).
    now apply set_database_same.
Qed.

Lemma update_difficulty_frame_witness :
  fst (update_difficulty (launcher_id farmer_A) 250 (open store_AB)) = Ok tt.
Proof.
  destruct (update_difficulty_frame (open store_AB) farmers_AB
              (launcher_id farmer_A) 250 eq_refl eq_refl) as (Hin & _).
  destruct Hin as (t' & H & _); [lia | exact H].
Defined.

Lemma update_singleton_frame_witness :
  fst (update_singleton (launcher_id farmer_A) [x31] [x32] false
         (open store_AB)) = Ok tt.
Proof.
  destruct (update_singleton_frame (open store_AB) farmers_AB
              (launcher_id farmer_A) [x31] [x32] false eq_refl eq_refl)
    as (t' & H & _).
  rewrite H. reflexivity.
Defined.

(** ** An update followed by a lookup *)

Lemma filter_unique_launcher_id (l : list farmer.row) (r : farmer.row) :
  NoDup (map farmer.launcher_id l) -> In r l ->
  filter (fun x => String.eqb (farmer.launcher_id x) (farmer.launcher_id r)) l
  = [r].
Proof.
  induction l as [|a l IH]; intros N I; [destruct I|].
  inversion N as [|? ? Na Nl]; subst. cbn.
  destruct I as [-> | I].
  - rewrite String.eqb_refl. f_equal.
    destruct (filter _ l) as [|b m] eqn:Fl; [reflexivity|].
    assert (In b (filter (fun x => String.eqb (farmer.launcher_id x)
                                     (farmer.launcher_id r)) l)) as Ib
      by (rewrite Fl; now left).
    apply filter_In in Ib. destruct Ib as [Ib E].
    apply String.eqb_eq in E. exfalso. apply Na. rewrite <- E.
    now apply in_map.
  - destruct (String.eqb (farmer.launcher_id a) (farmer.launcher_id r)) eqn:E.
    + apply String.eqb_eq in E. exfalso. apply Na. rewrite E.
      now apply in_map.
    + now apply IH.
Qed.

Section UpdateThenGet.

Context {G1Element CoinSpend PoolState : Type}.
Context {G1Element_bytes : Streamable G1Element}.
Context {CoinSpend_bytes : Streamable CoinSpend}.
Context {PoolState_bytes : Streamable PoolState}.

Lemma get_after_update (c : connection) tf
  (F : FarmerRecord G1Element CoinSpend PoolState) (set : farmer.row -> farmer.row)
  (F' : FarmerRecord G1Element CoinSpend PoolState) d' n :
  farmer_table (db c) = Some tf ->
  columns tf = farmer.columns ->
  NoDup (map farmer.launcher_id (rows tf)) ->
  In (farmer_values F) (rows tf) ->
  (forall r, farmer.launcher_id (set r) = farmer.launcher_id r) ->
  set (farmer_values F) = farmer_values F' ->
  d' = set_farmer_table (db c)
         (Table (columns tf)
            (update_where
               (fun r => String.eqb (farmer.launcher_id r)
                           (hex (launcher_id F)))
               set (rows tf))) ->
  fst (get_farmer_record (launcher_id F) (Connection d' n)) = Ok (Some F').
Proof.
  intros Hf Hc N I Keep Hset ->.
  unfold get_farmer_record.
  erewrite bind_ok;
    [| apply execute_ok, select_farmer_where_launcher_id_ok;
       [reflexivity | exact Hc] ].
  cbn [rows].
  rewrite filter_update_where
    by (intros r; cbn; now rewrite Keep).
  change (hex (launcher_id F)) with (farmer.launcher_id (farmer_values F)).
  rewrite (filter_unique_launcher_id _ _ N I). cbn [map fetchone hd_error].
  rewrite Hset. unfold lift. rewrite row_to_farmer_record_values. reflexivity.
Qed.

(** X3.  With unique launcher ids and the row of record [F] in the farmer
    table, [update_singleton] for the launcher id of [F] followed by
    [get_farmer_record] returns [F] with the new tip, tip state and
    membership and every other field as before. *)
Theorem update_singleton_then_get (c : connection) tf
  (F : FarmerRecord G1Element CoinSpend PoolState)
  (tip : CoinSpend) (state : PoolState) (member : bool) :
  farmer_table (db c) = Some tf ->
  columns tf = farmer.columns ->
  NoDup (map farmer.launcher_id (rows tf)) ->
  In (farmer_values F) (rows tf) ->
  fst ((update_singleton (launcher_id F) tip state member ;;
        get_farmer_record (launcher_id F)) c)
  = Ok (Some (with_singleton tip state member F)).
Proof.
  intros Hf Hc N I.
  assert (update_singleton (launcher_id F) tip state member c =
          (Ok tt,
           Connection
             (set_farmer_table (db c)
                (Table (columns tf)
                   (update_where
                      (fun r => String.eqb (farmer.launcher_id r)
                                  (hex (launcher_id F)))
                      (set_singleton (to_bytes tip) (to_bytes state)
                         (Z.b2z member))
                      (rows tf))))
             (S (executed c)))) as Run.
  { unfold update_singleton, bind, commit, ret, execute,
      update_farmer_set_singleton.
    rewrite Hf. unfold from_table. rewrite Hc. cbn. rewrite Hc. reflexivity. }
  rewrite (bind_ok _ _ _ _ _ Run).
  apply (get_after_update c tf F
           (set_singleton (to_bytes tip) (to_bytes state) (Z.b2z member))
           (with_singleton tip state member F) _ _ Hf Hc N I);
    reflexivity.
Qed.

(** X4.  With unique launcher ids and the row of record [F] in the farmer
    table, [update_difficulty] for the launcher id of [F] with a difficulty
    in the signed 64-bit range that the statement can bind, followed by
    [get_farmer_record], returns [F] with the new difficulty and every other
    field, its points among them, as before. *)
Theorem update_difficulty_then_get (c : connection) tf
  (F : FarmerRecord G1Element CoinSpend PoolState) (d : Z) :
  farmer_table (db c) = Some tf ->
  columns tf = farmer.columns ->
  NoDup (map farmer.launcher_id (rows tf)) ->
  In (farmer_values F) (rows tf) ->
  - 2 ^ 63 <= d < 2 ^ 63 ->
  fst ((update_difficulty (launcher_id F) d ;;
        get_farmer_record (launcher_id F)) c)
  = Ok (Some (with_difficulty d F)).
Proof.
  intros Hf Hc N I R.
  assert (update_difficulty (launcher_id F) d c =
          (Ok tt,
           Connection
             (set_farmer_table (db c)
                (Table (columns tf)
                   (update_where
                      (fun r => String.eqb (farmer.launcher_id r)
                                  (hex (launcher_id F)))
                      (set_difficulty d) (rows tf))))
             (S (executed c)))) as Run.
  { unfold update_difficulty, bind, commit, ret, execute,
      update_farmer_set_difficulty.
    rewrite Hf. unfold from_table. rewrite Hc.
    cbn [has_columns forallb existsb farmer.columns String.eqb Ascii.eqb
         Bool.eqb orb andb result_bind].
    rewrite (sqlite_int_ok _ R). cbn. rewrite Hc. reflexivity. }
  rewrite (bind_ok _ _ _ _ _ Run).
  apply (get_after_update c tf F (set_difficulty d) (with_difficulty d F)
           _ _ Hf Hc N I);
    reflexivity.
Qed.

End UpdateThenGet.

Lemma update_singleton_then_get_witness :
  fst ((update_singleton (launcher_id farmer_B) [x31] [x32] false ;;
        get_farmer_record (launcher_id farmer_B)) (open store_AB))
  = Ok (Some (with_singleton [x31] [x32] false farmer_B)).
Proof.
  apply (update_singleton_then_get (open store_AB) farmers_AB farmer_B);
    try reflexivity.
  - repeat constructor; cbn; intuition discriminate.
  - right. left. reflexivity.
Defined.

Lemma update_difficulty_then_get_witness :
  fst ((update_difficulty (launcher_id farmer_B) 250 ;;
        get_farmer_record (launcher_id farmer_B)) (open store_AB))
  = Ok (Some (with_difficulty 250 farmer_B)).
Proof.
  apply (update_difficulty_then_get (open store_AB) farmers_AB farmer_B);
    try reflexivity.
  - repeat constructor; cbn; intuition discriminate.
  - right. left. reflexivity.
  - lia.
Defined.

(** ** get_pay_to_singleton_phs *)

Lemma set_add_spec (x : bytes) (s : list bytes) :
  NoDup s ->
  NoDup (set_add x s) /\ forall y, In y (set_add x s) <-> In y s \/ y = x.
Proof.
  intros N. unfold set_add. destruct (existsb (bytes_eqb x) s) eqn:E.
  - split; [exact N|]. intros y. split; [auto|].
    intros [I | ->]; [exact I|].
    apply existsb_exists in E. destruct E as (z & Iz & Ez).
    apply bytes_eqb_eq in Ez. now subst.
  - assert (~ In x s) as Nx.
    { intros I. assert (existsb (bytes_eqb x) s = true) as T.
      { apply existsb_exists. exists x. split; [exact I|].
        apply bytes_eqb_refl. }
      congruence. }
    split.
    + apply NoDup_app; [exact N | repeat constructor; auto|].
      intros a Ia [<- | []]. contradiction.
    + intros y. rewrite in_app_iff. cbn. intuition auto.
Qed.

Lemma bytes32_ok (b : bytes) : List.length b = 32%nat -> bytes32 b = Ok b.
Proof. intros L. unfold bytes32. now rewrite L. Qed.

Lemma add_all_phs_ok (phs : list bytes) :
  forall acc,
  NoDup acc ->
  (forall b, In b phs -> List.length b = 32%nat) ->
  exists s,
    add_all_phs acc (map hex phs) = Ok s /\
    NoDup s /\ forall y, In y s <-> In y acc \/ In y phs.
Proof.
  induction phs as [|b phs IH]; intros acc N L.
  - exists acc. cbn. intuition auto.
  - cbn [map add_all_phs]. rewrite fromhex_hex. cbn [of_option result_bind].
    rewrite bytes32_ok by (apply L; now left). cbn [result_bind].
    destruct (set_add_spec b acc N) as [N' M'].
    destruct (IH (set_add b acc) N') as (s & E & Ns & Ms).
    { intros b' Hb'. apply L. now right. }
    exists s. split; [exact E|]. split; [exact Ns|].
    intros y. rewrite Ms, M'. cbn. intuition auto.
Qed.

Lemma add_all_phs_bad_length (phs : list bytes) :
  forall acc,
  (exists b, In b phs /\ List.length b <> 32%nat) ->
  add_all_phs acc (map hex phs) = Raise ValueError.
Proof.
  induction phs as [|b phs IH]; intros acc (b0 & I & L); [destruct I|].
  cbn [map add_all_phs]. rewrite fromhex_hex. cbn [of_option result_bind].
  unfold bytes32. destruct (Nat.eqb (List.length b) 32) eqn:E.
  - cbn [result_bind]. apply IH. exists b0. split; [|exact L].
    destruct I as [<- | I]; [|exact I].
    apply Nat.eqb_eq in E. contradiction.
  - reflexivity.
Qed.

Section PuzzleHashes.

Context {G1Element CoinSpend PoolState : Type}.
Context {G1Element_bytes : Streamable G1Element}.
Context {CoinSpend_bytes : Streamable CoinSpend}.
Context {PoolState_bytes : Streamable PoolState}.

(** X5.  With the farmer table holding the rows of the records [Fs],
    [get_pay_to_singleton_phs] executes one statement and leaves the
    database as it was.  When every p2_singleton_puzzle_hash is 32 bytes
    long it returns a set, without duplicates, that holds exactly the
    p2_singleton_puzzle_hash of every record, for pool members and others
    alike; when some record carries a hash of another length it raises
    ValueError. *)
Theorem get_pay_to_singleton_phs_spec (c : connection) tf
  (Fs : list (FarmerRecord G1Element CoinSpend PoolState)) :
  farmer_table (db c) = Some tf ->
  has_columns ["p2_singleton_puzzle_hash"] (columns tf) = true ->
  rows tf = map farmer_values Fs ->
  snd (get_pay_to_singleton_phs c) = Connection (db c) (S (executed c)) /\
  ((forall F, In F Fs ->
      List.length (p2_singleton_puzzle_hash F) = 32%nat) ->
   exists s,
     fst (get_pay_to_singleton_phs c) = Ok s /\
     NoDup s /\
     forall ph, In ph s <->
                exists F, In F Fs /\ p2_singleton_puzzle_hash F = ph) /\
  ((exists F, In F Fs /\
      List.length (p2_singleton_puzzle_hash F) <> 32%nat) ->
   fst (get_pay_to_singleton_phs c) = Raise ValueError).
Proof.
  intros Hf Hc Hr.
  assert (get_pay_to_singleton_phs c =
          (add_all_phs [] (map hex (map p2_singleton_puzzle_hash Fs)),
           Connection (db c) (S (executed c)))) as Run.
  { unfold get_pay_to_singleton_phs.
    erewrite bind_ok.
    2:{ apply execute_ok. unfold select_p2_singleton_puzzle_hash.
        rewrite Hf, (from_table_ok _ _ Hc). cbn [result_bind]. reflexivity. }
    unfold lift. rewrite Hr, !map_map. reflexivity. }
  rewrite Run. cbn [fst snd]. split; [reflexivity|]. split.
  - intros L.
    destruct (add_all_phs_ok (map p2_singleton_puzzle_hash Fs) [])
      as (s & E & N & M).
    + constructor.
    + intros b Hb. apply in_map_iff in Hb. destruct Hb as (F & <- & I).
      now apply L.
    + exists s. split; [exact E|]. split; [exact N|].
      intros ph. rewrite M, in_map_iff. cbn. split.
      * intros [[] | (F & E' & I)]. eauto.
      * intros (F & I & E'). right. eauto.
  - intros (F & I & L). apply add_all_phs_bad_length.
    exists (p2_singleton_puzzle_hash F). split; [now apply in_map | exact L].
Qed.

End PuzzleHashes.

Lemma get_pay_to_singleton_phs_spec_witness :
  fst (get_pay_to_singleton_phs (open store_AB))
  = Ok [p2_singleton_puzzle_hash farmer_A; p2_singleton_puzzle_hash farmer_B].
Proof.
  destruct (get_pay_to_singleton_phs_spec (open store_AB) farmers_AB
              [farmer_A; farmer_B] eq_refl eq_refl eq_refl)
    as (_ & Hok & _).
  destruct Hok as (s & E & _).
  - intros F [<- | [<- | []]]; reflexivity.
  - reflexivity.
Defined.

(** ** ORDER BY ... DESC LIMIT *)

Section OrderBy.

Context {A : Type} (key : A -> Z).

Lemma insert_desc_perm a l : Permutation (insert_desc key a l) (a :: l).
Proof.
  induction l as [|b l IH]; cbn; [reflexivity|].
  destruct (key b <=? key a); [reflexivity|].
  rewrite IH. apply perm_swap.
Qed.

Lemma order_by_desc_perm l : Permutation (order_by_desc key l) l.
Proof.
  induction l as [|a l IH]; cbn; [reflexivity|].
  rewrite insert_desc_perm. now constructor.
Qed.

Lemma insert_desc_sorted a l :
  StronglySorted (fun x y => key y <= key x) l ->
  StronglySorted (fun x y => key y <= key x) (insert_desc key a l).
Proof.
  induction 1 as [|b l S IH F]; cbn; [repeat constructor|].
  destruct (key b <=? key a) eqn:E.
  - apply Z.leb_le in E. constructor; [now constructor|].
    constructor; [exact E|].
    eapply Forall_impl; [|exact F]. cbn. intros y Hy. lia.
  - apply Z.leb_gt in E. constructor; [exact IH|].
    eapply Permutation_Forall; [symmetry; apply insert_desc_perm|].
    constructor; [lia | exact F].
Qed.

Lemma order_by_desc_sorted l :
  StronglySorted (fun x y => key y <= key x) (order_by_desc key l).
Proof.
  induction l as [|a l IH]; cbn; [constructor|].
  now apply insert_desc_sorted.
Qed.

(** What [ORDER BY key DESC LIMIT n] keeps and what it leaves out. *)
Lemma limit_order_by_desc (n : Z) (l : list A) :
  exists rest,
    Permutation l (sql_limit n (order_by_desc key l) ++ rest) /\
    StronglySorted (fun x y => key y <= key x)
      (sql_limit n (order_by_desc key l) ++ rest) /\
    (0 <= n ->
     Z.of_nat (List.length (sql_limit n (order_by_desc key l)))
       = Z.min n (Z.of_nat (List.length l))) /\
    (n < 0 -> rest = []).
Proof.
  unfold sql_limit. destruct (n <? 0) eqn:E.
  - exists []. rewrite app_nil_r. apply Z.ltb_lt in E.
    split; [symmetry; apply order_by_desc_perm|].
    split; [apply order_by_desc_sorted|]. split; [lia | reflexivity].
  - apply Z.ltb_ge in E.
    exists (skipn (Z.to_nat n) (order_by_desc key l)).
    rewrite firstn_skipn.
    split; [symmetry; apply order_by_desc_perm|].
    split; [apply order_by_desc_sorted|]. split; [|lia].
    intros _. rewrite length_firstn.
    rewrite (Permutation_length (order_by_desc_perm l)). lia.
Qed.

End OrderBy.

(** ** get_recent_partials and get_recent_partials_all_farmers *)

(** X6.  On a partial table whose timestamps and difficulties are unsigned
    64-bit values, [get_recent_partials] with a [count] in the signed 64-bit
    range that the statement can bind executes one statement, leaves the
    database as it was and returns the (timestamp, difficulty) pairs of a
    list [shown] of partials of that farmer such that, with [rest] the
    farmer's other partials, [shown ++ rest] lists the farmer's partials in
    non-increasing order of timestamp: the result is sorted most recent
    first and no partial left out is more recent than one returned.  For
    [count >= 0] the result has min(count, number of the farmer's partials)
    entries; for a negative [count] nothing is left out.  With a [count]
    outside the signed 64-bit range the call raises OverflowError and the
    database is as it was. *)
Theorem get_recent_partials_spec launcher_id count (c : connection) tp :
  partial_table (db c) = Some tp ->
  has_columns ["timestamp"; "difficulty"; "launcher_id"] (columns tp) = true ->
  Forall (fun p => 0 <= partial.timestamp p < 2 ^ 64 /\
                   0 <= partial.difficulty p < 2 ^ 64) (rows tp) ->
  (- 2 ^ 63 <= count < 2 ^ 63 ->
   exists shown rest,
     get_recent_partials launcher_id count c =
       (Ok (map (fun p => (partial.timestamp p, partial.difficulty p)) shown),
        Connection (db c) (S (executed c))) /\
     Permutation
       (filter (fun p => String.eqb (partial.launcher_id p) (hex launcher_id))
          (rows tp))
       (shown ++ rest) /\
     StronglySorted (fun x y => partial.timestamp y <= partial.timestamp x)
       (shown ++ rest) /\
     (0 <= count ->
      Z.of_nat (List.length shown) =
        Z.min count
          (Z.of_nat (List.length
             (filter (fun p => String.eqb (partial.launcher_id p)
                                 (hex launcher_id)) (rows tp))))) /\
     (count < 0 -> rest = [])) /\
  (~ - 2 ^ 63 <= count < 2 ^ 63 ->
   get_recent_partials launcher_id count c =
     (Raise OverflowError, Connection (db c) (S (executed c)))).
Proof.
  intros Hp Hc R. split; intros Rc.
  - set (mine := filter (fun p => String.eqb (partial.launcher_id p)
                                    (hex launcher_id)) (rows tp)).
    destruct (limit_order_by_desc partial.timestamp count mine)
      as (rest & P & S & L & Neg).
    exists (sql_limit count (order_by_desc partial.timestamp mine)), rest.
    split; [|auto].
    unfold get_recent_partials.
    erewrite bind_ok.
    2:{ apply execute_ok. unfold select_recent_partials.
        rewrite Hp, (from_table_ok _ _ Hc). cbn [result_bind].
        rewrite (sqlite_int_ok _ Rc). cbn [result_bind]. reflexivity. }
    fold mine. unfold lift. rewrite sql_limit_map.
    rewrite result_map_total with (g := fun r : Z * Z => r).
    + now rewrite map_id.
    + intros r I. apply in_map_iff in I. destruct I as (p & <- & I).
      assert (In p (rows tp)) as Ip.
      { assert (In p mine) as Im.
        { eapply Permutation_in; [symmetry; exact P|].
          apply in_or_app. now left. }
        now apply filter_In in Im. }
      rewrite Forall_forall in R. destruct (R p Ip) as [Rt Rd].
      cbn [fst snd]. rewrite (uint64_ok _ Rt). cbn [result_bind].
      rewrite (uint64_ok _ Rd). reflexivity.
  - unfold get_recent_partials, bind, execute, select_recent_partials.
    rewrite Hp, (from_table_ok _ _ Hc). cbn [result_bind].
    rewrite (sqlite_int_overflow _ Rc). reflexivity.
Qed.

(** X7.  On a partial table whose timestamps and difficulties are unsigned
    64-bit values, [get_recent_partials_all_farmers] with a [count] in the
    signed 64-bit range that the statement can bind executes one statement,
    leaves the database as it was and returns the (timestamp, difficulty,
    launcher_id) triples of a list [shown] of partials such that, with
    [rest] the other partials, [shown ++ rest] lists all partials of all
    farmers in non-increasing order of timestamp.  For [count >= 0] the
    result has min(count, number of partials) entries; for a negative
    [count] nothing is left out.  With a [count] outside the signed 64-bit
    range the call raises OverflowError and the database is as it was. *)
Theorem get_recent_partials_all_farmers_spec count (c : connection) tp :
  partial_table (db c) = Some tp ->
  has_columns ["timestamp"; "difficulty"; "launcher_id"] (columns tp) = true ->
  Forall (fun p => 0 <= partial.timestamp p < 2 ^ 64 /\
                   0 <= partial.difficulty p < 2 ^ 64) (rows tp) ->
  (- 2 ^ 63 <= count < 2 ^ 63 ->
   exists shown rest,
     get_recent_partials_all_farmers count c =
       (Ok (map (fun p => (partial.timestamp p, partial.difficulty p,
                           partial.launcher_id p)) shown),
        Connection (db c) (S (executed c))) /\
     Permutation (rows tp) (shown ++ rest) /\
     StronglySorted (fun x y => partial.timestamp y <= partial.timestamp x)
       (shown ++ rest) /\
     (0 <= count ->
      Z.of_nat (List.length shown)
        = Z.min count (Z.of_nat (List.length (rows tp)))) /\
     (count < 0 -> rest = [])) /\
  (~ - 2 ^ 63 <= count < 2 ^ 63 ->
   get_recent_partials_all_farmers count c =
     (Raise OverflowError, Connection (db c) (S (executed c)))).
Proof.
  intros Hp Hc R. split; intros Rc.
  - destruct (limit_order_by_desc partial.timestamp count (rows tp))
      as (rest & P & S & L & Neg).
    exists (sql_limit count (order_by_desc partial.timestamp (rows tp))), rest.
    split; [|auto].
    unfold get_recent_partials_all_farmers.
    erewrite bind_ok.
    2:{ apply execute_ok. unfold select_recent_partials_all_farmers.
        rewrite Hp, (from_table_ok _ _ Hc). cbn [result_bind].
        rewrite (sqlite_int_ok _ Rc). cbn [result_bind]. reflexivity. }
    unfold lift. rewrite sql_limit_map.
    rewrite result_map_total with (g := fun r : Z * Z * string => r).
    + now rewrite map_id.
    + intros r I. apply in_map_iff in I. destruct I as (p & <- & I).
      assert (In p (rows tp)) as Ip.
      { eapply Permutation_in; [symmetry; exact P|].
        apply in_or_app. now left. }
      rewrite Forall_forall in R. destruct (R p Ip) as [Rt Rd].
      cbn [fst snd]. rewrite (uint64_ok _ Rt). cbn [result_bind].
      rewrite (uint64_ok _ Rd). reflexivity.
  - unfold get_recent_partials_all_farmers, bind, execute,
      select_recent_partials_all_farmers.
    rewrite Hp, (from_table_ok _ _ Hc). cbn [result_bind].
    rewrite (sqlite_int_overflow _ Rc). reflexivity.
Qed.

Lemma get_recent_partials_spec_witness :
  fst (get_recent_partials (launcher_id farmer_A) 1 (open store_two_minutes))
  = Ok [(5100, 3)].
Proof.
  destruct (get_recent_partials_spec (launcher_id farmer_A) 1
              (open store_two_minutes)
              (Table ["launcher_id"; "timestamp"; "difficulty"; "harvester"]
                 (table_rows (partial_table store_two_minutes)))
              eq_refl eq_refl) as (Hin & _).
  - repeat constructor; cbn; lia.
  - destruct Hin as (shown & rest & Hrun & _); [lia|]. reflexivity.
Defined.

Lemma get_recent_partials_all_farmers_spec_witness :
  fst (get_recent_partials_all_farmers 5 (open store_AB))
  = Ok [(6000, 3, hex (launcher_id farmer_B));
        (5000, 7, hex (launcher_id farmer_A))].
Proof.
  destruct (get_recent_partials_all_farmers_spec 5 (open store_AB) partials_AB
              eq_refl eq_refl) as (Hin & _).
  - repeat constructor; cbn; lia.
  - destruct Hin as (shown & rest & Hrun & _); [lia|]. reflexivity.
Defined.

(** ** What the ledger writes leave alone *)

(** X8.  On a store whose invalid_partial table has the five columns
    launcher_id, timestamp, difficulty, harvester, reason in this order (a
    table that [connect] does not create), [store_invalid_partial] with a
    timestamp and a difficulty in the signed 64-bit range that the statement
    can bind succeeds and appends exactly one row, with the five bound
    values, at the end of that table; the farmer table, so every farmer's
    points, and the partial table are unchanged.  With a timestamp or a
    difficulty outside that range the call raises OverflowError and the
    database is as it was. *)
Theorem store_invalid_partial_frame (c : connection) ti launcher_id timestamp
  difficulty harvester reason :
  invalid_partial_table (db c) = Some ti ->
  columns ti = ["launcher_id"; "timestamp"; "difficulty"; "harvester";
                "reason"] ->
  (- 2 ^ 63 <= timestamp < 2 ^ 63 /\ - 2 ^ 63 <= difficulty < 2 ^ 63 ->
   store_invalid_partial launcher_id timestamp difficulty harvester reason c =
   (Ok tt,
    Connection
      (Database
         (farmer_table (db c))
         (partial_table (db c))
         (Some (Table (columns ti)
            (rows ti ++
             [invalid_partial.Row (hex launcher_id) timestamp difficulty
                (hex harvester) reason]))))
      (S (executed c)))) /\
  (~ (- 2 ^ 63 <= timestamp < 2 ^ 63 /\ - 2 ^ 63 <= difficulty < 2 ^ 63) ->
   store_invalid_partial launcher_id timestamp difficulty harvester reason c =
   (Raise OverflowError, Connection (db c) (S (executed c)))).
Proof.
  intros Hi Hn.
  unfold store_invalid_partial, bind, commit, ret, execute,
    insert_into_invalid_partial, insert_values.
  rewrite Hi, Hn.
  cbn [List.length Nat.eqb result_bind invalid_partial.timestamp
       invalid_partial.difficulty].
  split.
  - intros [Rt Rd]. rewrite (sqlite_int_ok _ Rt), (sqlite_int_ok _ Rd).
    reflexivity.
  - intros N.
    destruct (sqlite_int_cases timestamp) as [Et | Et]; rewrite Et;
      cbn [result_bind]; [|reflexivity].
    destruct (sqlite_int_cases difficulty) as [Ed | Ed]; rewrite Ed;
      cbn [result_bind]; [|reflexivity].
    exfalso. apply N. unfold sqlite_int, int64 in Et, Ed.
    destruct (- 2 ^ 63 <=? timestamp) eqn:E1; [|discriminate].
    destruct (timestamp <? 2 ^ 63) eqn:E2; [|discriminate].
    destruct (- 2 ^ 63 <=? difficulty) eqn:E3; [|discriminate].
    destruct (difficulty <? 2 ^ 63) eqn:E4; [|discriminate].
    lia.
Qed.

(** X9.  On a store whose partial table has the four columns launcher_id,
    timestamp, difficulty, harvester in this order (a table that [connect]
    does not create), [add_partial] with a timestamp and a difficulty in the
    signed 64-bit range, for a launcher id that no farmer row has, still
    succeeds and appends its row to the partial table; the farmer table is
    unchanged, so the points of the partial are credited to nobody. *)
Theorem add_partial_unknown_farmer (c : connection) tf tp launcher_id
  timestamp difficulty harvester :
  farmer_table (db c) = Some tf ->
  has_columns ["points"; "launcher_id"] (columns tf) = true ->
  partial_table (db c) = Some tp ->
  columns tp = ["launcher_id"; "timestamp"; "difficulty"; "harvester"] ->
  - 2 ^ 63 <= timestamp < 2 ^ 63 ->
  - 2 ^ 63 <= difficulty < 2 ^ 63 ->
  (forall r, In r (rows tf) -> farmer.launcher_id r <> hex launcher_id) ->
  add_partial launcher_id timestamp difficulty harvester c =
  (Ok tt,
   Connection
     (Database
        (Some tf)
        (Some (Table (columns tp)
           (rows tp ++
            [partial.Row (hex launcher_id) timestamp difficulty
               (hex harvester)])))
        (invalid_partial_table (db c)))
     (S (S (executed c)))).
Proof.
  intros Hf Hc Hp Hn Rt Rd No.
  assert (List.length (columns tp) = 4%nat) as Hn4 by now rewrite Hn.
  rewrite (add_partial_step c tf tp launcher_id timestamp difficulty harvester
             Hf Hc Hp Hn4 Rt Rd).
  rewrite (update_where_untouched _ _ _ (eqb_false_of_neq _ _ No)).
  destruct tf. reflexivity.
Qed.

Lemma store_invalid_partial_frame_witness :
  fst (store_invalid_partial (launcher_id farmer_A) 4000 7 [x21] "too late"
         (open store_AB)) = Ok tt.
Proof.
  destruct (store_invalid_partial_frame (open store_AB)
              (Table ["launcher_id"; "timestamp"; "difficulty"; "harvester";
                      "reason"] [])
              (launcher_id farmer_A) 4000 7 [x21] "too late"
              eq_refl eq_refl) as (Hin & _).
  rewrite Hin; [reflexivity | lia].
Defined.

Lemma add_partial_unknown_farmer_witness :
  fst (add_partial (bytes32_of x77) 5000 7 [x21] (open store_AB)) = Ok tt.
Proof.
  rewrite (add_partial_unknown_farmer (open store_AB) farmers_AB partials_AB
             (bytes32_of x77) 5000 7 [x21] eq_refl eq_refl eq_refl eq_refl).
  - reflexivity.
  - lia.
  - lia.
  - intros r [<- | [<- | []]]; discriminate.
Defined.

(** ** What no sequence of calls undoes *)

Lemma prefix_refl {A} (l : list A) : prefix l l.
Proof. exists []. now rewrite app_nil_r. Qed.

Lemma prefix_trans {A} (l1 l2 l3 : list A) :
  prefix l1 l2 -> prefix l2 l3 -> prefix l1 l3.
Proof.
  intros [e1 ->] [e2 ->]. exists (e1 ++ e2). now rewrite app_assoc.
Qed.

Lemma keeps_table_refl {R} (t : option (table R)) : keeps_table t t.
Proof. intros x ->. eauto. Qed.

Lemma keeps_table_trans {R} (t1 t2 t3 : option (table R)) :
  keeps_table t1 t2 -> keeps_table t2 t3 -> keeps_table t1 t3.
Proof.
  intros K1 K2 x E. destruct (K1 x E) as (x' & E' & C').
  destruct (K2 x' E') as (x'' & E'' & C''). exists x''.
  split; [exact E'' | congruence].
Qed.

Lemma extends_refl d : extends d d.
Proof.
  constructor; auto using prefix_refl, keeps_table_refl.
  intros t E _. now rewrite E.
Qed.

Lemma extends_trans d1 d2 d3 : extends d1 d2 -> extends d2 d3 -> extends d1 d3.
Proof.
  intros [P1 I1 L1 U1 F1 T1 V1 N1 A1] [P2 I2 L2 U2 F2 T2 V2 N2 A2].
  constructor; eauto using prefix_trans, keeps_table_trans.
  intros t E Ar. destruct (T1 t E) as (t' & E' & C').
  rewrite (A2 t' E') by (rewrite C'; exact Ar).
  rewrite <- (A1 t E Ar), E'. reflexivity.
Qed.

Lemma steps_ret {A} (R : database -> database -> Prop) (a : A) :
  (forall d, R d d) -> steps R (ret a).
Proof. intros Rf c. apply Rf. Qed.

Lemma steps_lift {A} (R : database -> database -> Prop) (r : result A) :
  (forall d, R d d) -> steps R (lift r).
Proof. intros Rf c. apply Rf. Qed.

Lemma steps_bind {A B} (R : database -> database -> Prop)
  (m : Store A) (k : A -> Store B) :
  (forall d1 d2 d3, R d1 d2 -> R d2 d3 -> R d1 d3) ->
  steps R m -> (forall a, steps R (k a)) -> steps R (bind m k).
Proof.
  intros Tr Sm Sk c. unfold bind. specialize (Sm c).
  destruct (m c) as [[a|e] c']; cbn in *.
  - eapply Tr; [exact Sm | apply Sk].
  - exact Sm.
Qed.

Lemma steps_execute {A} (R : database -> database -> Prop) (q : statement A) :
  (forall d, R d d) ->
  (forall d a d', q d = Ok (a, d') -> R d d') ->
  steps R (execute q).
Proof.
  intros Rf Hq c. unfold execute.
  destruct (q (db c)) as [[a d']|e] eqn:E; cbn; [eauto | apply Rf].
Qed.

Lemma from_table_Some {R} (t : option (table R)) needed x :
  from_table t needed = Ok x -> t = Some x.
Proof.
  unfold from_table. destruct t as [y|]; [|discriminate].
  destruct (has_columns needed (columns y)); [|discriminate].
  now intros [= ->].
Qed.

Lemma update_where_launcher_ids cond (set : farmer.row -> farmer.row) l :
  (forall r, farmer.launcher_id (set r) = farmer.launcher_id r) ->
  map farmer.launcher_id (update_where cond set l) = map farmer.launcher_id l.
Proof.
  intros K. unfold update_where. rewrite map_map. apply map_ext.
  intros r. destruct (cond r); [apply K | reflexivity].
Qed.

(** A statement that rewrites farmer rows in place, or appends a row with
    a new launcher id, extends the database. *)
Lemma extends_set_farmer d t rows' e :
  farmer_table d = Some t ->
  map farmer.launcher_id rows' = map farmer.launcher_id (rows t) ++ e ->
  (NoDup (map farmer.launcher_id (rows t)) ->
   NoDup (map farmer.launcher_id rows')) ->
  extends d (set_farmer_table d (Table (columns t) rows')).
Proof.
  intros Hf Hl Hn.
  constructor; cbn; auto using prefix_refl, keeps_table_refl.
  - unfold launcher_ids. cbn. rewrite Hf. cbn. now exists e.
  - unfold launcher_ids. cbn. rewrite Hf. exact Hn.
  - intros x E. rewrite Hf in E. injection E as <-. eauto.
  - intros x E _. now rewrite E.
Qed.

Lemma extends_update_farmer d t cond (set : farmer.row -> farmer.row) :
  farmer_table d = Some t ->
  (forall r, farmer.launcher_id (set r) = farmer.launcher_id r) ->
  extends d (set_farmer_table d
               (Table (columns t) (update_where cond set (rows t)))).
Proof.
  intros Hf K. apply (extends_set_farmer d t _ []); [exact Hf | |].
  - now rewrite app_nil_r, update_where_launcher_ids.
  - now rewrite update_where_launcher_ids.
Qed.

(** *** Statement by statement *)

Ltac statement_reads q :=
  let d := fresh "d" in
  let a := fresh "a" in
  let d' := fresh "d'" in
  let H := fresh "H" in
  intros d a d' H; unfold q in H;
  repeat match type of H with
         | context [from_table ?t ?n] =>
             destruct (from_table t n); cbn [result_bind] in H;
             try discriminate
         | context [sqlite_int ?z] =>
             destruct (sqlite_int z); cbn [result_bind] in H;
             try discriminate
         | context [result_map ?f ?l] =>
             destruct (result_map f l); cbn [result_bind] in H;
             try discriminate
         end;
  injection H as _ <-; apply extends_refl.

Lemma pragma_extends d a d' : pragma d = Ok (a, d') -> extends d d'.
Proof. intros [= _ <-]. apply extends_refl. Qed.

Lemma create_index_farmer_extends col d a d' :
  create_index_farmer col d = Ok (a, d') -> extends d d'.
Proof. revert d a d'. statement_reads create_index_farmer. Qed.

Lemma create_index_partial_extends col d a d' :
  create_index_partial col d = Ok (a, d') -> extends d d'.
Proof. revert d a d'. statement_reads create_index_partial. Qed.

Lemma create_table_farmer_extends d a d' :
  create_table_farmer d = Ok (a, d') -> extends d d'.
Proof.
  intros [= _ <-]. destruct d as [[f|] p i]; cbn; [apply extends_refl|].
  constructor; cbn; auto using prefix_refl, keeps_table_refl.
  - intros x [=].
  - intros x E _. now rewrite E.
Qed.

Lemma create_table_partial_extends d a d' :
  create_table_partial d = Ok (a, d') -> extends d d'.
Proof.
  intros [= _ <-]. destruct d as [f [p|] i]; cbn; [apply extends_refl|].
  constructor; cbn; auto using prefix_refl, keeps_table_refl;
    intros x [=].
Qed.

Lemma select_farmer_where_launcher_id_extends l d a d' :
  select_farmer_where_launcher_id l d = Ok (a, d') -> extends d d'.
Proof. revert d a d'. statement_reads select_farmer_where_launcher_id. Qed.

Lemma select_farmer_where_p2_extends l d a d' :
  select_farmer_where_p2_singleton_puzzle_hash_in l d = Ok (a, d') ->
  extends d d'.
Proof.
  revert d a d'.
  statement_reads select_farmer_where_p2_singleton_puzzle_hash_in.
Qed.

Lemma select_p2_singleton_puzzle_hash_extends d a d' :
  select_p2_singleton_puzzle_hash d = Ok (a, d') -> extends d d'.
Proof. revert d a d'. statement_reads select_p2_singleton_puzzle_hash. Qed.

Lemma select_recent_partials_extends l n d a d' :
  select_recent_partials l n d = Ok (a, d') -> extends d d'.
Proof. revert d a d'. statement_reads select_recent_partials. Qed.

Lemma select_recent_partials_all_farmers_extends n d a d' :
  select_recent_partials_all_farmers n d = Ok (a, d') -> extends d d'.
Proof. revert d a d'. statement_reads select_recent_partials_all_farmers. Qed.

Lemma select_points_and_payout_instructions_extends now d a d' :
  select_points_and_payout_instructions now d = Ok (a, d') -> extends d d'.
Proof.
  revert d a d'. statement_reads select_points_and_payout_instructions.
Qed.

Lemma select_all_farmers_extends now d a d' :
  select_all_farmers now d = Ok (a, d') -> extends d d'.
Proof. revert d a d'. statement_reads select_all_farmers. Qed.

Lemma select_points_by_date_extends utc now l n d a d' :
  select_points_by_date utc now l n d = Ok (a, d') -> extends d d'.
Proof. revert d a d'. statement_reads select_points_by_date. Qed.

Lemma insert_into_farmer_extends r d a d' :
  insert_into_farmer r d = Ok (a, d') -> extends d d'.
Proof.
  unfold insert_into_farmer, insert_values.
  destruct (farmer_table d) as [t|] eqn:Hf; [|discriminate].
  destruct (Nat.eqb (List.length (columns t)) 11); [|discriminate].
  cbn [result_bind table_rows].
  repeat match goal with
         | |- context [sqlite_int ?z] =>
             destruct (sqlite_int z); cbn [result_bind]; [|discriminate]
         end.
  destruct (existsb _ (rows t)) eqn:E; [discriminate|].
  intros [= _ <-].
  apply (extends_set_farmer d t _ [farmer.launcher_id r]); [exact Hf | |].
  - now rewrite map_app.
  - intros N. rewrite map_app. cbn.
    apply NoDup_app; [exact N | repeat constructor; auto|].
    intros x Ix [<- | []]. apply in_map_iff in Ix.
    destruct Ix as (r' & Er & Ir).
    assert (existsb (fun r' => String.eqb (farmer.launcher_id r')
                                 (farmer.launcher_id r)) (rows t) = true) as T.
    { apply existsb_exists. exists r'. split; [exact Ir|].
      now apply String.eqb_eq. }
    congruence.
Qed.

Ltac statement_updates q :=
  let H := fresh "H" in
  let t := fresh "t" in
  let E := fresh "E" in
  unfold q;
  match goal with
  | |- context [from_table ?x ?n] =>
      destruct (from_table x n) as [t|] eqn:E; [|discriminate]
  end;
  cbn [result_bind];
  repeat match goal with
         | |- context [sqlite_int ?z] =>
             destruct (sqlite_int z); cbn [result_bind]; [|discriminate]
         end;
  intros H; injection H as _ <-;
  apply from_table_Some in E.

Lemma update_farmer_record_extends v d a d' :
  update_farmer_record v d = Ok (a, d') -> extends d d'.
Proof.
  statement_updates update_farmer_record.
  now apply extends_update_farmer.
Qed.

Lemma update_farmer_set_difficulty_extends x l d a d' :
  update_farmer_set_difficulty x l d = Ok (a, d') -> extends d d'.
Proof.
  statement_updates update_farmer_set_difficulty.
  now apply extends_update_farmer.
Qed.

Lemma update_farmer_set_singleton_extends entry d a d' :
  update_farmer_set_singleton entry d = Ok (a, d') -> extends d d'.
Proof.
  statement_updates update_farmer_set_singleton.
  now apply extends_update_farmer.
Qed.

Lemma update_farmer_add_points_extends x l d a d' :
  update_farmer_add_points x l d = Ok (a, d') -> extends d d'.
Proof.
  statement_updates update_farmer_add_points.
  now apply extends_update_farmer.
Qed.

Lemma update_farmer_set_points_0_extends d a d' :
  update_farmer_set_points_0 d = Ok (a, d') -> extends d d'.
Proof.
  statement_updates update_farmer_set_points_0.
  apply (extends_set_farmer d t _ []); [assumption | |].
  - rewrite app_nil_r, map_map. reflexivity.
  - rewrite map_map. auto.
Qed.

Lemma insert_into_partial_extends r d a d' :
  insert_into_partial r d = Ok (a, d') -> extends d d'.
Proof.
  unfold insert_into_partial, insert_values.
  destruct (partial_table d) as [t|] eqn:Hp; [|discriminate].
  destruct (Nat.eqb (List.length (columns t)) 4) eqn:E; [|discriminate].
  cbn [result_bind].
  repeat match goal with
         | |- context [sqlite_int ?z] =>
             destruct (sqlite_int z); cbn [result_bind]; [|discriminate]
         end.
  intros [= _ <-]. apply Nat.eqb_eq in E.
  constructor; cbn; auto using prefix_refl, keeps_table_refl.
  - rewrite Hp. now exists [r].
  - intros x Ex. rewrite Hp in Ex. injection Ex as <-. eauto.
  - intros x Ex Ar. rewrite Hp in Ex. injection Ex as <-. contradiction.
Qed.

Lemma insert_into_invalid_partial_extends r d a d' :
  insert_into_invalid_partial r d = Ok (a, d') -> extends d d'.
Proof.
  unfold insert_into_invalid_partial, insert_values.
  destruct (invalid_partial_table d) as [t|] eqn:Hi; [|discriminate].
  destruct (Nat.eqb (List.length (columns t)) 5); [|discriminate].
  cbn [result_bind].
  repeat match goal with
         | |- context [sqlite_int ?z] =>
             destruct (sqlite_int z); cbn [result_bind]; [|discriminate]
         end.
  intros [= _ <-].
  constructor; cbn; auto using prefix_refl, keeps_table_refl.
  - rewrite Hi. now exists [r].
  - intros x Ex. rewrite Hi in Ex. injection Ex as <-. eauto.
  - rewrite Hi. discriminate.
  - intros x Ex _. now rewrite Ex.
Qed.

(** *** Method by method *)

Create HintDb store_extends.

#[local] Hint Resolve pragma_extends create_index_farmer_extends
  create_index_partial_extends create_table_farmer_extends
  create_table_partial_extends select_farmer_where_launcher_id_extends
  select_farmer_where_p2_extends select_p2_singleton_puzzle_hash_extends
  select_recent_partials_extends select_recent_partials_all_farmers_extends
  select_points_and_payout_instructions_extends select_all_farmers_extends
  select_points_by_date_extends insert_into_farmer_extends
  update_farmer_record_extends update_farmer_set_difficulty_extends
  update_farmer_set_singleton_extends update_farmer_add_points_extends
  update_farmer_set_points_0_extends insert_into_partial_extends
  insert_into_invalid_partial_extends : store_extends.

Ltac step_through :=
  repeat first
    [ apply steps_ret; exact extends_refl
    | apply steps_lift; exact extends_refl
    | apply steps_execute;
        [exact extends_refl | intros; eauto with store_extends]
    | apply steps_bind; [exact extends_trans | | intros ?]
    | match goal with
      | |- steps _ (match ?x with _ => _ end) => destruct x
      end ].

Lemma connect_steps : steps extends connect.
Proof. unfold connect, commit. step_through. Qed.

Lemma clear_farmer_points_steps : steps extends clear_farmer_points.
Proof. unfold clear_farmer_points, commit. step_through. Qed.

Lemma add_partial_steps l t d h : steps extends (add_partial l t d h).
Proof. unfold add_partial, commit. step_through. Qed.

Lemma store_invalid_partial_steps l t d h r :
  steps extends (store_invalid_partial l t d h r).
Proof. unfold store_invalid_partial, commit. step_through. Qed.

Lemma update_difficulty_steps l d : steps extends (update_difficulty l d).
Proof. unfold update_difficulty, commit. step_through. Qed.

Lemma get_pay_to_singleton_phs_steps : steps extends get_pay_to_singleton_phs.
Proof. unfold get_pay_to_singleton_phs. step_through. Qed.

Lemma get_farmer_points_and_payout_instructions_steps now :
  steps extends (get_farmer_points_and_payout_instructions now).
Proof. unfold get_farmer_points_and_payout_instructions. step_through. Qed.

Lemma get_recent_partials_steps l n : steps extends (get_recent_partials l n).
Proof. unfold get_recent_partials. step_through. Qed.

Lemma get_recent_partials_all_farmers_steps n :
  steps extends (get_recent_partials_all_farmers n).
Proof. unfold get_recent_partials_all_farmers. step_through. Qed.

Lemma get_points_by_date_steps utc now l n :
  steps extends (get_points_by_date utc now l n).
Proof. unfold get_points_by_date. step_through. Qed.

Lemma get_farmer_record_for_all_farmers_steps enc now :
  steps extends (get_farmer_record_for_all_farmers enc now).
Proof. unfold get_farmer_record_for_all_farmers. step_through. Qed.

Section CallFacts.

Context {G1Element CoinSpend PoolState : Type}.
Context {G1Element_bytes : Streamable G1Element}.
Context {CoinSpend_bytes : Streamable CoinSpend}.
Context {PoolState_bytes : Streamable PoolState}.

Variable encode_puzzle_hash : bytes -> string -> string.
Variable utc_offset : Z -> Z.

Lemma add_farmer_record_steps
  (F : FarmerRecord G1Element CoinSpend PoolState) :
  steps extends (add_farmer_record F).
Proof.
  unfold add_farmer_record, commit. step_through.
Qed.

Lemma get_farmer_record_steps l :
  steps extends
    (@get_farmer_record G1Element CoinSpend PoolState _ _ _ l).
Proof.
  unfold get_farmer_record. step_through.
Qed.

Lemma get_farmer_records_for_p2_singleton_phs_steps phs :
  steps extends
    (@get_farmer_records_for_p2_singleton_phs G1Element CoinSpend PoolState
       _ _ _ phs).
Proof.
  unfold get_farmer_records_for_p2_singleton_phs.
  destruct (Nat.eqb (List.length phs) 0); step_through.
Qed.

Lemma update_singleton_steps l (t : CoinSpend) (s : PoolState) m :
  steps extends (update_singleton l t s m).
Proof. unfold update_singleton, commit. step_through. Qed.

Lemma run_call_extends
  (x : @call G1Element CoinSpend PoolState) (c : connection) :
  extends (db c) (db (run_call encode_puzzle_hash utc_offset x c)).
Proof.
  destruct x; cbn [run_call].
  - apply connect_steps.
  - apply add_farmer_record_steps.
  - apply get_farmer_record_steps.
  - apply get_farmer_record_for_all_farmers_steps.
  - apply update_difficulty_steps.
  - apply update_singleton_steps.
  - apply get_pay_to_singleton_phs_steps.
  - apply get_farmer_records_for_p2_singleton_phs_steps.
  - apply get_farmer_points_and_payout_instructions_steps.
  - apply clear_farmer_points_steps.
  - apply add_partial_steps.
  - apply store_invalid_partial_steps.
  - apply get_recent_partials_steps.
  - apply get_points_by_date_steps.
  - apply get_recent_partials_all_farmers_steps.
Qed.

Lemma run_calls_extends (xs : list (@call G1Element CoinSpend PoolState)) :
  forall c,
  extends (db c) (db (run_calls encode_puzzle_hash utc_offset xs c)).
Proof.
  induction xs as [|x xs IH]; intros c; cbn [run_calls].
  - apply extends_refl.
  - eapply extends_trans; [apply run_call_extends | apply IH].
Qed.

End CallFacts.

Lemma from_table_raises {R} (t : option (table R)) needed e :
  from_table t needed = Raise e -> e = OperationalError.
Proof.
  unfold from_table. destruct t as [x|]; [|now intros [= <-]].
  destruct (has_columns needed (columns x)); [discriminate|].
  now intros [= <-].
Qed.

Lemma summary_needs_invalid_partial enc now (c : connection) :
  invalid_partial_table (db c) = None ->
  fst (get_farmer_record_for_all_farmers enc now c) = Raise OperationalError.
Proof.
  intros Hi.
  unfold get_farmer_record_for_all_farmers, bind, execute, select_all_farmers.
  rewrite Hi.
  destruct (from_table (farmer_table (db c)) _) as [f|e] eqn:Ef.
  2:{ apply from_table_raises in Ef. subst. reflexivity. }
  destruct (from_table (partial_table (db c)) _) as [p|e] eqn:Ep.
  2:{ apply from_table_raises in Ep. subst. reflexivity. }
  reflexivity.
Qed.

Section CallTheorems.

Context {G1Element CoinSpend PoolState : Type}.
Context {G1Element_bytes : Streamable G1Element}.
Context {CoinSpend_bytes : Streamable CoinSpend}.
Context {PoolState_bytes : Streamable PoolState}.

Variable encode_puzzle_hash : bytes -> string -> string.
Variable utc_offset : Z -> Z.

(** X10.  Whatever methods of the class are called, in any order and with
    any arguments, and whether they return or raise: the rows of the
    partial table and of the invalid_partial table are still there, in
    their order, with new rows only at the end; the launcher ids of the
    farmer table are still there, in their order, with new ones only at
    the end; and each table that existed still exists with its columns.  No
    method deletes or rewrites a ledger row, deletes a farmer or changes a
    launcher id. *)
Theorem calls_only_append
  (xs : list (@call G1Element CoinSpend PoolState)) (c : connection) :
  let c' := run_calls encode_puzzle_hash utc_offset xs c in
  (exists ps, table_rows (partial_table (db c'))
              = table_rows (partial_table (db c)) ++ ps) /\
  (exists vs, table_rows (invalid_partial_table (db c'))
              = table_rows (invalid_partial_table (db c)) ++ vs) /\
  (exists ids, map farmer.launcher_id (table_rows (farmer_table (db c')))
               = map farmer.launcher_id (table_rows (farmer_table (db c)))
                 ++ ids) /\
  (forall t, farmer_table (db c) = Some t ->
     exists t', farmer_table (db c') = Some t' /\ columns t' = columns t) /\
  (forall t, partial_table (db c) = Some t ->
     exists t', partial_table (db c') = Some t' /\ columns t' = columns t) /\
  (forall t, invalid_partial_table (db c) = Some t ->
     exists t', invalid_partial_table (db c') = Some t' /\
                columns t' = columns t).
Proof.
  destruct (run_calls_extends encode_puzzle_hash utc_offset xs c)
    as [P I L _ F T V _ _].
  cbv zeta. repeat split; assumption.
Qed.

(** X11.  When the launcher ids of the farmer table are pairwise different,
    they still are after any sequence of calls of the methods of the
    class: [add_farmer_record] inserts only when its SELECT found no row,
    and no update writes launcher_id. *)
Theorem launcher_ids_stay_unique
  (xs : list (@call G1Element CoinSpend PoolState)) (c : connection) :
  NoDup (map farmer.launcher_id (table_rows (farmer_table (db c)))) ->
  NoDup (map farmer.launcher_id
           (table_rows
              (farmer_table
                 (db (run_calls encode_puzzle_hash utc_offset xs c))))).
Proof.
  apply (ext_unique _ _ (run_calls_extends encode_puzzle_hash utc_offset xs c)).
Qed.

(** X12.  On a database file that was new when [connect] opened it, after
    any sequence of calls of the methods of the class, the partial table
    is still empty and has the three columns [connect] gave it, there is
    still no invalid_partial table, and every [add_partial], every
    [store_invalid_partial] and every [get_farmer_record_for_all_farmers]
    raises sqlite3.OperationalError: no method creates the table or adds the
    column these statements need. *)
Theorem fresh_store_never_takes_partials
  (xs : list (@call G1Element CoinSpend PoolState)) :
  let c := run_calls encode_puzzle_hash utc_offset xs
             (snd (connect (open empty_database))) in
  partial_table (db c) = Some (Table partial.columns []) /\
  invalid_partial_table (db c) = None /\
  (forall launcher_id timestamp difficulty harvester,
      fst (add_partial launcher_id timestamp difficulty harvester c)
        = Raise OperationalError) /\
  (forall launcher_id timestamp difficulty harvester reason,
      fst (store_invalid_partial launcher_id timestamp difficulty harvester
             reason c) = Raise OperationalError) /\
  (forall now,
      fst (get_farmer_record_for_all_farmers encode_puzzle_hash now c)
        = Raise OperationalError).
Proof.
  cbv zeta.
  destruct (run_calls_extends encode_puzzle_hash utc_offset xs
              (snd (connect (open empty_database))))
    as [_ _ _ _ _ T _ Nv Ar].
  set (c := run_calls encode_puzzle_hash utc_offset xs
              (snd (connect (open empty_database)))) in *.
  destruct (T (Table partial.columns []) eq_refl) as (t' & Et & Ct).
  specialize (Ar (Table partial.columns []) eq_refl ltac:(discriminate)).
  specialize (Nv eq_refl).
  rewrite Et in Ar. cbn in Ar.
  assert (partial_table (db c) = Some (Table partial.columns [])) as Hp.
  { rewrite Et. destruct t' as [cols rs]. cbn in *. now subst. }
  split; [exact Hp|]. split; [exact Nv|]. split; [|split].
  - intros. unfold add_partial, bind, execute, insert_into_partial,
      insert_values. rewrite Hp. reflexivity.
  - intros. unfold store_invalid_partial, bind, execute,
      insert_into_invalid_partial, insert_values. rewrite Nv. reflexivity.
  - intros now. now apply summary_needs_invalid_partial.
Qed.

End CallTheorems.

Lemma launcher_ids_stay_unique_witness :
  NoDup (map farmer.launcher_id
           (table_rows
              (farmer_table
                 (db (run_calls (fun _ _ => "xch1") (fun _ => 0)
                        [call_add_farmer_record farmer_A;
                         call_add_partial (launcher_id farmer_A) 7000 5 [x21];
                         call_add_farmer_record farmer_A;
                         call_clear_farmer_points]
                        (open store_AB)))))).
Proof.
  apply launcher_ids_stay_unique.
  repeat constructor; cbn; intuition discriminate.
Defined.

(** ** get_farmer_record *)

Lemma filter_upsert_rows_other v l (id : string) :
  farmer.launcher_id v <> id ->
  filter (fun r => String.eqb (farmer.launcher_id r) id) (upsert_rows v l)
  = filter (fun r => String.eqb (farmer.launcher_id r) id) l.
Proof.
  intros N. unfold upsert_rows.
  destruct (filter _ l) as [|r0 sel].
  - rewrite filter_app. cbn.
    rewrite (proj2 (String.eqb_neq _ _) N). apply app_nil_r.
  - induction l as [|r l IH]; [reflexivity|].
    cbn. destruct (String.eqb (farmer.launcher_id r) (farmer.launcher_id v))
      eqn:E.
    + apply String.eqb_eq in E. cbn [set_record_columns farmer.launcher_id].
      rewrite E, (proj2 (String.eqb_neq _ _) N). exact IH.
    + destruct (String.eqb (farmer.launcher_id r) id); [f_equal|]; exact IH.
Qed.

Section GetFarmerRecord.

Context {G1Element CoinSpend PoolState : Type}.
Context {G1Element_bytes : Streamable G1Element}.
Context {CoinSpend_bytes : Streamable CoinSpend}.
Context {PoolState_bytes : Streamable PoolState}.

Lemma fetchone_where_launcher_id
  (Fs : list (FarmerRecord G1Element CoinSpend PoolState)) (l : bytes) :
  fetchone
    (filter (fun r => String.eqb (farmer.launcher_id r) (hex l))
       (map farmer_values Fs))
  = option_map farmer_values
      (find (fun F => bytes_eqb (launcher_id F) l) Fs).
Proof.
  induction Fs as [|F Fs IH]; [reflexivity|].
  cbn [map filter find farmer_values farmer.launcher_id].
  rewrite hex_eqb. destruct (bytes_eqb (launcher_id F) l); [reflexivity|].
  exact IH.
Qed.

(** X13.  With the farmer table holding the rows of the records [Fs],
    [get_farmer_record] executes one statement, leaves the database as it
    was and returns the first record of [Fs] with the given launcher id, or
    None when no record has it. *)
Theorem get_farmer_record_spec (c : connection) tf
  (Fs : list (FarmerRecord G1Element CoinSpend PoolState)) (l : bytes) :
  farmer_table (db c) = Some tf ->
  has_columns ["launcher_id"] (columns tf) = true ->
  rows tf = map farmer_values Fs ->
  get_farmer_record l c =
  (Ok (find (fun F => bytes_eqb (launcher_id F) l) Fs),
   Connection (db c) (S (executed c))).
Proof.
  intros Hf Hc Hr. unfold get_farmer_record.
  erewrite bind_ok.
  2:{ apply execute_ok. unfold select_farmer_where_launcher_id.
      rewrite Hf, (from_table_ok _ _ Hc). cbn [result_bind]. reflexivity. }
  rewrite Hr, fetchone_where_launcher_id.
  destruct (find _ Fs) as [F|]; cbn [option_map]; [|reflexivity].
  unfold lift. now rewrite row_to_farmer_record_values.
Qed.

(** X14.  [add_farmer_record] for a record [F] does not change what
    [get_farmer_record] returns for any other launcher id, whether it
    inserted the row of [F] or updated it. *)
Theorem add_farmer_record_keeps_other_records (c : connection) tf
  (F : FarmerRecord G1Element CoinSpend PoolState) (l : bytes) :
  farmer_table (db c) = Some tf ->
  columns tf = farmer.columns ->
  l <> launcher_id F ->
  fst (get_farmer_record l (snd (add_farmer_record F c)))
  = fst (@get_farmer_record G1Element CoinSpend PoolState _ _ _ l c).
Proof.
  intros Hf Hc N.
  assert (fst (@get_farmer_record G1Element CoinSpend PoolState _ _ _ l c) =
          fst (@get_farmer_record G1Element CoinSpend PoolState _ _ _ l
                 (Connection (db c) (S (S (executed c)))))) as Same.
  { unfold get_farmer_record, bind, execute.
    cbn [db]. destruct (select_farmer_where_launcher_id (hex l) (db c))
      as [[a d]|e]; [|reflexivity].
    destruct (fetchone a); reflexivity. }
  destruct (add_farmer_record_cases c tf F Hf Hc) as [Run | Run];
    rewrite Run; cbn [snd]; [|now rewrite Same].
  unfold get_farmer_record.
  erewrite !bind_ok;
    [| apply execute_ok, select_farmer_where_launcher_id_ok;
       [exact Hf | exact Hc]
     | apply execute_ok, select_farmer_where_launcher_id_ok;
       [reflexivity | exact Hc] ].
  cbn [rows]. rewrite filter_upsert_rows_other.
  - destruct (fetchone _); reflexivity.
  - cbn [farmer_values farmer.launcher_id]. intros E. apply hex_inj in E.
    congruence.
Qed.

End GetFarmerRecord.

Lemma get_farmer_record_spec_witness :
  fst (get_farmer_record (launcher_id farmer_B) (open store_AB))
  = Ok (Some farmer_B).
Proof.
  rewrite (get_farmer_record_spec (open store_AB) farmers_AB
             [farmer_A; farmer_B] (launcher_id farmer_B)
             eq_refl eq_refl eq_refl).
  reflexivity.
Defined.

Lemma add_farmer_record_keeps_other_records_witness :
  fst (get_farmer_record (launcher_id farmer_B)
         (snd (add_farmer_record (with_points 0 farmer_A) (open store_AB))))
  = fst (get_farmer_record (launcher_id farmer_B) (open store_AB)).
Proof.
  apply (add_farmer_record_keeps_other_records (open store_AB) farmers_AB
           (with_points 0 farmer_A) (launcher_id farmer_B)
           eq_refl eq_refl).
  discriminate.
Defined.

(** ** Payouts after the points were cleared *)

Lemma filter_none {A} (p : A -> bool) (l : list A) :
  (forall a, In a l -> p a = false) -> filter p l = [].
Proof.
  induction l as [|a l IH]; intros K; [reflexivity|].
  cbn. rewrite (K a) by now left. apply IH. intros b Hb. apply K. now right.
Qed.

Lemma left_outer_join_fst {A B} (on : A -> B -> bool) (l : list A)
  (r : list B) ab :
  In ab (left_outer_join on l r) -> In (fst ab) l.
Proof.
  unfold left_outer_join. rewrite in_flat_map. intros (a & Ia & I).
  destruct (filter (on a) r) as [|b m].
  - destruct I as [<- | []]. exact Ia.
  - apply in_map_iff in I. destruct I as (b' & <- & _). exact Ia.
Qed.

(** The SELECT of the payout query returns no row when no farmer has
    points above zero and the sums of the query stay in range. *)
Lemma select_points_and_payout_instructions_no_points now d tf tp :
  farmer_table d = Some tf ->
  has_columns ["points"; "payout_instructions"; "launcher_id"; "is_pool_member"]
    (columns tf) = true ->
  partial_table d = Some tp ->
  has_columns ["timestamp"; "difficulty"; "launcher_id"] (columns tp) = true ->
  NoDup (map farmer.launcher_id (rows tf)) ->
  Forall (fun p => 0 <= partial.difficulty p) (rows tp) ->
  Zsum (map partial.difficulty (rows tp)) < 2 ^ 63 ->
  (forall r, In r (rows tf) -> farmer.points r <= 0) ->
  select_points_and_payout_instructions now d = Ok ([], d).
Proof.
  intros Hf Hc Hp Hd N Nn S Z0.
  rewrite (select_points_and_payout_instructions_rows now d tf tp
             Hf Hc Hp Hd N Nn S).
  rewrite filter_none; [reflexivity|].
  intros r I. unfold qualifies. apply andb_false_iff. right.
  apply Z.ltb_ge. now apply Z0.
Qed.

(** X15.  On a store whose farmer table has unique launcher ids and whose
    partial table holds non-negative difficulties with a sum below 2^63
    (beyond which the SUM of the payout query raises), right after
    [clear_farmer_points], [get_farmer_points_and_payout_instructions]
    returns the empty list: the query keeps only farmers with points above
    zero, so nobody is paid twice for the same points. *)
Theorem clear_farmer_points_then_payout now (c : connection) tf tp :
  farmer_table (db c) = Some tf ->
  has_columns ["points"; "payout_instructions"; "launcher_id"; "is_pool_member"]
    (columns tf) = true ->
  partial_table (db c) = Some tp ->
  has_columns ["timestamp"; "difficulty"; "launcher_id"] (columns tp) = true ->
  NoDup (map farmer.launcher_id (rows tf)) ->
  Forall (fun p => 0 <= partial.difficulty p) (rows tp) ->
  Zsum (map partial.difficulty (rows tp)) < 2 ^ 63 ->
  fst ((clear_farmer_points ;;
        get_farmer_points_and_payout_instructions now) c) = Ok [].
Proof.
  intros Hf Hc Hp Hd N Nn Sm.
  assert (has_columns ["points"] (columns tf) = true) as Hc1.
  { cbn in Hc |- *. apply andb_true_iff in Hc. destruct Hc as [-> _].
    reflexivity. }
  assert (clear_farmer_points c =
          (Ok tt,
           Connection
             (set_farmer_table (db c)
                (Table (columns tf) (map (set_points 0) (rows tf))))
             (S (executed c)))) as Run.
  { unfold clear_farmer_points, commit. erewrite bind_ok; [reflexivity|].
    apply execute_ok. unfold update_farmer_set_points_0.
    rewrite Hf, (from_table_ok _ _ Hc1). reflexivity. }
  rewrite (bind_ok _ _ _ _ _ Run).
  assert (forall r, In r (map (set_points 0) (rows tf)) ->
                    farmer.points r <= 0) as Z0.
  { intros r I. apply in_map_iff in I. destruct I as (r0 & <- & _).
    cbn. lia. }
  assert (NoDup (map farmer.launcher_id (map (set_points 0) (rows tf))))
    as N'.
  { rewrite map_map. exact N. }
  unfold get_farmer_points_and_payout_instructions.
  pose proof (select_points_and_payout_instructions_no_points now
                (set_farmer_table (db c)
                   (Table (columns tf) (map (set_points 0) (rows tf))))
                (Table (columns tf) (map (set_points 0) (rows tf))) tp
                eq_refl Hc Hp Hd N' Nn Sm Z0) as Sel.
  erewrite bind_ok; [|apply execute_ok; exact Sel].
  reflexivity.
Qed.

Lemma clear_farmer_points_then_payout_witness :
  fst ((clear_farmer_points ;;
        get_farmer_points_and_payout_instructions 90000) (open store_AB))
  = Ok [].
Proof.
  apply (clear_farmer_points_then_payout 90000 (open store_AB)
           farmers_AB partials_AB eq_refl eq_refl eq_refl eq_refl).
  - repeat constructor; cbn; intuition discriminate.
  - repeat constructor; vm_compute; discriminate.
  - reflexivity.
Defined.

(** ** connect on a database that exists *)

(** X16.  [connect] keeps every table that exists as it is, columns and
    rows, and never changes the schema of one that exists; a farmer table
    that is missing is created empty with the eleven columns of the class, a
    partial table that is missing is created empty with the three columns
    launcher_id, timestamp, difficulty, and invalid_partial is left as it is,
    missing if it was.  Connecting again ends the same way, by returning or
    by raising the same exception, and leaves the database as the first
    [connect] left it. *)
Theorem connect_reopen (c : connection) :
  let c' := snd (connect c) in
  (forall t, farmer_table (db c) = Some t -> farmer_table (db c') = Some t) /\
  (forall t, partial_table (db c) = Some t -> partial_table (db c') = Some t) /\
  (farmer_table (db c) = None ->
   farmer_table (db c') = Some (Table farmer.columns [])) /\
  (partial_table (db c) = None ->
   partial_table (db c') =
     Some (Table ["launcher_id"; "timestamp"; "difficulty"] [])) /\
  invalid_partial_table (db c') = invalid_partial_table (db c) /\
  fst (connect c') = fst (connect c) /\
  db (snd (connect c')) = db c'.
Proof.
  destruct c as [[f p i] n].
  unfold connect, commit, ret, bind, execute, pragma, create_table_farmer,
    create_table_partial, create_index_farmer, create_index_partial,
    from_table.
  cbn [db executed farmer_table partial_table invalid_partial_table
       result_bind].
  destruct f as [[fc fr]|], p as [[pc pr]|];
    cbn [create_table_if_not_exists columns rows];
    repeat match goal with
           | |- context [has_columns ?a ?b] =>
               let E := fresh "E" in
               destruct (has_columns a b) eqn:E;
               cbn [result_bind fst snd db executed farmer_table partial_table
                    invalid_partial_table create_table_if_not_exists columns
                    rows]; rewrite ?E
           end;
    cbn; repeat split; intros; try discriminate; auto.
Qed.

(** ** The queries do not write *)

Ltac select_reads :=
  let d := fresh "d" in
  let a := fresh "a" in
  let d' := fresh "d'" in
  let H := fresh "H" in
  intros d a d' H;
  cbv beta delta
    [select_farmer_where_launcher_id
     select_farmer_where_p2_singleton_puzzle_hash_in
     select_p2_singleton_puzzle_hash select_recent_partials
     select_recent_partials_all_farmers select_points_and_payout_instructions
     select_all_farmers select_points_by_date] in H;
  repeat match type of H with
         | context [from_table ?t ?n] =>
             destruct (from_table t n); cbn [result_bind] in H;
             try discriminate
         | context [sqlite_int ?z] =>
             destruct (sqlite_int z); cbn [result_bind] in H;
             try discriminate
         | context [result_map ?f ?l] =>
             destruct (result_map f l); cbn [result_bind] in H;
             try discriminate
         end;
  now injection H as _ <-.

Ltac reads_through :=
  repeat first
    [ apply steps_ret; reflexivity
    | apply steps_lift; reflexivity
    | apply steps_execute; [reflexivity | select_reads]
    | apply steps_bind; [intros ? ? ?; apply eq_trans | | intros ?]
    | match goal with
      | |- steps _ (match ?x with _ => _ end) => destruct x
      end ].

Section Queries.

Context {G1Element CoinSpend PoolState : Type}.
Context {G1Element_bytes : Streamable G1Element}.
Context {CoinSpend_bytes : Streamable CoinSpend}.
Context {PoolState_bytes : Streamable PoolState}.

Variable encode_puzzle_hash : bytes -> string -> string.
Variable utc_offset : Z -> Z.

(** X17.  The eight query methods leave the database exactly as it was,
    whatever their arguments and whether they return or raise.  In
    particular [get_farmer_points_and_payout_instructions] does not reset the
    points it reports: only [clear_farmer_points] does. *)
Theorem queries_leave_the_database (c : connection) :
  (forall l,
      db (snd (@get_farmer_record G1Element CoinSpend PoolState _ _ _ l c))
      = db c) /\
  (forall now,
      db (snd (get_farmer_record_for_all_farmers encode_puzzle_hash now c))
      = db c) /\
  db (snd (get_pay_to_singleton_phs c)) = db c /\
  (forall phs,
      db (snd (@get_farmer_records_for_p2_singleton_phs G1Element CoinSpend
                 PoolState _ _ _ phs c)) = db c) /\
  (forall now,
      db (snd (get_farmer_points_and_payout_instructions now c)) = db c) /\
  (forall l n, db (snd (get_recent_partials l n c)) = db c) /\
  (forall now l n,
      db (snd (get_points_by_date utc_offset now l n c)) = db c) /\
  (forall n, db (snd (get_recent_partials_all_farmers n c)) = db c).
Proof.
  repeat split; intros; symmetry;
    match goal with
    | |- db c = db (snd (?m c)) => revert c; change (steps eq m)
    end.
  - unfold get_farmer_record. reads_through.
  - unfold get_farmer_record_for_all_farmers. reads_through.
  - unfold get_pay_to_singleton_phs. reads_through.
  - unfold get_farmer_records_for_p2_singleton_phs.
    destruct (Nat.eqb (List.length phs) 0); reads_through.
  - unfold get_farmer_points_and_payout_instructions. reads_through.
  - unfold get_recent_partials. reads_through.
  - unfold get_points_by_date. reads_through.
  - unfold get_recent_partials_all_farmers. reads_through.
Qed.

End Queries.

(** ** A partial that was just added *)

Lemma fold_insert_desc_newest {A} (key : A -> Z) (x : A) (s l : list A) :
  (forall a, In a l -> key a < key x) ->
  fold_right (insert_desc key) (x :: s) l
  = x :: fold_right (insert_desc key) s l.
Proof.
  induction l as [|a l IH]; intros K; [reflexivity|].
  cbn [fold_right]. rewrite IH by (intros b Hb; apply K; now right).
  cbn [insert_desc].
  destruct (key x <=? key a) eqn:E; [|reflexivity].
  apply Z.leb_le in E. specialize (K a (or_introl eq_refl)). lia.
Qed.

Lemma order_by_desc_newest {A} (key : A -> Z) (x : A) (l : list A) :
  (forall a, In a l -> key a < key x) ->
  order_by_desc key (l ++ [x]) = x :: order_by_desc key l.
Proof.
  intros K. unfold order_by_desc. rewrite fold_right_app. cbn [fold_right].
  cbn [insert_desc]. now apply fold_insert_desc_newest.
Qed.

Lemma result_map_firstn {A B} (f : A -> result B) (n : nat) (l : list A) l' :
  result_map f l = Ok l' -> result_map f (firstn n l) = Ok (firstn n l').
Proof.
  revert l l'. induction n as [|n IH]; intros l l' H; [reflexivity|].
  destruct l as [|a l]; cbn in H.
  - injection H as <-. reflexivity.
  - destruct (f a) as [b|e] eqn:Fa; cbn in H; [|discriminate].
    destruct (result_map f l) as [bs|e] eqn:Fl; cbn in H; [|discriminate].
    injection H as <-. cbn. rewrite Fa. cbn. rewrite (IH l bs Fl). reflexivity.
Qed.

Lemma result_map_sql_limit {A B} (f : A -> result B) (n : Z) (l : list A) l' :
  result_map f l = Ok l' -> result_map f (sql_limit n l) = Ok (sql_limit n l').
Proof.
  unfold sql_limit. destruct (n <? 0); [tauto|]. apply result_map_firstn.
Qed.

(** X18.  On a store whose partial table has the four columns
    launcher_id, timestamp, difficulty, harvester in this order (a table
    that [connect] does not create), a partial added with a timestamp and a
    difficulty from 0 to 2^63 - 1 and a timestamp above those of the
    farmer's stored partials is the first entry that [get_recent_partials]
    returns for that farmer, followed by the entries it returned before:
    with [older] the full list before the call (count -1), the list after
    the call is [(timestamp, difficulty) :: older] cut to [count] entries,
    or whole for a negative [count]; [count] is in the signed 64-bit
    range. *)
Theorem add_partial_then_get_recent_partials (c : connection) tf tp
  launcher_id timestamp difficulty harvester count older :
  farmer_table (db c) = Some tf ->
  has_columns ["points"; "launcher_id"] (columns tf) = true ->
  partial_table (db c) = Some tp ->
  columns tp = ["launcher_id"; "timestamp"; "difficulty"; "harvester"] ->
  0 <= timestamp < 2 ^ 63 ->
  0 <= difficulty < 2 ^ 63 ->
  - 2 ^ 63 <= count < 2 ^ 63 ->
  (forall p, In p (rows tp) -> partial.launcher_id p = hex launcher_id ->
             partial.timestamp p < timestamp) ->
  fst (get_recent_partials launcher_id (-1) c) = Ok older ->
  fst ((add_partial launcher_id timestamp difficulty harvester ;;
        get_recent_partials launcher_id count) c)
  = Ok (sql_limit count ((timestamp, difficulty) :: older)).
Proof.
  intros Hf Hc Hp Hn Rt Rd Rc New Old.
  assert (List.length (columns tp) = 4%nat) as Hn4 by now rewrite Hn.
  assert (has_columns ["timestamp"; "difficulty"; "launcher_id"] (columns tp)
          = true) as Hd by now rewrite Hn.
  rewrite (bind_ok _ _ _ _ _
             (add_partial_step c tf tp launcher_id timestamp difficulty
                harvester Hf Hc Hp Hn4 ltac:(lia) ltac:(lia))).
  unfold get_recent_partials in Old |- *.
  erewrite bind_ok in Old.
  2:{ apply execute_ok. unfold select_recent_partials.
      rewrite Hp, (from_table_ok _ _ Hd). cbn [result_bind].
      rewrite sqlite_int_ok by lia. cbn [result_bind]. reflexivity. }
  erewrite bind_ok.
  2:{ apply execute_ok. unfold select_recent_partials.
      cbn [db partial_table]. rewrite from_table_ok by exact Hd.
      cbn [result_bind rows]. rewrite (sqlite_int_ok _ Rc).
      cbn [result_bind]. reflexivity. }
  unfold lift in *. cbn [fst] in *.
  change (sql_limit (-1) ?l) with l in Old.
  rewrite filter_app. cbn [filter partial.launcher_id].
  rewrite String.eqb_refl.
  rewrite order_by_desc_newest.
  2:{ intros p I. apply filter_In in I. destruct I as [I E].
      apply String.eqb_eq in E. cbn [partial.timestamp]. now apply New. }
  cbn [map partial.timestamp partial.difficulty].
  apply result_map_sql_limit.
  cbn [result_map fst snd].
  rewrite (uint64_ok timestamp) by lia. cbn [result_bind].
  rewrite (uint64_ok difficulty) by lia. cbn [result_bind].
  rewrite Old. reflexivity.
Qed.

Lemma add_partial_then_get_recent_partials_witness :
  fst ((add_partial (launcher_id farmer_A) 7000 5 [x21] ;;
        get_recent_partials (launcher_id farmer_A) 1) (open store_AB))
  = Ok [(7000, 5)].
Proof.
  rewrite (add_partial_then_get_recent_partials (open store_AB) farmers_AB
             partials_AB (launcher_id farmer_A) 7000 5 [x21] 1 [(5000, 7)]
             eq_refl eq_refl eq_refl eq_refl).
  - reflexivity.
  - lia.
  - lia.
  - lia.
  - intros p [<- | [<- | []]]; cbn; intros; try lia; discriminate.
  - reflexivity.
Defined.

(** ** Looking up the set of all puzzle hashes *)

Lemma filter_all {A} (p : A -> bool) (l : list A) :
  (forall a, In a l -> p a = true) -> filter p l = l.
Proof.
  induction l as [|a l IH]; intros K; [reflexivity|].
  cbn. rewrite (K a) by now left. f_equal. apply IH.
  intros b Hb. apply K. now right.
Qed.

Section ScanAll.

Context {G1Element CoinSpend PoolState : Type}.
Context {G1Element_bytes : Streamable G1Element}.
Context {CoinSpend_bytes : Streamable CoinSpend}.
Context {PoolState_bytes : Streamable PoolState}.

(** X19.  With the farmer table holding the rows of at most 999 records
    [Fs] (so that the set of their hashes stays within the engine's smallest
    default limit on the parameters of a statement), each with a
    p2_singleton_puzzle_hash of 32 bytes,
    [get_farmer_records_for_p2_singleton_phs] called on the set that
    [get_pay_to_singleton_phs] returns gives back every record of [Fs], each
    once, in some order; for an empty table both return empty. *)
Theorem get_pay_to_singleton_phs_then_records (c : connection) tf
  (Fs : list (FarmerRecord G1Element CoinSpend PoolState)) :
  farmer_table (db c) = Some tf ->
  has_columns ["p2_singleton_puzzle_hash"] (columns tf) = true ->
  rows tf = map farmer_values Fs ->
  (List.length Fs <= 999)%nat ->
  (forall F, In F Fs -> List.length (p2_singleton_puzzle_hash F) = 32%nat) ->
  exists l,
    fst ((phs <- get_pay_to_singleton_phs ;;
          get_farmer_records_for_p2_singleton_phs phs) c) = Ok l /\
    Permutation l Fs.
Proof.
  intros Hf Hc Hr _ L. exists Fs. split; [|reflexivity].
  destruct (add_all_phs_ok (map p2_singleton_puzzle_hash Fs) [])
    as (s & E & N & M).
  { constructor. }
  { intros b Hb. apply in_map_iff in Hb. destruct Hb as (F & <- & I).
    now apply L. }
  assert (get_pay_to_singleton_phs c =
          (Ok s, Connection (db c) (S (executed c)))) as Run.
  { unfold get_pay_to_singleton_phs.
    erewrite bind_ok.
    2:{ apply execute_ok. unfold select_p2_singleton_puzzle_hash.
        rewrite Hf, (from_table_ok _ _ Hc). cbn [result_bind]. reflexivity. }
    unfold lift. rewrite Hr, !map_map.
    cbn [farmer_values farmer.p2_singleton_puzzle_hash].
    rewrite <- (map_map p2_singleton_puzzle_hash hex). now rewrite E. }
  rewrite (bind_ok _ _ _ _ _ Run).
  unfold get_farmer_records_for_p2_singleton_phs.
  destruct s as [|ph s'].
  - cbn. destruct Fs as [|F Fs']; [reflexivity|].
    destruct (proj2 (M (p2_singleton_puzzle_hash F))).
    right. now left.
  - cbn [List.length Nat.eqb].
    erewrite bind_ok.
    2:{ apply execute_ok.
        unfold select_farmer_where_p2_singleton_puzzle_hash_in.
        cbn [db]. rewrite Hf, (from_table_ok _ _ Hc). cbn [result_bind].
        reflexivity. }
    unfold lift. cbn [fst]. rewrite Hr, filter_all.
    + now rewrite (result_map_ok _ _ _ row_to_farmer_record_values).
    + intros r I. apply in_map_iff in I. destruct I as (F & <- & I).
      cbn [farmer_values farmer.p2_singleton_puzzle_hash].
      rewrite existsb_hex. apply existsb_exists.
      exists (p2_singleton_puzzle_hash F). split; [|apply bytes_eqb_refl].
      apply M. right. now apply in_map.
Qed.

End ScanAll.

Lemma get_pay_to_singleton_phs_then_records_witness :
  exists l,
    fst ((phs <- get_pay_to_singleton_phs ;;
          get_farmer_records_for_p2_singleton_phs phs) (open store_AB))
    = Ok l /\
    Permutation l [farmer_A; farmer_B].
Proof.
  apply (get_pay_to_singleton_phs_then_records (open store_AB) farmers_AB
           [farmer_A; farmer_B] eq_refl eq_refl eq_refl).
  - cbn. lia.
  - intros F [<- | [<- | []]]; reflexivity.
Defined.
